(** * Spherical-overdensity properties of halos: model and verification

    A shallow embedding of [SO_properties.py] (class [SOProperties]) and
    [halo_centres.py] (class [SOCatalogue]).

    Conventions of the embedding.
    - A numpy float is an exact rational ([Q]); rounding, NaN and overflow
      are outside the model.  [np.pi] is the rational value of the double.
    - A [unyt] array is a list of values tagged with a unit name.  Operands
      of an arithmetic operation or comparison are taken to be expressed in
      one unit system, as the particle loader delivers them; the identity
      check of [uconcatenate] is kept.
    - A Python exception is a value of [exn]; code that can raise lives in
      the error monad [result], and [calculate], which mutates the
      [halo_result] dict of its caller, threads that dict explicitly.
    - [np.sqrt] and [np.argsort] are library code: they are parameters of
      the model, characterised by the properties the proofs rely on, and
      instantiated by executable versions for concrete runs.
    - Each class is a module named after it, with its attributes and
      methods; the object that a constructor builds is a record. *)

From Stdlib Require Import ZArith QArith Qround Qabs Qminmax Lia Lqa.
From Corelib Require PrimFloat PrimInt63.
From Stdlib Require Import Sorting.Permutation Sorting.Sorted.
From stdpp Require Import base option list strings gmap pretty sorting.

Local Open Scope Q_scope.

(** ** Exceptions and the error monad *)

Inductive exn : Type :=
| KeyError (key : string)
| ValueError (msg : string)
| IndexError (msg : string)
| RuntimeError (msg : string)
| UnboundLocalError (var : string)
| AttributeError (msg : string).

Definition result (A : Type) : Type := exn + A.

Definition ret {A} (a : A) : result A := inr a.
Definition raise {A} (e : exn) : result A := inl e.

Definition bind {A B} (m : result A) (k : A -> result B) : result B :=
  match m with
  | inl e => inl e
  | inr a => k a
  end.

Notation "x <- m ;; k" := (bind m (fun x => k))
  (at level 100, m at next level, right associativity).

Fixpoint mapM {A B} (f : A -> result B) (l : list A) : result (list B) :=
  match l with
  | [] => ret []
  | a :: l' => b <- f a;; bs <- mapM f l';; ret (b :: bs)
  end.

(** ** Numbers, vectors and unit-tagged arrays *)

Definition vec3 : Type := Q * Q * Q.

Definition vsub (p c : vec3) : vec3 :=
  let '(x, y, z) := p in let '(a, b, c) := c in (x - a, y - b, z - c).
Definition vadd (p c : vec3) : vec3 :=
  let '(x, y, z) := p in let '(a, b, c) := c in (x + a, y + b, z + c).
Definition vscale (m : Q) (p : vec3) : vec3 :=
  let '(x, y, z) := p in (m * x, m * y, m * z).
Definition vdiv (p : vec3) (m : Q) : vec3 :=
  let '(x, y, z) := p in (x / m, y / m, z / m).
Definition vzero : vec3 := (0, 0, 0).
(** [np.sum(pos ** 2, axis=1)] on one row. *)
Definition sum_sq (p : vec3) : Q :=
  let '(x, y, z) := p in x ^ 2 + y ^ 2 + z ^ 2.

Definition Qltb (a b : Q) : bool := negb (Qle_bool b a).
Definition Qgtb (a b : Q) : bool := Qltb b a.

(** A unit is identified by its name, e.g. ["Mpc"], ["Msun"], ["K"]. *)
Definition Unit : Type := string.

Record unyt_array (A : Type) : Type := mk_unyt {
  value : list A;
  units : Unit
}.
Arguments mk_unyt {A} _ _.
Arguments value {A} _.
Arguments units {A} _.

(** A single quantity ([unyt_quantity], or a 0-d [unyt_array]). *)
Record unyt_quantity (A : Type) : Type := mk_quantity {
  qvalue : A;
  qunits : Unit
}.
Arguments mk_quantity {A} _ _.
Arguments qvalue {A} _.
Arguments qunits {A} _.

(** [arr.sum()] of a one-dimensional array; the empty sum is zero. *)
Definition Qsum (l : list Q) : Q := foldr Qplus 0 l.
(** [arr.sum(axis=0)] of an N x 3 array. *)
Definition vsum (l : list vec3) : vec3 := foldr vadd vzero l.

(** [np.cumsum]. *)
Fixpoint cumsum_from (acc : Q) (l : list Q) : list Q :=
  match l with
  | [] => []
  | x :: l' => (acc + x) :: cumsum_from (acc + x) l'
  end.
Definition cumsum (l : list Q) : list Q := cumsum_from 0 l.

(** [np.any] and [np.argmax] on a boolean array: [argmax] is the index of
    the first [True], and 0 when there is none. *)
Definition np_any (l : list bool) : bool := existsb id l.
Fixpoint first_true (l : list bool) : option nat :=
  match l with
  | [] => None
  | b :: l' => if b then Some 0%nat else S <$> first_true l'
  end.
Definition np_argmax (l : list bool) : nat := default 0%nat (first_true l).

(** [a[order]]: indexing with an integer array; an index out of range
    raises [IndexError]. *)
Definition take_indices {A} (a : list A) (order : list nat) : result (list A) :=
  mapM (fun i => match a !! i with
                 | Some x => ret x
                 | None => raise (IndexError "index out of bounds")
                 end) order.

(** [a[mask]]: indexing with a boolean array, which must have the length
    of [a]. *)
Fixpoint select {A} (mask : list bool) (a : list A) : list A :=
  match mask, a with
  | b :: mask', x :: a' => if b then x :: select mask' a' else select mask' a'
  | _, _ => []
  end.
Definition bool_index {A} (a : list A) (mask : list bool) : result (list A) :=
  if decide (length mask = length a) then ret (select mask a)
  else raise (IndexError "boolean index did not match indexed array").

(** [unyt.array.uconcatenate]: [np.concatenate] raises on an empty
    sequence; the units of all arrays must be identical and are those of
    the result. *)
Definition uconcatenate {A} (arrs : list (unyt_array A)) : result (unyt_array A) :=
  match arrs with
  | [] => raise (ValueError "need at least one array to concatenate")
  | a1 :: rest =>
      if forallb (fun a => bool_decide (units a = units a1)) rest
      then ret (mk_unyt (concat (map value arrs)) (units a1))
      else raise (RuntimeError "Your arrays must have identical units.")
  end.

Definition np_concatenate {A} (arrs : list (list A)) : result (list A) :=
  match arrs with
  | [] => raise (ValueError "need at least one array to concatenate")
  | _ => ret (concat arrs)
  end.

(** ** Dictionaries

    The particle data is a dict from species name to a dict of named
    datasets.  The outer dict is iterated, so it is an association list in
    insertion order; a dataset is found by name, and its rank is fixed by
    the dataset it holds: N x 3 for coordinates and velocities, N for the
    others. *)

Record datasets : Type := mk_datasets {
  vector_fields : gmap string (unyt_array vec3);
  scalar_fields : gmap string (unyt_array Q)
}.

Definition dict (V : Type) : Type := list (string * V).

Fixpoint dict_get {V} (d : dict V) (k : string) : result V :=
  match d with
  | [] => raise (KeyError k)
  | (k', v) :: d' => if decide (k' = k) then ret v else dict_get d' k
  end.

Definition dict_keys {V} (d : dict V) : list string := map fst d.

Definition map_get {V} (m : gmap string V) (k : string) : result V :=
  match m !! k with
  | Some v => ret v
  | None => raise (KeyError k)
  end.

Definition get_vector (ds : datasets) (k : string) : result (unyt_array vec3) :=
  map_get (vector_fields ds) k.
Definition get_scalar (ds : datasets) (k : string) : result (unyt_array Q) :=
  map_get (scalar_fields ds) k.

(** A value stored in [halo_result]: a scalar or a 3-vector quantity. *)
Inductive result_value : Type :=
| Scalar (q : unyt_quantity Q)
| Vector (q : unyt_quantity vec3).

(** [d.update(items)]: the items are inserted in order. *)
Definition dict_update {V} (d : gmap string V) (items : list (string * V))
  : gmap string V :=
  foldl (fun d kv => <[kv.1 := kv.2]> d) d items.

(** Modelled from the spec: [dataset_names.mass_dataset] is not part of the
    sources; the mass field is resolved by a species to field-name lookup,
    black holes carrying a dynamical mass and the other species a plain
    mass. *)
Definition mass_dataset (ptype : string) : string :=
  if decide (ptype = "PartType5") then "DynamicalMasses" else "Masses".

(** ** String formatting *)

(** Rounding to the nearest integer, ties to even, as [format(x, ".0f")]
    does. *)
Definition round_half_even (q : Q) : Z :=
  let f := Qfloor q in
  let r := q - inject_Z f in
  if Qltb r (1 # 2) then f
  else if Qltb (1 # 2) r then (f + 1)%Z
  else if Z.even f then f else (f + 1)%Z.

(** [f"{x:.0f}"]. *)
Definition format_0f (q : Q) : string :=
  (if Qltb q 0 then "-" else "") +:+ pretty (round_half_even (Qabs q)).

(** ["%d" % x]: truncation towards zero. *)
Definition format_d (q : Q) : string :=
  pretty (if Qltb q 0 then Qceiling q else Qfloor q).

(** [np.pi], the double nearest to pi. *)
Definition np_pi : Q := 884279719003555 # 281474976710656.

(** ** [SO_properties.py]: class [SOProperties] *)

(** The base class [HaloProperty] (outside the sources) derives the two
    reference densities from the cell grid and stores them on the object;
    the cell grid is represented by these two values. *)
Record cellgrid : Type := mk_cellgrid {
  cg_critical_density : Q;
  cg_mean_density : Q
}.

Record SOProperties : Type := mk_SOProperties {
  critical_density : Q;
  mean_density : Q;
  type : string;
  mean_density_multiple : Q;
  critical_density_multiple : Q;
  name : string
}.

(** Reading a local variable that may not have been assigned. *)
Definition local {A} (var : string) (v : option A) : result A :=
  match v with
  | Some a => ret a
  | None => raise (UnboundLocalError var)
  end.

(** [a[i]] for an integer [i]. *)
Definition getitem {A} (a : list A) (i : nat) : result A :=
  match a !! i with
  | Some x => ret x
  | None => raise (IndexError "index out of bounds")
  end.

(** The concatenated per-particle arrays of lines 82-86. *)
Record particles : Type := mk_particles {
  p_mass : unyt_array Q;
  p_radius : unyt_array Q;
  p_position : unyt_array vec3;
  p_velocity : unyt_array vec3;
  p_types : list string
}.

(** The radius-sorted profile of lines 90-102. *)
Record profile : Type := mk_profile {
  ordered_radius : list Q;
  cumulative_mass : list Q;
  density : list Q
}.

(** The aggregates of lines 130-190. *)
Record aggregates : Type := mk_aggregates {
  comSO : unyt_quantity vec3;
  vcomSO : unyt_quantity vec3;
  MgasSO : unyt_quantity Q;
  MdmSO : unyt_quantity Q;
  MstarSO : unyt_quantity Q;
  MBHdynSO : unyt_quantity Q;
  MhotgasSO : unyt_quantity Q;
  TgasSO : unyt_quantity Q;
  XraylumSO : unyt_quantity Q;
  XrayphlumSO : unyt_quantity Q;
  compYSO : unyt_quantity Q;
  MstarinitSO : unyt_quantity Q;
  MBHsubSO : unyt_quantity Q
}.

(** The leading run of exactly-zero radii (the [while] loop of lines
    96-98). *)
Fixpoint count_zero_prefix (ordered_radius : list Q) : nat :=
  match ordered_radius with
  | [] => 0%nat
  | r :: rest => if Qeq_bool r 0 then S (count_zero_prefix rest) else 0%nat
  end.

(** [types == ptype], elementwise. *)
Definition types_eq (types : list string) (ptype : string) : list bool :=
  map (fun t => bool_decide (t = ptype)) types.

(** [arr < x] and [arr > x], elementwise. *)
Definition lt_mask (a : list Q) (x : Q) : list bool := map (fun v => Qltb v x) a.
Definition gt_mask (a : list Q) (x : Q) : list bool := map (fun v => Qgtb v x) a.

Module SOProperties.

(** The class attribute [particle_properties]: the arrays which must be
    read in for each species. *)
Definition particle_properties : dict (list string) :=
  [ ("PartType0",
      [ "Coordinates"; "Masses"; "Velocities"; "Temperatures"; "XrayLuminosities";
        "XrayPhotonLuminosities"; "ComptonYParameters" ]);
    ("PartType1", [ "Coordinates"; "Masses"; "Velocities" ]);
    ("PartType4", [ "Coordinates"; "Masses"; "InitialMasses"; "Velocities" ]);
    ("PartType5",
      [ "Coordinates"; "DynamicalMasses"; "SubgridMasses"; "Velocities" ]) ].

(** The class attribute [physical_radius_mpc]. *)
Definition physical_radius_mpc : Q := 0.

(** [SOProperties.__init__(self, cellgrid, SOval, type)]. *)
Definition __init__ (cg : cellgrid) (SOval : Q) (type : string)
  : result SOProperties :=
  if negb (bool_decide (type ∈ ["mean"; "crit"]))
  then raise (AttributeError ("Unknown SO type: " +:+ type +:+ "!"))
  else ret {| critical_density := cg_critical_density cg;
              mean_density := cg_mean_density cg;
              type := type;
              mean_density_multiple := SOval;
              critical_density_multiple := SOval;
              name := "SO_" +:+ format_d SOval +:+ "_" +:+ type |}.

(** Lines 104-111 of [calculate]: the reference density, the name suffix
    and the label; none of the three is bound when the type is neither
    ["crit"] nor ["mean"]. *)
Definition reference (self : SOProperties) : option (Q * string * string) :=
  if decide (type self = "crit") then
    Some (critical_density_multiple self * critical_density self,
          format_0f (critical_density_multiple self) +:+ "_crit",
          "within which the density is "
            +:+ format_0f (critical_density_multiple self)
            +:+ " times the critical value")
  else if decide (type self = "mean") then
    Some (mean_density_multiple self * mean_density self,
          format_0f (mean_density_multiple self) +:+ "_mean",
          "within which the density is "
            +:+ format_0f (mean_density_multiple self)
            +:+ " times the mean value")
  else None.

Section calculate.

(** [np.sqrt] and [np.argsort]. *)
Variable np_sqrt : Q -> Q.
Variable np_argsort : list Q -> list nat.

(** One iteration of the loop of lines 72-81: the arrays appended for the
    species [ptype]. *)
Definition species_arrays (centre : vec3) (data : dict datasets) (ptype : string)
  : result particles :=
  ds <- dict_get data ptype;;
  mass <- get_scalar ds (mass_dataset ptype);;
  coordinates <- get_vector ds "Coordinates";;
  let pos := mk_unyt (map (fun x => vsub x centre) (value coordinates))
                     (units coordinates) in
  let r := mk_unyt (map (fun p => np_sqrt (sum_sq p)) (value pos)) (units pos) in
  velocities <- get_vector ds "Velocities";;
  (* a numpy array of dtype "U9" keeps the first nine characters *)
  let typearr := replicate (length (value r)) (String.substring 0 9 ptype) in
  ret (mk_particles mass r pos velocities typearr).

(** Lines 66-86: the arrays of all species, concatenated in the order of
    the keys of [data]. *)
Definition concatenate_particles (centre : vec3) (data : dict datasets)
  : result particles :=
  arrs <- mapM (species_arrays centre data) (dict_keys data);;
  mass <- uconcatenate (map p_mass arrs);;
  radius <- uconcatenate (map p_radius arrs);;
  position <- uconcatenate (map p_position arrs);;
  velocity <- uconcatenate (map p_velocity arrs);;
  types <- np_concatenate (map p_types arrs);;
  ret (mk_particles mass radius position velocity types).

(** Lines 89-102: sort by radius, accumulate the mass, drop the particles
    at zero radius, and compute the enclosed density. *)
Definition density_profile (radius mass : list Q) : result profile :=
  let order := np_argsort radius in
  ordered_radius <- take_indices radius order;;
  sorted_mass <- take_indices mass order;;
  let cumulative_mass := cumsum sorted_mass in
  let nskip := count_zero_prefix ordered_radius in
  let ordered_radius := drop nskip ordered_radius in
  let cumulative_mass := drop nskip cumulative_mass in
  let density := zip_with (fun m r => m / (4 / 3 * np_pi * r ^ 3))
                          cumulative_mass ordered_radius in
  ret (mk_profile ordered_radius cumulative_mass density).

(** Lines 113-124: the SO mass and radius.  The reference density is read
    only when there are particles left ([and] short-circuits). *)
Definition find_SO (prof : profile) (reference_density : option Q)
           (mass_units radius_units : Unit)
  : result (unyt_quantity Q * unyt_quantity Q) :=
  let nr_parts := length (ordered_radius prof) in
  crossing <- (if bool_decide (0 < nr_parts)%nat then
                 ref <- local "reference_density" reference_density;;
                 ret (if np_any (gt_mask (density prof) ref) then Some ref else None)
               else ret None);;
  match crossing with
  | Some ref =>
      let i := np_argmax (lt_mask (density prof) ref) in
      mSO <- getitem (cumulative_mass prof) i;;
      rSO <- getitem (ordered_radius prof) i;;
      ret (mk_quantity mSO mass_units, mk_quantity rSO radius_units)
  | None =>
      ret (mk_quantity 0 mass_units, mk_quantity 0 radius_units)
  end.

(** Lines 130-168: the aggregates over the particles with radius strictly
    below a positive SO radius.  A division by a zero mass (NaN or
    infinity in numpy) is outside the model. *)
Definition aggregate_inside (centre : vec3) (data : dict datasets) (p : particles)
           (mSO rSO : unyt_quantity Q)
           (Tgas Xray_lum Xray_phlum compY : unyt_array Q)
  : result aggregates :=
  let radius := value (p_radius p) in
  let types := p_types p in
  gas_radius <- bool_index radius (types_eq types "PartType0");;
  let gas_selection := lt_mask gas_radius (qvalue rSO) in
  star_radius <- bool_index radius (types_eq types "PartType4");;
  let star_selection := lt_mask star_radius (qvalue rSO) in
  bh_radius <- bool_index radius (types_eq types "PartType5");;
  let bh_selection := lt_mask bh_radius (qvalue rSO) in
  let all_selection := lt_mask radius (qvalue rSO) in
  mass <- bool_index (value (p_mass p)) all_selection;;
  position <- bool_index (value (p_position p)) all_selection;;
  velocity <- bool_index (value (p_velocity p)) all_selection;;
  types <- bool_index types all_selection;;
  let munits := units (p_mass p) in
  let comSO := vdiv (vsum (zip_with vscale mass position)) (qvalue mSO) in
  let comSO := vadd comSO centre in
  let vcomSO := vdiv (vsum (zip_with vscale mass velocity)) (qvalue mSO) in
  gas_masses <- bool_index mass (types_eq types "PartType0");;
  let MgasSO := Qsum gas_masses in
  dm_masses <- bool_index mass (types_eq types "PartType1");;
  let MdmSO := Qsum dm_masses in
  star_masses <- bool_index mass (types_eq types "PartType4");;
  let MstarSO := Qsum star_masses in
  bh_masses <- bool_index mass (types_eq types "PartType5");;
  let MBHdynSO := Qsum bh_masses in
  gas_temperatures <- bool_index (value Tgas) gas_selection;;
  let Tgas_selection := gt_mask gas_temperatures 100000 in
  hot_masses <- bool_index gas_masses Tgas_selection;;
  let MhotgasSO := Qsum hot_masses in
  TgasSO <- (if np_any Tgas_selection then
               hot_temperatures <- bool_index gas_temperatures Tgas_selection;;
               ret (Qsum (zip_with Qmult hot_temperatures hot_masses) / MhotgasSO)
             else
               (* no gas above 1e5 K *)
               ret 0);;
  xray <- bool_index (value Xray_lum) gas_selection;;
  xrayph <- bool_index (value Xray_phlum) gas_selection;;
  compy <- bool_index (value compY) gas_selection;;
  stars <- dict_get data "PartType4";;
  initial_masses <- get_scalar stars "InitialMasses";;
  star_init <- bool_index (value initial_masses) star_selection;;
  bhs <- dict_get data "PartType5";;
  subgrid_masses <- get_scalar bhs "SubgridMasses";;
  bh_sub <- bool_index (value subgrid_masses) bh_selection;;
  ret {| comSO := mk_quantity comSO (units (p_position p));
         vcomSO := mk_quantity vcomSO (units (p_velocity p));
         MgasSO := mk_quantity MgasSO munits;
         MdmSO := mk_quantity MdmSO munits;
         MstarSO := mk_quantity MstarSO munits;
         MBHdynSO := mk_quantity MBHdynSO munits;
         MhotgasSO := mk_quantity MhotgasSO munits;
         TgasSO := mk_quantity TgasSO (units Tgas);
         XraylumSO := mk_quantity (Qsum xray) (units Xray_lum);
         XrayphlumSO := mk_quantity (Qsum xrayph) (units Xray_phlum);
         compYSO := mk_quantity (Qsum compy) (units compY);
         MstarinitSO := mk_quantity (Qsum star_init) (units initial_masses);
         MBHsubSO := mk_quantity (Qsum bh_sub) (units subgrid_masses) |}.

(** Lines 170-190: the all-zero aggregates of a halo without SO radius. *)
Definition aggregate_zero (p : particles) (mSO : unyt_quantity Q)
           (Tgas Xray_lum Xray_phlum compY : unyt_array Q) : aggregates :=
  let zero_mass := mk_quantity 0 (qunits mSO) in
  {| comSO := mk_quantity vzero (units (p_radius p));
     vcomSO := mk_quantity vzero (units (p_velocity p));
     MgasSO := zero_mass;
     MdmSO := zero_mass;
     MstarSO := zero_mass;
     MBHdynSO := zero_mass;
     MhotgasSO := zero_mass;
     TgasSO := mk_quantity 0 (units Tgas);
     XraylumSO := mk_quantity 0 (units Xray_lum);
     XrayphlumSO := mk_quantity 0 (units Xray_phlum);
     compYSO := mk_quantity 0 (units compY);
     MstarinitSO := zero_mass;
     MBHsubSO := zero_mass |}.

(** The dict literal of lines 194-234, for the suffix [name] and the
    label [label]. *)
Definition result_items (name label : string)
           (rSO mSO : unyt_quantity Q) (a : aggregates)
  : list (string * (result_value * string)) :=
  [ ("r_" +:+ name, (Scalar rSO, "Radius " +:+ label));
    ("m_" +:+ name, (Scalar mSO, "Mass within a sphere " +:+ label));
    ("com_" +:+ name,
      (Vector (comSO a), "Centre of mass within a sphere " +:+ label));
    ("vcom_" +:+ name,
      (Vector (vcomSO a), "Centre of mass velocity within a sphere " +:+ label));
    ("Mgas_" +:+ name,
      (Scalar (MgasSO a), "Total gas mass within a sphere " +:+ label));
    ("Mdm_" +:+ name,
      (Scalar (MdmSO a), "Total DM mass within a sphere " +:+ label));
    ("Mstar_" +:+ name,
      (Scalar (MstarSO a), "Total stellar mass within a sphere " +:+ label));
    ("MBHdyn_" +:+ name,
      (Scalar (MBHdynSO a), "Total dynamical BH mass within a sphere " +:+ label));
    ("Mstarinit_" +:+ name,
      (Scalar (MstarinitSO a), "Total initial stellar mass with a sphere " +:+ label));
    ("MBHsub_" +:+ name,
      (Scalar (MBHsubSO a), "Total sub-grid BH mass within a sphere " +:+ label));
    ("Mhotgas_" +:+ name,
      (Scalar (MhotgasSO a),
       "Total mass of gas with T > 1e5 K within a sphere " +:+ label));
    ("Tgas_" +:+ name,
      (Scalar (TgasSO a),
       "Mass-weighted average temperature of gas with T > 1e5 K within a sphere "
         +:+ label));
    ("Xraylum_" +:+ name,
      (Scalar (XraylumSO a), "Total Xray luminosity within a sphere " +:+ label));
    ("Xrayphlum_" +:+ name,
      (Scalar (XrayphlumSO a),
       "Total Xray photon luminosity within a sphere " +:+ label));
    ("compY_" +:+ name,
      (Scalar (compYSO a), "Total Compton y within a sphere " +:+ label)) ].

(** Lines 64-190 and the evaluation of the dict literal: everything
    [calculate] does before it touches [halo_result]. *)
Definition SO_items (self : SOProperties)
           (input_halo : gmap string (unyt_quantity vec3)) (data : dict datasets)
  : result (list (string * (result_value * string))) :=
  cofp <- map_get input_halo "cofp";;
  let centre := qvalue cofp in
  p <- concatenate_particles centre data;;
  prof <- density_profile (value (p_radius p)) (value (p_mass p));;
  let ref := reference self in
  SO <- find_SO prof (fst <$> (fst <$> ref)) (units (p_mass p)) (units (p_radius p));;
  let mSO := fst SO in
  let rSO := snd SO in
  gas <- dict_get data "PartType0";;
  Tgas <- get_scalar gas "Temperatures";;
  Xray_lum <- get_scalar gas "XrayLuminosities";;
  Xray_phlum <- get_scalar gas "XrayPhotonLuminosities";;
  compY <- get_scalar gas "ComptonYParameters";;
  a <- (if Qgtb (qvalue rSO) 0
        then aggregate_inside centre data p mSO rSO Tgas Xray_lum Xray_phlum compY
        else ret (aggregate_zero p mSO Tgas Xray_lum Xray_phlum compY));;
  name <- local "name" (snd <$> (fst <$> ref));;
  label <- local "label" (snd <$> ref);;
  ret (result_items name label rSO mSO a).

(** The concatenated arrays and the profile that [calculate] builds from
    its inputs (lines 64-102). *)
Definition particle_profile (input_halo : gmap string (unyt_quantity vec3))
           (data : dict datasets) : result (particles * profile) :=
  cofp <- map_get input_halo "cofp";;
  p <- concatenate_particles (qvalue cofp) data;;
  prof <- density_profile (value (p_radius p)) (value (p_mass p));;
  ret (p, prof).

(** [SOProperties.calculate(self, input_halo, data, halo_result)]: the
    outcome of the call (an exception, or [None]) and the [halo_result]
    dict of the caller after it. *)
Definition calculate (self : SOProperties)
           (input_halo : gmap string (unyt_quantity vec3)) (data : dict datasets)
           (halo_result : gmap string (result_value * string))
  : result unit * gmap string (result_value * string) :=
  match SO_items self input_halo data with
  | inl e => (inl e, halo_result)
  | inr items => (inr tt, dict_update halo_result items)
  end.

End calculate.

End SOProperties.

Import SOProperties.

(** The fifteen keys written by [calculate] for the suffix [name]. *)
Definition result_keys (name : string) : list string :=
  map (fun prefix => prefix +:+ name)
      [ "r_"; "m_"; "com_"; "vcom_"; "Mgas_"; "Mdm_"; "Mstar_"; "MBHdyn_";
        "Mstarinit_"; "MBHsub_"; "Mhotgas_"; "Tgas_"; "Xraylum_"; "Xrayphlum_";
        "compY_" ].

(** ** [halo_centres.py]: class [SOCatalogue] *)

(** One row of the halo catalogue, as read from the datasets [Xcminpot],
    [Ycminpot], [Zcminpot], [Xc], [Yc], [Zc] and [R_size]. *)
Record halo_row : Type := mk_halo_row {
  Xcminpot : Q;
  Ycminpot : Q;
  Zcminpot : Q;
  Xc : Q;
  Yc : Q;
  Zc : Q;
  R_size : Q
}.

(** The attributes of the groups [UnitInfo] and [SimulationInfo]. *)
Record unit_info : Type := mk_unit_info {
  Comoving_or_Physical : Z;
  Length_unit_to_kpc : Q;
  Mass_unit_to_solarmass : Q
}.
Record simulation_info : Type := mk_simulation_info {
  h_val : Q
}.

(** The catalogue held by rank zero after construction. *)
Record SOCatalogue : Type := mk_SOCatalogue {
  nr_halos : nat;
  search_radius : unyt_array Q;
  read_radius : unyt_array Q;
  centre : unyt_array vec3;
  index : list nat
}.

Module SOCatalogue.

(** Lines 57-68: the factor that converts catalogue lengths to comoving
    Mpc. *)
Definition length_conversion (a : Q) (units : unit_info)
           (siminfo : simulation_info) : Q :=
  if (Comoving_or_Physical units =? 0)%Z
  then (1 / a) * Length_unit_to_kpc units / 1000
  else h_val siminfo * Length_unit_to_kpc units / 1000.

Definition vabs (v : vec3) : vec3 :=
  let '(x, y, z) := v in (Qabs x, Qabs y, Qabs z).

(** [row[dim]] and its update, for [dim] in [range(3)]. *)
Definition component (dim : nat) (v : vec3) : Q :=
  let '(x, y, z) := v in
  match dim with 0%nat => x | 1%nat => y | _ => z end.
Definition set_component (dim : nat) (v : vec3) (c : Q) : vec3 :=
  let '(x, y, z) := v in
  match dim with 0%nat => (c, y, z) | 1%nat => (x, c, z) | _ => (x, y, c) end.

(** Lines 90-91: one pass of the loop over the dimensions. *)
Definition wrap_dim (boxsize : Q) (dist : list vec3) (dim : nat) : list vec3 :=
  map (fun row =>
         let need_wrap := Qgtb (component dim row) ((1 # 2) * boxsize) in
         if need_wrap then set_component dim row (boxsize - component dim row)
         else row) dist.

(** Lines 88-91: the componentwise distance from the centre of mass to the
    centre of potential in the periodic box. *)
Definition wrapped_dist (boxsize : Q) (local_cofp local_cofm : list vec3) : list vec3 :=
  let dist := map vabs (zip_with vsub local_cofp local_cofm) in
  foldl (wrap_dim boxsize) dist (seq 0 3).

Definition min_radius : Q := 5.

Section init.

Variable np_sqrt : Q -> Q.

(** Line 95, after line 92. *)
Definition local_search_radius (boxsize : Q)
           (local_cofp local_cofm : list vec3) (local_r_size : list Q) : list Q :=
  let dist := map (fun d => np_sqrt (sum_sq d))
                  (wrapped_dist boxsize local_cofp local_cofm) in
  zip_with (fun r d => r * (101 # 100) + d) local_r_size dist.

(** Lines 99-102. *)
Definition local_read_radius (local_search_radius : list Q) : list Q :=
  map (fun r => if Qltb r min_radius then min_radius else r) local_search_radius.

(** The columns of one rank, converted to comoving Mpc (lines 41-43 and
    71-73). *)
Definition local_cofm (conv : Q) (rows : list halo_row) : list vec3 :=
  map (fun h => vscale conv (Xc h, Yc h, Zc h)) rows.
Definition local_cofp (conv : Q) (rows : list halo_row) : list vec3 :=
  map (fun h => vscale conv (Xcminpot h, Ycminpot h, Zcminpot h)) rows.
Definition local_r_size (conv : Q) (rows : list halo_row) : list Q :=
  map (fun h => R_size h * conv) rows.

(** [SOCatalogue.__init__] as seen from rank zero: [ranks] holds the
    catalogue rows read by each rank, and [gather_array] concatenates the
    local arrays in rank order.  The comoving tag attached at the end is
    not represented. *)
Definition __init__ (ranks : list (list halo_row)) (a : Q)
           (units : unit_info) (siminfo : simulation_info) (boxsize : Q)
  : SOCatalogue :=
  let conv := length_conversion a units siminfo in
  let search rows :=
    local_search_radius boxsize (local_cofp conv rows) (local_cofm conv rows)
                        (local_r_size conv rows) in
  let length_unit := "Mpc" in
  let search_radius := concat (map search ranks) in
  let read_radius := concat (map (fun rows => local_read_radius (search rows)) ranks) in
  let centre := concat (map (local_cofp conv) ranks) in
  {| nr_halos := length search_radius;
     search_radius := mk_unyt search_radius length_unit;
     read_radius := mk_unyt read_radius length_unit;
     centre := mk_unyt centre length_unit;
     index := seq 0 (length search_radius) |}.

(** The catalogue size radius of every halo in comoving Mpc, in halo
    order ([local_r_size] of every rank; the code frees it before the
    gather). *)
Definition size_radius (ranks : list (list halo_row)) (a : Q)
           (units : unit_info) (siminfo : simulation_info) : list Q :=
  concat (map (local_r_size (length_conversion a units siminfo)) ranks).

End init.

End SOCatalogue.

Import SOCatalogue.

(** ** Vocabulary of the statements *)

(** The wrapped difference on one axis. *)
Definition wrap_axis (boxsize d : Q) : Q :=
  if Qgtb d ((1 # 2) * boxsize) then boxsize - d else d.

(** [i] is the first index at which the density is below the reference. *)
Definition first_below (ref : Q) (density : list Q) (i : nat) : Prop :=
  (exists d, density !! i = Some d /\ d < ref) /\
  (forall j d, (j < i)%nat -> density !! j = Some d -> ~ d < ref).

(** The species that [SOProperties] reads. *)
Definition species : list string := dict_keys particle_properties.

(** The dataset [k] of a species is loaded with [n] rows: an N x 3 array
    for coordinates and velocities, a one-dimensional array otherwise. *)
Definition loaded (ds : datasets) (n : nat) (k : string) : Prop :=
  if decide (k ∈ ["Coordinates"; "Velocities"])
  then exists a, vector_fields ds !! k = Some a /\ length (value a) = n
  else exists a, scalar_fields ds !! k = Some a /\ length (value a) = n.

(** The units of the arrays that are concatenated across species. *)
Definition species_units (u_mass u_length u_velocity : Unit)
           (ptype : string) (ds : datasets) : Prop :=
  (forall a, scalar_fields ds !! mass_dataset ptype = Some a -> units a = u_mass) /\
  (forall a, vector_fields ds !! "Coordinates" = Some a -> units a = u_length) /\
  (forall a, vector_fields ds !! "Velocities" = Some a -> units a = u_velocity).

(** Particle data as the loader delivers it: a dict (no key twice) with at
    least one species, each of them one of [particle_properties] with all
    its datasets loaded for the same number of particles, in one unit
    system. *)
Record well_formed (data : dict datasets) : Prop := mk_well_formed {
  wf_nonempty : data <> [];
  wf_NoDup : NoDup (dict_keys data);
  wf_loaded :
    Forall (fun entry =>
              exists names n,
                dict_get particle_properties entry.1 = inr names /\
                Forall (loaded entry.2 n) names) data;
  wf_units :
    exists u_mass u_length u_velocity,
      Forall (fun entry => species_units u_mass u_length u_velocity entry.1 entry.2)
             data
}.

(** [~(arr < x)], elementwise. *)
Definition ge_mask (a : list Q) (x : Q) : list bool :=
  map (fun v => negb (Qltb v x)) a.

(** The sum of the second components of the pairs whose first component
    passes the test [f]. *)
Definition pair_sum (f : Q -> bool) (l : list (Q * Q)) : Q :=
  Qsum (map snd (List.filter (fun rm => f rm.1) l)).

(** The arrays [sp] that the loop of [calculate] builds for an entry of
    well-formed data: [n] rows tagged with the species of the entry. *)
Definition rows_of (u_mass u_length u_velocity : Unit)
           (entry : string * datasets) (sp : particles) : Prop :=
  exists names n,
    dict_get particle_properties entry.1 = inr names /\
    Forall (loaded entry.2 n) names /\
    length (value (p_mass sp)) = n /\
    length (value (p_radius sp)) = n /\
    length (value (p_position sp)) = n /\
    length (value (p_velocity sp)) = n /\
    p_types sp = replicate n entry.1 /\
    units (p_mass sp) = u_mass /\
    units (p_radius sp) = u_length /\
    units (p_position sp) = u_length /\
    units (p_velocity sp) = u_velocity.

(** ** Executable instances of the numpy parameters *)

(** A square root on the rationals: exact on squares of rationals, rounded
    down to a multiple of the denominator otherwise. *)
Definition Qsqrt (q : Q) : Q :=
  Z.sqrt (Qnum q * Zpos (Qden q)) # Qden q.

Global Instance Qle_decision (x y : Q) : Decision (x <= y) :=
  match Qlt_le_dec y x with
  | left H => right (Qlt_not_le _ _ H)
  | right H => left H
  end.

(** [argsort]: the indices of [a], merge-sorted by the value they select. *)
Definition key_le (a : list Q) (i j : nat) : Prop := nth i a 0 <= nth j a 0.
Global Instance key_le_decision a i j : Decision (key_le a i j) :=
  Qle_decision _ _.
Definition argsort (a : list Q) : list nat :=
  merge_sort (key_le a) (seq 0 (length a)).

(** ** Example inputs *)

(** Five dark-matter particles of unit mass at radii 1 to 5 Mpc about the
    origin. *)
Definition dm_five : datasets :=
  mk_datasets
    {[ "Coordinates" :=
         mk_unyt [(1, 0, 0); (0, 2, 0); (0, 0, 3); (4, 0, 0); (0, 5, 0)] "Mpc";
       "Velocities" :=
         mk_unyt [(0, 0, 0); (0, 0, 0); (0, 0, 0); (0, 0, 0); (0, 0, 0)] "km/s" ]}
    {[ "Masses" := mk_unyt [1; 1; 1; 1; 1] "Msun" ]}.

(** Species that are in the snapshot but have no particle near the halo. *)
Definition gas_none : datasets :=
  mk_datasets
    {[ "Coordinates" := mk_unyt [] "Mpc"; "Velocities" := mk_unyt [] "km/s" ]}
    {[ "Masses" := mk_unyt [] "Msun";
       "Temperatures" := mk_unyt [] "K";
       "XrayLuminosities" := mk_unyt [] "erg/s";
       "XrayPhotonLuminosities" := mk_unyt [] "1/s";
       "ComptonYParameters" := mk_unyt [] "Mpc**2" ]}.
Definition dm_none : datasets :=
  mk_datasets
    {[ "Coordinates" := mk_unyt [] "Mpc"; "Velocities" := mk_unyt [] "km/s" ]}
    {[ "Masses" := mk_unyt [] "Msun" ]}.
Definition stars_none : datasets :=
  mk_datasets
    {[ "Coordinates" := mk_unyt [] "Mpc"; "Velocities" := mk_unyt [] "km/s" ]}
    {[ "Masses" := mk_unyt [] "Msun"; "InitialMasses" := mk_unyt [] "Msun" ]}.
Definition bh_none : datasets :=
  mk_datasets
    {[ "Coordinates" := mk_unyt [] "Mpc"; "Velocities" := mk_unyt [] "km/s" ]}
    {[ "DynamicalMasses" := mk_unyt [] "Msun";
       "SubgridMasses" := mk_unyt [] "Msun" ]}.

(** Two gas particles: a cold one of mass 3 at radius 3 Mpc and a hot one
    of mass 1 at radius 4 Mpc. *)
Definition gas_two : datasets :=
  mk_datasets
    {[ "Coordinates" := mk_unyt [(3, 0, 0); (0, 4, 0)] "Mpc";
       "Velocities" := mk_unyt [(0, 0, 0); (0, 0, 0)] "km/s" ]}
    {[ "Masses" := mk_unyt [3; 1] "Msun";
       "Temperatures" := mk_unyt [10000; 1000000] "K";
       "XrayLuminosities" := mk_unyt [1; 1] "erg/s";
       "XrayPhotonLuminosities" := mk_unyt [1; 1] "1/s";
       "ComptonYParameters" := mk_unyt [1; 1] "Mpc**2" ]}.

(** A dark-matter-only snapshot, a snapshot with all four species of which
    only dark matter is near the halo, and one with gas near the halo. *)
Definition data_dmo : dict datasets := [("PartType1", dm_five)].
Definition data_dm_halo : dict datasets :=
  [("PartType0", gas_none); ("PartType1", dm_five);
   ("PartType4", stars_none); ("PartType5", bh_none)].
Definition data_gas_halo : dict datasets :=
  [("PartType0", gas_two); ("PartType4", stars_none); ("PartType5", bh_none)].
Definition data_gas_only : dict datasets := [("PartType0", gas_two)].

(** A halo without any particle within the read radius. *)
Definition data_no_particles : dict datasets :=
  [("PartType0", gas_none); ("PartType1", dm_none);
   ("PartType4", stars_none); ("PartType5", bh_none)].

Definition halo_at_origin : gmap string (unyt_quantity vec3) :=
  {[ "cofp" := mk_quantity (0, 0, 0) "Mpc" ]}.

(** [SOProperties(cellgrid, 200, "crit")] for a critical density of
    1/10000 Msun/Mpc**3: the reference density is 1/50. *)
Definition SO_200_crit : SOProperties :=
  {| critical_density := 1 # 10000;
     mean_density := 1 # 20000;
     type := "crit";
     mean_density_multiple := 200;
     critical_density_multiple := 200;
     name := "SO_200_crit" |}.

(** [SOProperties(cellgrid, 200, "crit")] for a critical density of 1
    Msun/Mpc**3: no halo of the examples reaches the reference density. *)
Definition SO_200_crit_dense : SOProperties :=
  {| critical_density := 1;
     mean_density := 1 # 2;
     type := "crit";
     mean_density_multiple := 200;
     critical_density_multiple := 200;
     name := "SO_200_crit" |}.

Definition label_200_crit : string :=
  "within which the density is 200 times the critical value".

(** A dark-matter concentration: a particle of mass 7 at the centre of
    potential itself and two of unit mass at radii 1 and 2 Mpc. *)
Definition dm_centred : datasets :=
  mk_datasets
    {[ "Coordinates" := mk_unyt [(0, 1, 0); (0, 0, 0); (2, 0, 0)] "Mpc";
       "Velocities" := mk_unyt [(0, 0, 0); (0, 0, 0); (0, 0, 0)] "km/s" ]}
    {[ "Masses" := mk_unyt [1; 7; 1] "Msun" ]}.
Definition data_centred : dict datasets := [("PartType1", dm_centred)].

(** A catalogue of three halos held by two ranks, in comoving units of
    Mpc/h with h = 1/2: a halo whose two centres straddle the edge of a box
    of 100 Mpc, a large halo, and a small one. *)
Definition example_ranks : list (list halo_row) :=
  [ [ mk_halo_row (1 # 5) 20 20 (200 - (1 # 5)) 20 20 2 ];
    [ mk_halo_row 50 60 70 50 60 76 12;
      mk_halo_row 100 100 100 100 103 104 (1 # 2) ] ].
Definition example_units : unit_info :=
  {| Comoving_or_Physical := 1;
     Length_unit_to_kpc := 1000;
     Mass_unit_to_solarmass := 10000000000 |}.
Definition example_siminfo : simulation_info := {| h_val := 1 # 2 |}.

(** Dark matter whose masses are delivered in kilograms, and dark matter
    with a mass array shorter than its coordinates. *)
Definition dm_kg : datasets :=
  mk_datasets
    {[ "Coordinates" := mk_unyt [(1, 0, 0); (0, 2, 0)] "Mpc";
       "Velocities" := mk_unyt [(0, 0, 0); (0, 0, 0)] "km/s" ]}
    {[ "Masses" := mk_unyt [1; 1] "kg" ]}.
Definition dm_short : datasets :=
  mk_datasets
    {[ "Coordinates" := mk_unyt [(1, 0, 0); (0, 2, 0)] "Mpc";
       "Velocities" := mk_unyt [(0, 0, 0); (0, 0, 0)] "km/s" ]}
    {[ "Masses" := mk_unyt [1] "Msun" ]}.
Definition data_mixed_units : dict datasets :=
  [("PartType0", gas_two); ("PartType1", dm_kg)].
Definition data_short_masses : dict datasets := [("PartType1", dm_short)].

(** [SOProperties(cellgrid, 200, "mean")] for the same cell grid as
    [SO_200_crit]. *)
Definition SO_200_mean : SOProperties :=
  {| critical_density := 1 # 10000;
     mean_density := 1 # 20000;
     type := "mean";
     mean_density_multiple := 200;
     critical_density_multiple := 200;
     name := "SO_200_mean" |}.

(** [SOProperties(cellgrid, 200, "crit")] for a critical density of 1e-9
    Msun/Mpc**3: the reference density is below every density of the
    examples. *)
Definition SO_200_crit_sparse : SOProperties :=
  {| critical_density := 1 # 1000000000;
     mean_density := 1 # 2000000000;
     type := "crit";
     mean_density_multiple := 200;
     critical_density_multiple := 200;
     name := "SO_200_crit" |}.

(** Four gas particles at radii 1, 2, 3 and 6 Mpc, the first and the
    third above 1e5 K, and a snapshot whose halo has these only. *)
Definition gas_hot : datasets :=
  mk_datasets
    {[ "Coordinates" := mk_unyt [(1, 0, 0); (0, 2, 0); (0, 0, 3); (6, 0, 0)] "Mpc";
       "Velocities" :=
         mk_unyt [(0, 0, 0); (0, 0, 0); (0, 0, 0); (0, 0, 0)] "km/s" ]}
    {[ "Masses" := mk_unyt [2; 1; 1; 1] "Msun";
       "Temperatures" := mk_unyt [1000000; 10000; 3000000; 10000] "K";
       "XrayLuminosities" := mk_unyt [1; 1; 1; 1] "erg/s";
       "XrayPhotonLuminosities" := mk_unyt [1; 1; 1; 1] "1/s";
       "ComptonYParameters" := mk_unyt [1; 1; 1; 1] "Mpc**2" ]}.
Definition data_hot_gas : dict datasets :=
  [("PartType0", gas_hot); ("PartType4", stars_none); ("PartType5", bh_none)].

(** [SO_200_crit] after [self.type = "median"]. *)
Definition SO_200_median : SOProperties :=
  {| critical_density := 1 # 10000;
     mean_density := 1 # 20000;
     type := "median";
     mean_density_multiple := 200;
     critical_density_multiple := 200;
     name := "SO_200_crit" |}.

(** ** Lines 76 and 91-102 in double precision

    The arrays of [calculate] hold IEEE 754 doubles.  The definitions
    above compute with exact rationals; these repeat the radius of one
    particle and the profile of lines 91-102 on binary64 numbers, where a
    product can underflow to zero.  The arrays are given in sorted order
    ([radius[order]] and [mass[order]]). *)
Module float64.

Import PrimFloat.
Local Open Scope float_scope.

(** [np.pi]. *)
Definition np_pi : float := 0x1.921fb54442d18p+1.

(** [np.sqrt(np.sum(pos ** 2, axis=1))] for one row. *)
Definition radius (pos : float * float * float) : float :=
  let '(x, y, z) := pos in sqrt (x * x + y * y + z * z).

(** [np.cumsum(..., dtype=np.float64)]. *)
Fixpoint cumsum_from (acc : float) (l : list float) : list float :=
  match l with
  | [] => []
  | x :: l' => (acc + x) :: cumsum_from (acc + x) l'
  end.

(** The loop of lines 96-98. *)
Fixpoint count_zero_prefix (ordered_radius : list float) : nat :=
  match ordered_radius with
  | [] => 0%nat
  | r :: rest => if r =? 0 then S (count_zero_prefix rest) else 0%nat
  end.

(** [r ** 3], written as a product: the exact cube of the radius used
    below is under a thousandth of the smallest positive double, so that
    the power function rounds it to zero as the product does. *)
Definition cube (r : float) : float := r * r * r.

(** The denominator of line 102. *)
Definition denominator (r : float) : float := 4 / 3 * np_pi * cube r.

(** Lines 91-102: the retained radii, their cumulative masses and the
    densities. *)
Definition density_profile (ordered_radius sorted_mass : list float)
  : list float * list float * list float :=
  let cumulative_mass := cumsum_from 0 sorted_mass in
  let nskip := count_zero_prefix ordered_radius in
  let ordered_radius := drop nskip ordered_radius in
  let cumulative_mass := drop nskip cumulative_mass in
  (ordered_radius, cumulative_mass,
   zip_with (fun m r => m / denominator r) cumulative_mass ordered_radius).

End float64.

(** * Verification *)

(** ** The error monad *)

Lemma bind_inr {A B} (m : result A) (k : A -> result B) (b : B) :
  bind m k = inr b -> exists a, m = inr a /\ k a = inr b.
Proof. destruct m as [e|a]; simpl; [discriminate | eauto]. Qed.

Lemma local_inr {A} var (v : option A) (a : A) :
  local var v = inr a -> v = Some a.
Proof. destruct v; intros H; inversion H; reflexivity. Qed.

Lemma map_get_inr {V} (m : gmap string V) k v :
  map_get m k = inr v -> m !! k = Some v.
Proof. unfold map_get. destruct (m !! k); intros H; inversion H; reflexivity. Qed.

Lemma getitem_inr {A} (a : list A) i x : getitem a i = inr x -> a !! i = Some x.
Proof. unfold getitem. destruct (a !! i); intros H; inversion H; reflexivity. Qed.

Lemma bool_index_inr {A} (a : list A) mask l :
  bool_index a mask = inr l -> length mask = length a /\ l = select mask a.
Proof. unfold bool_index. case_decide; intros Hr; inversion Hr; done. Qed.

(** ** Dictionaries *)

Lemma dict_get_not_key {V} (d : dict V) k :
  k ∉ dict_keys d -> dict_get d k = inl (KeyError k).
Proof.
  induction d as [|[k' v] d IH]; simpl; [done|].
  rewrite not_elem_of_cons. intros [Hne Hnin].
  case_decide; [congruence | auto].
Qed.

Lemma dict_update_lookup_ne {V} (items : list (string * V)) (d : gmap string V) k :
  k ∉ map fst items -> dict_update d items !! k = d !! k.
Proof.
  revert d. induction items as [|[k' v] items IH]; intros d; simpl; [done|].
  rewrite not_elem_of_cons. intros [Hne Hnin].
  unfold dict_update in *. simpl. rewrite IH by done.
  by apply lookup_insert_ne.
Qed.

Lemma dict_update_lookup {V} (items : list (string * V)) (d : gmap string V) k v :
  NoDup (map fst items) -> (k, v) ∈ items -> dict_update d items !! k = Some v.
Proof.
  revert d. induction items as [|[k' v'] items IH]; intros d; simpl.
  - intros _ H. by apply elem_of_nil in H.
  - rewrite NoDup_cons. intros [Hnin Hnd]. rewrite elem_of_cons.
    intros [[= -> ->]|Hin].
    + unfold dict_update. simpl.
      fold (dict_update (<[k':=v']> d) items).
      rewrite dict_update_lookup_ne by done. apply lookup_insert_eq.
    + unfold dict_update in *. simpl. by apply IH.
Qed.

Lemma result_items_keys name label rSO mSO a :
  map fst (result_items name label rSO mSO a) = result_keys name.
Proof. reflexivity. Qed.

Lemma result_keys_NoDup name : NoDup (result_keys name).
Proof.
  unfold result_keys. simpl.
  repeat (apply NoDup_cons; split;
          [rewrite ?elem_of_cons, elem_of_nil; intros H;
           repeat (destruct H as [H|H]; [discriminate H|]); exact H |]).
  apply NoDup_nil_2.
Qed.

(** ** The structure of a successful call *)

Section Calculate_structure.

Variable np_sqrt : Q -> Q.
Variable np_argsort : list Q -> list nat.

Lemma SO_items_inr self input_halo data items :
  SO_items np_sqrt np_argsort self input_halo data = inr items ->
  exists cofp p prof ref name label mSO rSO gas Tgas Xray_lum Xray_phlum compY a,
    input_halo !! "cofp" = Some cofp /\
    concatenate_particles np_sqrt (qvalue cofp) data = inr p /\
    density_profile np_argsort (value (p_radius p)) (value (p_mass p)) = inr prof /\
    reference self = Some (ref, name, label) /\
    find_SO prof (Some ref) (units (p_mass p)) (units (p_radius p)) = inr (mSO, rSO) /\
    dict_get data "PartType0" = inr gas /\
    get_scalar gas "Temperatures" = inr Tgas /\
    get_scalar gas "XrayLuminosities" = inr Xray_lum /\
    get_scalar gas "XrayPhotonLuminosities" = inr Xray_phlum /\
    get_scalar gas "ComptonYParameters" = inr compY /\
    (if Qgtb (qvalue rSO) 0
     then aggregate_inside (qvalue cofp) data p mSO rSO Tgas Xray_lum Xray_phlum compY
          = inr a
     else a = aggregate_zero p mSO Tgas Xray_lum Xray_phlum compY) /\
    items = result_items name label rSO mSO a.
Proof.
  unfold SO_items. intros H.
  apply bind_inr in H as (cofp & Hcofp & H). apply map_get_inr in Hcofp.
  apply bind_inr in H as (p & Hp & H).
  apply bind_inr in H as (prof & Hprof & H).
  apply bind_inr in H as ([mSO rSO] & HSO & H).
  apply bind_inr in H as (gas & Hgas & H).
  apply bind_inr in H as (Tgas & HT & H).
  apply bind_inr in H as (Xray_lum & HX & H).
  apply bind_inr in H as (Xray_phlum & HXp & H).
  apply bind_inr in H as (compY & HY & H).
  apply bind_inr in H as (a & Ha & H).
  apply bind_inr in H as (nm & Hname & H).
  apply bind_inr in H as (label & Hlabel & H).
  destruct (reference self) as [[[ref nm'] label']|] eqn:Eref; simpl in *;
    [|discriminate Hname].
  injection Hname as ->. injection Hlabel as ->. injection H as <-.
  exists cofp, p, prof, ref, nm, label, mSO, rSO, gas, Tgas, Xray_lum, Xray_phlum,
    compY, a.
  repeat split; try assumption.
  destruct (Qgtb (qvalue rSO) 0); [assumption|]. by injection Ha.
Qed.

Lemma calculate_inr self input_halo data halo_result halo_result' :
  calculate np_sqrt np_argsort self input_halo data halo_result
    = (inr tt, halo_result') ->
  exists items,
    SO_items np_sqrt np_argsort self input_halo data = inr items /\
    halo_result' = dict_update halo_result items.
Proof.
  unfold calculate.
  destruct (SO_items _ _ _ _ _) as [e|items]; intros [= <-]; eauto.
Qed.

Lemma particle_profile_inr input_halo data cofp p prof :
  input_halo !! "cofp" = Some cofp ->
  concatenate_particles np_sqrt (qvalue cofp) data = inr p ->
  density_profile np_argsort (value (p_radius p)) (value (p_mass p)) = inr prof ->
  particle_profile np_sqrt np_argsort input_halo data = inr (p, prof).
Proof.
  intros E1 E2 E3. unfold particle_profile, map_get. rewrite E1. simpl.
  rewrite E2. simpl. rewrite E3. reflexivity.
Qed.

(** A snapshot without gas makes every call raise: the gas datasets are
    read whatever the species present. *)
Lemma calculate_without_gas_raises self input_halo data halo_result :
  "PartType0" ∉ dict_keys data ->
  exists e, calculate np_sqrt np_argsort self input_halo data halo_result
            = (inl e, halo_result).
Proof.
  intros Hnin. unfold calculate.
  destruct (SO_items _ _ _ _ _) as [e|items] eqn:E; [eauto|].
  apply SO_items_inr in E as (?&?&?&?&?&?&?&?&gas&?&?&?&?&?&_&_&_&_&_&Hgas&_).
  rewrite dict_get_not_key in Hgas by done. discriminate.
Qed.

(** C10: [calculate] changes [halo_result] at its own fifteen keys only;
    the value at every other key, present or not before the call, is the
    same after the call, whether the call returns or raises. *)
Theorem calculate_frame self input_halo data halo_result key :
  (forall ref name label,
      reference self = Some (ref, name, label) -> key ∉ result_keys name) ->
  (calculate np_sqrt np_argsort self input_halo data halo_result).2 !! key
    = halo_result !! key.
Proof.
  intros Hkey. unfold calculate.
  destruct (SO_items _ _ _ _ _) as [e|items] eqn:E; simpl; [done|].
  apply SO_items_inr in E
    as (?&?&?&ref&name&label&mSO&rSO&?&?&?&?&?&a&_&_&_&Href&_&_&_&_&_&_&_&->).
  apply dict_update_lookup_ne. rewrite result_items_keys. eauto.
Qed.

End Calculate_structure.

(** C9: constructing [SOProperties] with the type ["mean"] or ["crit"]
    succeeds and records the type; any other type makes the constructor
    raise [AttributeError], so that no object exists on which [calculate]
    could run. *)
Theorem SOProperties_type_is_checked cg SOval ty :
  (ty = "mean" \/ ty = "crit" ->
   exists self, SOProperties.__init__ cg SOval ty = inr self /\ type self = ty) /\
  (ty <> "mean" -> ty <> "crit" ->
   SOProperties.__init__ cg SOval ty
     = inl (AttributeError ("Unknown SO type: " +:+ ty +:+ "!"))).
Proof.
  unfold SOProperties.__init__. split.
  - intros Hty. rewrite bool_decide_eq_true_2; [simpl; eauto|].
    destruct Hty as [-> | ->]; set_solver.
  - intros Hm Hc. rewrite bool_decide_eq_false_2; [reflexivity|].
    rewrite !elem_of_cons, elem_of_nil. tauto.
Qed.

Lemma SOProperties_type_is_checked_witness :
  (exists self, SOProperties.__init__ (mk_cellgrid 1 1) 200 "crit" = inr self
                /\ type self = "crit") /\
  SOProperties.__init__ (mk_cellgrid 1 1) 200 "median"
    = inl (AttributeError "Unknown SO type: median!").
Proof.
  split.
  - apply (proj1 (SOProperties_type_is_checked (mk_cellgrid 1 1) 200 "crit")).
    right. reflexivity.
  - apply (proj2 (SOProperties_type_is_checked (mk_cellgrid 1 1) 200 "median"));
      discriminate.
Defined.

Lemma calculate_frame_witness :
  (calculate Qsqrt argsort SO_200_crit halo_at_origin data_dm_halo
             {[ "Mbound" := (Scalar (mk_quantity 7 "Msun"), "Bound mass") ]}).2
    !! "Mbound"
  = Some (Scalar (mk_quantity 7 "Msun"), "Bound mass").
Proof.
  rewrite (calculate_frame Qsqrt argsort SO_200_crit halo_at_origin data_dm_halo).
  - reflexivity.
  - intros ref name label H. vm_compute in H. injection H as _ <- _.
    unfold result_keys. simpl. rewrite !elem_of_cons, elem_of_nil.
    intros H. repeat (destruct H as [H|H]; [discriminate H|]). exact H.
Defined.

(** C1: on a dark-matter-only snapshot, whose data has no ["PartType0"]
    entry, [calculate] raises [KeyError] and leaves [halo_result] as it
    was; with gas as the only species and a positive SO radius it raises
    on the missing ["PartType4"] entry. *)
Theorem calculate_absent_species_raises halo_result :
  calculate Qsqrt argsort SO_200_crit halo_at_origin data_dmo halo_result
    = (inl (KeyError "PartType0"), halo_result) /\
  calculate Qsqrt argsort SO_200_crit halo_at_origin data_gas_only halo_result
    = (inl (KeyError "PartType4"), halo_result).
Proof.
  unfold calculate. split.
  - replace (SO_items Qsqrt argsort SO_200_crit halo_at_origin data_dmo)
      with (@inl exn (list (string * (result_value * string))) (KeyError "PartType0"))
      by (vm_compute; reflexivity).
    reflexivity.
  - replace (SO_items Qsqrt argsort SO_200_crit halo_at_origin data_gas_only)
      with (@inl exn (list (string * (result_value * string))) (KeyError "PartType4"))
      by (vm_compute; reflexivity).
    reflexivity.
Qed.

(** ** Comparisons on the rationals *)

Lemma Qltb_lt a b : Qltb a b = true <-> a < b.
Proof.
  unfold Qltb. rewrite negb_true_iff, <- not_true_iff_false, Qle_bool_iff.
  split; [apply Qnot_le_lt | apply Qlt_not_le].
Qed.

Lemma Qltb_ge a b : Qltb a b = false <-> b <= a.
Proof.
  unfold Qltb. rewrite negb_false_iff, Qle_bool_iff. reflexivity.
Qed.

Lemma Qgtb_gt a b : Qgtb a b = true <-> b < a.
Proof. apply Qltb_lt. Qed.

Lemma Qgtb_le a b : Qgtb a b = false <-> a <= b.
Proof. apply Qltb_ge. Qed.

(** ** The search and read radii of the catalogue *)

Lemma wrap_axis_min boxsize d : wrap_axis boxsize d == Qmin d (boxsize - d).
Proof.
  unfold wrap_axis.
  destruct (Qgtb d ((1 # 2) * boxsize)) eqn:E.
  - apply Qgtb_gt in E. rewrite Q.min_r; [reflexivity | lra].
  - apply Qgtb_le in E. rewrite Q.min_l; [reflexivity | lra].
Qed.

Lemma wrapped_dist_lookup boxsize cofp cofm h p c :
  cofp !! h = Some p -> cofm !! h = Some c ->
  wrapped_dist boxsize cofp cofm !! h
  = Some (let '(x, y, z) := vabs (vsub p c) in
          (wrap_axis boxsize x, wrap_axis boxsize y, wrap_axis boxsize z)).
Proof.
  intros Hp Hc. unfold wrapped_dist. simpl. unfold wrap_dim.
  rewrite !list_lookup_fmap, lookup_zip_with, Hp. simpl. rewrite Hc. simpl.
  f_equal. destruct (vabs (vsub p c)) as [[x y] z]. unfold wrap_axis.
  cbn [component set_component].
  destruct (Qgtb x _); cbn [component set_component];
    destruct (Qgtb y _); cbn [component set_component];
    destruct (Qgtb z _); reflexivity.
Qed.

Lemma length_wrapped_dist boxsize cofp cofm :
  length (wrapped_dist boxsize cofp cofm) = length (zip_with vsub cofp cofm).
Proof.
  unfold wrapped_dist. simpl. unfold wrap_dim. by rewrite !length_map.
Qed.

Lemma component_vabs dim v : component dim (vabs v) = Qabs (component dim v).
Proof. destruct v as [[x y] z]. by destruct dim as [|[|]]. Qed.

Lemma component_vsub dim p c :
  component dim (vsub p c) = component dim p - component dim c.
Proof. destruct p as [[x y] z], c as [[a b] d]. by destruct dim as [|[|]]. Qed.

Lemma Forall2_concat_map {A B C} (P : B -> C -> Prop) (f : A -> list B)
      (g : A -> list C) (l : list A) :
  (forall a, Forall2 P (f a) (g a)) ->
  Forall2 P (concat (map f l)) (concat (map g l)).
Proof.
  intros H. induction l as [|a l IH]; simpl; [constructor|].
  apply Forall2_app; auto.
Qed.

Section Catalogue_radii.

Variable np_sqrt : Q -> Q.
Hypothesis np_sqrt_nonneg : forall x, 0 <= np_sqrt x.

Lemma local_search_radius_lookup boxsize cofp cofm r_size h p c sz :
  cofp !! h = Some p -> cofm !! h = Some c -> r_size !! h = Some sz ->
  exists w,
    wrapped_dist boxsize cofp cofm !! h = Some w /\
    local_search_radius np_sqrt boxsize cofp cofm r_size !! h
    = Some (sz * (101 # 100) + np_sqrt (sum_sq w)).
Proof using Type.
  intros Hp Hc Hsz. eexists. split; [by apply wrapped_dist_lookup|].
  unfold local_search_radius.
  rewrite lookup_zip_with, Hsz. simpl.
  rewrite list_lookup_fmap, (wrapped_dist_lookup _ _ _ _ p c) by done.
  reflexivity.
Qed.

(** C6: on every axis the wrapped difference is [min(d, L - d)] for the
    absolute raw difference [d], and the distance added to the search
    radius is the square root of the sum of the squared wrapped
    differences; coordinates 0.1 and [L - 0.1] on the first axis of a box
    with [L >= 0.4] are 0.2 apart. *)
Theorem periodic_distance_wraps boxsize cofp cofm h :
  (forall p c,
      cofp !! h = Some p -> cofm !! h = Some c ->
      exists w,
        wrapped_dist boxsize cofp cofm !! h = Some w /\
        (forall dim,
            let d := Qabs (component dim p - component dim c) in
            component dim w == Qmin d (boxsize - d)) /\
        (forall r_size sz,
            r_size !! h = Some sz ->
            local_search_radius np_sqrt boxsize cofp cofm r_size !! h
            = Some (sz * (101 # 100) + np_sqrt (sum_sq w)))) /\
  (forall y z y' z',
      cofp !! h = Some (1 # 10, y, z) ->
      cofm !! h = Some (boxsize - (1 # 10), y', z') ->
      2 # 5 <= boxsize ->
      exists w,
        wrapped_dist boxsize cofp cofm !! h = Some w /\ component 0 w == 2 # 10).
Proof using Type.
  split.
  - intros p c Hp Hc.
    eexists. split; [by apply wrapped_dist_lookup|]. split.
    + intros dim d. subst d.
      rewrite <- component_vsub, <- component_vabs.
      destruct (vabs (vsub p c)) as [[x y] z].
      destruct dim as [|[|]]; simpl; apply wrap_axis_min.
    + intros r_size sz Hsz.
      destruct (local_search_radius_lookup boxsize _ _ _ _ _ _ _ Hp Hc Hsz)
        as (w & Hw & ->).
      rewrite (wrapped_dist_lookup _ _ _ _ p c) in Hw by done.
      by injection Hw as <-.
  - intros y z y' z' Hp Hc HL.
    eexists. split; [by apply wrapped_dist_lookup|].
    cbn [vsub vabs component].
    assert (Habs : Qabs ((1 # 10) - (boxsize - (1 # 10))) == boxsize - (2 # 10)).
    { rewrite Qabs_neg; lra. }
    unfold wrap_axis.
    destruct (Qgtb _ _) eqn:E.
    + rewrite Habs. lra.
    + apply Qgtb_le in E. rewrite Habs in E |- *. lra.
Qed.

Lemma local_search_radius_bound boxsize cofp cofm r_size :
  length cofp = length r_size -> length cofm = length r_size ->
  Forall2 (fun sz s => (101 # 100) * sz <= s /\ (0 <= sz -> 0 <= s))
          r_size (local_search_radius np_sqrt boxsize cofp cofm r_size).
Proof using np_sqrt_nonneg.
  intros Hlp Hlm. apply Forall2_same_length_lookup_2.
  - unfold local_search_radius.
    rewrite length_zip_with, length_map, length_wrapped_dist, length_zip_with.
    lia.
  - intros i sz s Hsz Hs.
    destruct (lookup_lt_is_Some_2 cofp i) as [p Hp].
    { rewrite Hlp. by eapply lookup_lt_Some. }
    destruct (lookup_lt_is_Some_2 cofm i) as [c Hc].
    { rewrite Hlm. by eapply lookup_lt_Some. }
    destruct (local_search_radius_lookup boxsize _ _ _ _ _ _ _ Hp Hc Hsz)
      as (w & _ & Hs').
    rewrite Hs' in Hs. injection Hs as <-.
    pose proof (np_sqrt_nonneg (sum_sq w)). split; [lra|]. intros. lra.
Qed.

Lemma local_read_radius_bound search :
  Forall2 (fun s r => r = (if Qltb s min_radius then min_radius else s) /\ s <= r)
          search (local_read_radius search).
Proof using Type.
  unfold local_read_radius. apply Forall2_fmap_r, Forall_Forall2_diag, Forall_forall.
  intros s _. split; [reflexivity|].
  destruct (Qltb s min_radius) eqn:E; [|lra].
  apply Qltb_lt in E. lra.
Qed.

(** C5: for every halo of the catalogue with a nonnegative size radius,
    the search radius is at least 1.01 times the size radius and is
    nonnegative, and the read radius, which is the search radius raised
    to the floor of 5 Mpc, is at least the search radius. *)
Theorem catalogue_radii_ordered ranks a units siminfo boxsize h sz :
  size_radius ranks a units siminfo !! h = Some sz ->
  0 <= sz ->
  let cat := SOCatalogue.__init__ np_sqrt ranks a units siminfo boxsize in
  exists s r,
    value (search_radius cat) !! h = Some s /\
    value (read_radius cat) !! h = Some r /\
    r = (if Qltb s min_radius then min_radius else s) /\
    s <= r /\ 0 <= s /\ (101 # 100) * sz <= s.
Proof using np_sqrt_nonneg.
  intros Hsz Hnonneg. simpl.
  set (conv := length_conversion a units siminfo) in *.
  set (search rows :=
         local_search_radius np_sqrt boxsize (local_cofp conv rows)
                             (local_cofm conv rows) (local_r_size conv rows)).
  assert (H1 : Forall2 (fun sz s => (101 # 100) * sz <= s /\ (0 <= sz -> 0 <= s))
                       (concat (map (local_r_size conv) ranks))
                       (concat (map search ranks))).
  { apply Forall2_concat_map. intros rows.
    apply local_search_radius_bound;
      unfold local_cofp, local_cofm, local_r_size; by rewrite !length_map. }
  assert (H2 : Forall2 (fun s r => r = (if Qltb s min_radius then min_radius else s)
                                   /\ s <= r)
                       (concat (map search ranks))
                       (concat (map (fun rows => local_read_radius (search rows)) ranks))).
  { apply Forall2_concat_map. intros rows. apply local_read_radius_bound. }
  destruct (Forall2_lookup_l _ _ _ _ _ H1 Hsz) as (s & Hs & Hb & Hn).
  destruct (Forall2_lookup_l _ _ _ _ _ H2 Hs) as (r & Hr & -> & Hle).
  exists s, (if Qltb s min_radius then min_radius else s). auto 10.
Qed.

End Catalogue_radii.

(** ** The threshold crossing *)

Lemma np_any_false (l : list bool) : Forall (fun b => b = false) l -> np_any l = false.
Proof. induction 1 as [|b l -> _ IH]; simpl; auto. Qed.

Lemma np_any_true (l : list bool) : Exists (fun b => b = true) l -> np_any l = true.
Proof.
  induction 1 as [b l -> | b l _ IH]; simpl; [done|].
  rewrite IH. apply orb_true_r.
Qed.

Lemma first_true_Some (l : list bool) i :
  l !! i = Some true -> (forall j, (j < i)%nat -> l !! j = Some false) ->
  first_true l = Some i.
Proof.
  revert i. induction l as [|b l IH]; intros i Hi Hlt; [done|].
  destruct i as [|i]; simpl in *.
  - by injection Hi as ->.
  - pose proof (Hlt 0%nat ltac:(lia)) as H0. injection H0 as ->.
    rewrite (IH i); [done | done |].
    intros j Hj. apply (Hlt (S j)). lia.
Qed.

Lemma np_argmax_first_below ref density i :
  first_below ref density i -> np_argmax (lt_mask density ref) = i.
Proof.
  intros [(d & Hd & Hlt) Hfirst]. unfold np_argmax, lt_mask.
  rewrite (first_true_Some _ i); [done | |].
  - rewrite list_lookup_fmap, Hd. simpl. f_equal. by apply Qltb_lt.
  - intros j Hj. rewrite list_lookup_fmap.
    destruct (density !! j) as [dj|] eqn:Ej.
    + simpl. f_equal. apply not_true_is_false. rewrite Qltb_lt. eauto.
    + apply lookup_ge_None in Ej. apply lookup_lt_Some in Hd. lia.
Qed.

Lemma find_SO_never_above prof ref mass_units radius_units :
  Forall (fun d => ~ ref < d) (density prof) ->
  find_SO prof (Some ref) mass_units radius_units
  = inr (mk_quantity 0 mass_units, mk_quantity 0 radius_units).
Proof.
  intros H. unfold find_SO. case_bool_decide; simpl; [|done].
  rewrite np_any_false; [done|].
  unfold gt_mask. apply Forall_fmap. eapply Forall_impl; [exact H|].
  intros d Hd. simpl. apply not_true_is_false. by rewrite Qgtb_gt.
Qed.

Lemma find_SO_first_below prof ref mass_units radius_units i mSO rSO :
  find_SO prof (Some ref) mass_units radius_units = inr (mSO, rSO) ->
  (0 < length (ordered_radius prof))%nat ->
  Exists (fun d => ref < d) (density prof) ->
  first_below ref (density prof) i ->
  exists m r,
    cumulative_mass prof !! i = Some m /\ ordered_radius prof !! i = Some r /\
    mSO = mk_quantity m mass_units /\ rSO = mk_quantity r radius_units.
Proof.
  intros H Hlen Hex Hfirst. unfold find_SO in H.
  rewrite bool_decide_eq_true_2 in H by done. simpl in H.
  rewrite np_any_true in H.
  2:{ unfold gt_mask. apply Exists_fmap. eapply Exists_impl; [exact Hex|].
      intros d Hd. simpl. by apply Qgtb_gt. }
  rewrite (np_argmax_first_below _ _ i) in H by done.
  apply bind_inr in H as (m & Hm & H). apply bind_inr in H as (r & Hr & H).
  apply getitem_inr in Hm, Hr. injection H as <- <-. eauto 10.
Qed.

(** When the density is nowhere below the reference, [np.argmax] returns
    0 and the innermost retained particle is reported. *)
Lemma np_argmax_none_below ref density :
  Forall (fun d => ~ d < ref) density -> np_argmax (lt_mask density ref) = 0%nat.
Proof.
  intros H. unfold np_argmax, lt_mask.
  assert (first_true (map (fun v => Qltb v ref) density) = None) as ->; [|done].
  induction H as [|d l Hd _ IH]; simpl; [done|].
  assert (Qltb d ref = false) as -> by (apply not_true_is_false; by rewrite Qltb_lt).
  by rewrite IH.
Qed.

(** ** Sorting and the profile *)

Lemma mapM_inr {A B} (f : A -> result B) l bs :
  mapM f l = inr bs -> Forall2 (fun a b => f a = inr b) l bs.
Proof.
  revert bs. induction l as [|a l IH]; intros bs H; simpl in H.
  - injection H as <-. constructor.
  - apply bind_inr in H as (b & Hb & H). apply bind_inr in H as (bs' & Hbs & H).
    injection H as <-. constructor; auto.
Qed.

Lemma take_indices_inr {A} (a : list A) order l :
  take_indices a order = inr l -> Forall2 (fun i x => a !! i = Some x) order l.
Proof.
  intros H. apply mapM_inr in H. eapply Forall2_impl; [exact H|].
  intros i x. simpl. destruct (a !! i); intros Hx; inversion Hx; done.
Qed.

Lemma density_profile_inr np_argsort radius mass prof :
  density_profile np_argsort radius mass = inr prof ->
  exists sorted_radius sorted_mass,
    take_indices radius (np_argsort radius) = inr sorted_radius /\
    take_indices mass (np_argsort radius) = inr sorted_mass /\
    let nskip := count_zero_prefix sorted_radius in
    ordered_radius prof = drop nskip sorted_radius /\
    cumulative_mass prof = drop nskip (cumsum sorted_mass) /\
    density prof = zip_with (fun m r => m / (4 / 3 * np_pi * r ^ 3))
                            (cumulative_mass prof) (ordered_radius prof).
Proof.
  unfold density_profile. intros H.
  apply bind_inr in H as (sorted_radius & Hr & H).
  apply bind_inr in H as (sorted_mass & Hm & H).
  injection H as <-. simpl. eauto 10.
Qed.

Lemma length_cumsum_from acc l : length (cumsum_from acc l) = length l.
Proof. revert acc. induction l; intros; simpl; auto. Qed.

Lemma density_profile_lengths np_argsort radius mass prof :
  density_profile np_argsort radius mass = inr prof ->
  length (cumulative_mass prof) = length (ordered_radius prof) /\
  length (density prof) = length (ordered_radius prof).
Proof.
  intros H. apply density_profile_inr in H
    as (sr & sm & Hr & Hm & Hor & Hcm & Hd). simpl in *.
  apply take_indices_inr, Forall2_length in Hr, Hm.
  assert (length (cumulative_mass prof) = length (ordered_radius prof)) as Hl.
  { rewrite Hor, Hcm, !length_drop. unfold cumsum.
    rewrite length_cumsum_from. lia. }
  split; [done|]. rewrite Hd, length_zip_with. lia.
Qed.

(** ** The reported SO radius and mass *)

(** A key and its value are among the items of the dict literal. *)
Ltac in_result_items := unfold result_items; rewrite !elem_of_cons; auto 20.

Section SO_radius_and_mass.

Variable np_sqrt : Q -> Q.
Variable np_argsort : list Q -> list nat.

(** What a successful call stores under each of its keys. *)
Lemma calculate_lookup self input_halo data halo_result halo_result'
      name label rSO mSO a k v :
  calculate np_sqrt np_argsort self input_halo data halo_result
    = (inr tt, halo_result') ->
  SO_items np_sqrt np_argsort self input_halo data
    = inr (result_items name label rSO mSO a) ->
  (k, v) ∈ result_items name label rSO mSO a ->
  halo_result' !! k = Some v.
Proof.
  intros Hc Hitems Hin.
  apply calculate_inr in Hc as (items & Hitems' & ->).
  rewrite Hitems in Hitems'. injection Hitems' as <-.
  apply dict_update_lookup; [|done].
  rewrite result_items_keys. apply result_keys_NoDup.
Qed.

(** A successful call, seen through the arrays and profile it builds. *)
Lemma calculate_inr_profile self input_halo data halo_result halo_result'
      p prof ref name label :
  calculate np_sqrt np_argsort self input_halo data halo_result
    = (inr tt, halo_result') ->
  particle_profile np_sqrt np_argsort input_halo data = inr (p, prof) ->
  reference self = Some (ref, name, label) ->
  exists cofp mSO rSO gas Tgas Xray_lum Xray_phlum compY a,
    input_halo !! "cofp" = Some cofp /\
    concatenate_particles np_sqrt (qvalue cofp) data = inr p /\
    density_profile np_argsort (value (p_radius p)) (value (p_mass p)) = inr prof /\
    find_SO prof (Some ref) (units (p_mass p)) (units (p_radius p)) = inr (mSO, rSO) /\
    dict_get data "PartType0" = inr gas /\
    get_scalar gas "Temperatures" = inr Tgas /\
    (if Qgtb (qvalue rSO) 0
     then aggregate_inside (qvalue cofp) data p mSO rSO Tgas Xray_lum Xray_phlum compY
          = inr a
     else a = aggregate_zero p mSO Tgas Xray_lum Xray_phlum compY) /\
    SO_items np_sqrt np_argsort self input_halo data
      = inr (result_items name label rSO mSO a).
Proof.
  intros Hc Hpp Href.
  destruct (calculate_inr _ _ _ _ _ _ _ Hc) as (items & Hitems & _).
  destruct (SO_items_inr _ _ _ _ _ _ Hitems)
    as (cofp & p' & prof' & ref' & name' & label' & mSO & rSO & gas & Tgas & Xl
        & Xp & cY & a & Hcofp & Hp & Hprof & Href' & HSO & Hgas & HT & _ & _ & _
        & Ha & ->).
  rewrite Href in Href'. injection Href' as <- <- <-.
  rewrite (particle_profile_inr _ _ _ _ _ _ _ Hcofp Hp Hprof) in Hpp.
  injection Hpp as <- <-.
  exists cofp, mSO, rSO, gas, Tgas, Xl, Xp, cY, a. auto 10.
Qed.

(** C2: when no entry of the density profile exceeds the reference
    density, and in particular when no particle with a nonzero radius is
    left in the profile, the SO radius and the SO mass stored by
    [calculate] are the literal zero, tagged with the units of the radius
    array and of the mass array, the units that the entries of a profile
    with a crossing carry. *)
Theorem SO_zero_when_never_above self input_halo data halo_result halo_result'
        p prof ref name label :
  calculate np_sqrt np_argsort self input_halo data halo_result
    = (inr tt, halo_result') ->
  particle_profile np_sqrt np_argsort input_halo data = inr (p, prof) ->
  reference self = Some (ref, name, label) ->
  Forall (fun d => ~ ref < d) (density prof) \/ ordered_radius prof = [] ->
  halo_result' !! ("r_" +:+ name)
    = Some (Scalar (mk_quantity 0 (units (p_radius p))), "Radius " +:+ label) /\
  halo_result' !! ("m_" +:+ name)
    = Some (Scalar (mk_quantity 0 (units (p_mass p))),
            "Mass within a sphere " +:+ label).
Proof.
  intros Hc Hpp Href Hnever.
  destruct (calculate_inr_profile _ _ _ _ _ _ _ _ _ _ Hc Hpp Href)
    as (cofp & mSO & rSO & gas & Tgas & Xl & Xp & cY & a & _ & _ & Hprof & HSO & _
        & _ & _ & Hitems).
  assert (Forall (fun d => ~ ref < d) (density prof)) as Hbelow.
  { destruct Hnever as [Hbelow|Hempty]; [exact Hbelow|].
    destruct (density_profile_lengths _ _ _ _ Hprof) as [_ Hlen].
    rewrite Hempty in Hlen. apply nil_length_inv in Hlen. rewrite Hlen.
    constructor. }
  rewrite find_SO_never_above in HSO by done. injection HSO as <- <-.
  split; eapply calculate_lookup; eauto; in_result_items.
Qed.

(** X23: for a call that returns, when some entry of the density profile
    exceeds the reference density, the SO radius and the SO mass stored
    by [calculate] are the entries of the ordered radii and of the
    cumulative masses at the first index [i], in increasing-radius order,
    at which the density is below the reference; entries after it play no
    role.  In particular, when that index is the fourth one, the radius
    and the cumulative mass of the fourth particle are stored. *)
Theorem SO_at_first_crossing self input_halo data halo_result halo_result'
        p prof ref name label :
  calculate np_sqrt np_argsort self input_halo data halo_result
    = (inr tt, halo_result') ->
  particle_profile np_sqrt np_argsort input_halo data = inr (p, prof) ->
  reference self = Some (ref, name, label) ->
  Exists (fun d => ref < d) (density prof) ->
  (forall i,
      first_below ref (density prof) i ->
      exists r m,
        ordered_radius prof !! i = Some r /\
        cumulative_mass prof !! i = Some m /\
        halo_result' !! ("r_" +:+ name)
          = Some (Scalar (mk_quantity r (units (p_radius p))), "Radius " +:+ label) /\
        halo_result' !! ("m_" +:+ name)
          = Some (Scalar (mk_quantity m (units (p_mass p))),
                  "Mass within a sphere " +:+ label)) /\
  (forall d1 d2 d3 d4 rest,
      density prof = d1 :: d2 :: d3 :: d4 :: rest ->
      ~ d1 < ref -> ~ d2 < ref -> ~ d3 < ref -> d4 < ref ->
      exists r4 m4,
        ordered_radius prof !! 3%nat = Some r4 /\
        cumulative_mass prof !! 3%nat = Some m4 /\
        halo_result' !! ("r_" +:+ name)
          = Some (Scalar (mk_quantity r4 (units (p_radius p))), "Radius " +:+ label) /\
        halo_result' !! ("m_" +:+ name)
          = Some (Scalar (mk_quantity m4 (units (p_mass p))),
                  "Mass within a sphere " +:+ label)).
Proof.
  intros Hc Hpp Href Hex.
  assert (Hgen : forall i,
      first_below ref (density prof) i ->
      exists r m,
        ordered_radius prof !! i = Some r /\
        cumulative_mass prof !! i = Some m /\
        halo_result' !! ("r_" +:+ name)
          = Some (Scalar (mk_quantity r (units (p_radius p))), "Radius " +:+ label) /\
        halo_result' !! ("m_" +:+ name)
          = Some (Scalar (mk_quantity m (units (p_mass p))),
                  "Mass within a sphere " +:+ label)).
  { intros i Hfirst.
    destruct (calculate_inr_profile _ _ _ _ _ _ _ _ _ _ Hc Hpp Href)
      as (cofp & mSO & rSO & gas & Tgas & Xl & Xp & cY & a & _ & _ & Hprof & HSO
          & _ & _ & _ & Hitems).
    destruct (density_profile_lengths _ _ _ _ Hprof) as [_ Hlen].
    assert (0 < length (ordered_radius prof))%nat as Hpos.
    { rewrite <- Hlen. destruct Hfirst as [(d & Hd & _) _].
      apply lookup_lt_Some in Hd. lia. }
    destruct (find_SO_first_below _ _ _ _ _ _ _ HSO Hpos Hex Hfirst)
      as (m & r & Hm & Hr & -> & ->).
    exists r, m. split; [done|]. split; [done|].
    split; eapply calculate_lookup; eauto; in_result_items. }
  split; [exact Hgen|].
  intros d1 d2 d3 d4 rest Hd H1 H2 H3 H4. apply Hgen. split.
  - exists d4. by rewrite Hd.
  - intros j d Hj. rewrite Hd.
    destruct j as [|[|[|j]]]; [| | |lia]; simpl; intros [= <-]; done.
Qed.

End SO_radius_and_mass.

(** ** The density profile *)

Lemma Qsum_app l1 l2 : Qsum (l1 ++ l2) == Qsum l1 + Qsum l2.
Proof.
  induction l1 as [|x l1 IH]; simpl; [lra|]. unfold Qsum in *. rewrite IH. lra.
Qed.

Lemma take_plus_app {A} (l : list A) n m :
  take (n + m) l = take n l ++ take m (drop n l).
Proof.
  revert l. induction n as [|n IH]; intros [|x l]; simpl; try done.
  - by destruct m.
  - by rewrite IH.
Qed.

Lemma cumsum_from_lookup acc l k c :
  cumsum_from acc l !! k = Some c -> c == acc + Qsum (take (S k) l).
Proof.
  revert acc k. induction l as [|x l IH]; intros acc k H; [done|].
  destruct k as [|k]; simpl in H.
  - injection H as <-. simpl. destruct l; simpl; lra.
  - apply IH in H. rewrite H. change (take (S (S k)) (x :: l)) with (x :: take (S k) l).
    simpl. lra.
Qed.

Lemma StronglySorted_take_indices (a : list Q) order l :
  Forall2 (fun i x => a !! i = Some x) order l ->
  StronglySorted (key_le a) order ->
  StronglySorted Qle l.
Proof.
  induction 1 as [|i x order l Hix Hrest IH]; intros Hs; [constructor|].
  apply StronglySorted_inv in Hs as [Hs Hall].
  constructor; [auto|].
  clear IH Hs. induction Hrest as [|j y order l Hjy _ IH]; [constructor|].
  apply Forall_cons in Hall as [Hij Hall]. constructor; [|auto].
  unfold key_le in Hij.
  by rewrite (nth_lookup_Some _ _ _ _ Hix), (nth_lookup_Some _ _ _ _ Hjy) in Hij.
Qed.

Lemma Forall_take_indices {A} (P : A -> Prop) (a : list A) order l :
  Forall2 (fun i x => a !! i = Some x) order l -> Forall P a -> Forall P l.
Proof.
  intros H Ha. induction H as [|i x order l Hix _ IH]; constructor; [|done].
  exact (Forall_lookup_1 _ _ _ _ Ha Hix).
Qed.

Lemma count_zero_prefix_spec (l : list Q) :
  Forall (fun r => 0 <= r) l -> StronglySorted Qle l ->
  Forall (fun r => r == 0) (take (count_zero_prefix l) l) /\
  Forall (fun r => 0 < r) (drop (count_zero_prefix l) l).
Proof.
  induction l as [|r l IH]; intros Hnonneg Hsorted; simpl; [by split|].
  apply Forall_cons in Hnonneg as [Hr Hnonneg].
  apply StronglySorted_inv in Hsorted as [Hsorted Hall].
  destruct (Qeq_bool r 0) eqn:E; simpl.
  - apply Qeq_bool_iff in E. destruct (IH Hnonneg Hsorted) as [Hz Hp].
    split; [by constructor | done].
  - apply Qeq_bool_neq in E. split; [constructor|].
    assert (0 < r) as Hpos.
    { apply Qle_lteq in Hr as [|Heq]; [done|]. by symmetry in Heq. }
    constructor; [done|].
    eapply Forall_impl; [exact Hall|]. intros y Hy. simpl in Hy. lra.
Qed.

Lemma uconcatenate_inr {A} (arrs : list (unyt_array A)) a :
  uconcatenate arrs = inr a ->
  value a = concat (map value arrs) /\ Forall (fun x => units x = units a) arrs.
Proof.
  unfold uconcatenate. destruct arrs as [|a1 rest]; [discriminate|].
  destruct (forallb _ rest) eqn:E; intros Ha; inversion Ha; subst; clear Ha.
  simpl. split; [done|]. constructor; [done|].
  apply Is_true_eq_left, forallb_True in E. eapply Forall_impl; [exact E|].
  intros x Hx. simpl in Hx. by apply bool_decide_unpack in Hx.
Qed.

Section Density_profile.

Variable np_sqrt : Q -> Q.
Variable np_argsort : list Q -> list nat.
Hypothesis np_sqrt_nonneg : forall x, 0 <= np_sqrt x.
Hypothesis np_argsort_sorted : forall a, StronglySorted (key_le a) (np_argsort a).

Lemma species_arrays_radius centre data ptype sp :
  species_arrays np_sqrt centre data ptype = inr sp ->
  exists ds coordinates,
    dict_get data ptype = inr ds /\
    get_vector ds "Coordinates" = inr coordinates /\
    value (p_radius sp)
    = map (fun x => np_sqrt (sum_sq (vsub x centre))) (value coordinates) /\
    p_types sp = replicate (length (value coordinates)) (String.substring 0 9 ptype).
Proof using Type.
  unfold species_arrays. intros H.
  apply bind_inr in H as (ds & Hds & H).
  apply bind_inr in H as (mass & Hmass & H).
  apply bind_inr in H as (coordinates & Hc & H).
  apply bind_inr in H as (velocities & Hv & H).
  injection H as <-. exists ds, coordinates. simpl.
  rewrite !length_map, map_map. done.
Qed.

Lemma concatenate_particles_inr centre data p :
  concatenate_particles np_sqrt centre data = inr p ->
  exists arrs,
    Forall2 (fun ptype sp => species_arrays np_sqrt centre data ptype = inr sp)
            (dict_keys data) arrs /\
    value (p_mass p) = concat (map (fun sp => value (p_mass sp)) arrs) /\
    value (p_radius p) = concat (map (fun sp => value (p_radius sp)) arrs) /\
    value (p_position p) = concat (map (fun sp => value (p_position sp)) arrs) /\
    value (p_velocity p) = concat (map (fun sp => value (p_velocity sp)) arrs) /\
    p_types p = concat (map p_types arrs).
Proof using Type.
  unfold concatenate_particles. intros H.
  apply bind_inr in H as (arrs & Harrs & H). apply mapM_inr in Harrs.
  apply bind_inr in H as (mass & Hm & H). apply uconcatenate_inr in Hm as [Hm _].
  apply bind_inr in H as (radius & Hr & H). apply uconcatenate_inr in Hr as [Hr _].
  apply bind_inr in H as (position & Hp & H). apply uconcatenate_inr in Hp as [Hp _].
  apply bind_inr in H as (velocity & Hv & H). apply uconcatenate_inr in Hv as [Hv _].
  apply bind_inr in H as (types & Ht & H).
  injection H as <-. simpl. exists arrs.
  rewrite Hm, Hr, Hp, Hv, !map_map. repeat split; try done.
  unfold np_concatenate in Ht. destruct (map p_types arrs); by inversion Ht.
Qed.

Lemma radius_nonneg centre data p :
  concatenate_particles np_sqrt centre data = inr p ->
  Forall (fun r => 0 <= r) (value (p_radius p)).
Proof using np_sqrt_nonneg.
  intros H. apply concatenate_particles_inr in H as (arrs & Harrs & _ & -> & _).
  apply Forall_concat, Forall_fmap.
  induction Harrs as [|ptype sp keys arrs Hsp _ IH]; constructor; [|done].
  apply species_arrays_radius in Hsp as (ds & coordinates & _ & _ & Hr & _).
  simpl. rewrite Hr. apply Forall_fmap, Forall_forall. intros x _.
  apply np_sqrt_nonneg.
Qed.

(** C7, as the code has it: the profile built by [calculate] has no entry
    at zero radius: every retained radius is strictly positive, the
    entries dropped in front are exactly the leading zero radii of the
    sorted array, and every retained cumulative mass is the sum of the
    masses of the dropped particles and of the retained particles up to
    its own.  Nothing is said of the denominator of the density: in
    double precision the cube of a retained radius can underflow to
    zero. *)
Theorem profile_skips_zero_radius input_halo data p prof :
  particle_profile np_sqrt np_argsort input_halo data = inr (p, prof) ->
  Forall (fun r => 0 < r) (ordered_radius prof) /\
  exists sorted_radius sorted_mass nskip,
    take_indices (value (p_radius p)) (np_argsort (value (p_radius p)))
      = inr sorted_radius /\
    take_indices (value (p_mass p)) (np_argsort (value (p_radius p)))
      = inr sorted_mass /\
    Forall (fun r => r == 0) (take nskip sorted_radius) /\
    ordered_radius prof = drop nskip sorted_radius /\
    length (cumulative_mass prof) = length (ordered_radius prof) /\
    forall j c,
      cumulative_mass prof !! j = Some c ->
      c == Qsum (take nskip sorted_mass)
           + Qsum (take (S j) (drop nskip sorted_mass)).
Proof using np_sqrt_nonneg np_argsort_sorted.
  unfold particle_profile. intros H.
  apply bind_inr in H as (cofp & Hcofp & H).
  apply bind_inr in H as (p' & Hp & H).
  apply bind_inr in H as (prof' & Hprof & H).
  injection H as -> ->.
  destruct (density_profile_lengths _ _ _ _ Hprof) as [Hlen _].
  apply density_profile_inr in Hprof
    as (sorted_radius & sorted_mass & Hsr & Hsm & Hor & Hcm & _).
  pose proof (take_indices_inr _ _ _ Hsr) as Hlookup.
  assert (Hsorted : StronglySorted Qle sorted_radius).
  { eapply StronglySorted_take_indices; [exact Hlookup|]. apply np_argsort_sorted. }
  assert (Hnonneg : Forall (fun r => 0 <= r) sorted_radius).
  { eapply Forall_take_indices; [exact Hlookup|]. by eapply radius_nonneg. }
  destruct (count_zero_prefix_spec _ Hnonneg Hsorted) as [Hzero Hpos].
  rewrite <- Hor in Hpos.
  split; [exact Hpos|].
  exists sorted_radius, sorted_mass, (count_zero_prefix sorted_radius).
  repeat split; try done.
  intros j c Hc. rewrite Hcm, lookup_drop in Hc.
  apply cumsum_from_lookup in Hc. rewrite Hc.
  replace (S (count_zero_prefix sorted_radius + j))
    with (count_zero_prefix sorted_radius + S j)%nat by lia.
  rewrite take_plus_app, Qsum_app. lra.
Qed.

End Density_profile.

(** ** The aggregates inside the SO radius *)

Lemma select_lookup {A} (mask : list bool) (a : list A) x :
  x ∈ select mask a -> exists k, mask !! k = Some true /\ a !! k = Some x.
Proof.
  revert a. induction mask as [|b mask IH]; intros [|y a] Hx; simpl in Hx;
    try by apply elem_of_nil in Hx.
  destruct b.
  - apply elem_of_cons in Hx as [->|Hx]; [by exists 0%nat|].
    destruct (IH _ Hx) as (k & ? & ?). by exists (S k).
  - destruct (IH _ Hx) as (k & ? & ?). by exists (S k).
Qed.

Lemma find_SO_positive prof ref mass_units radius_units mSO rSO :
  find_SO prof (Some ref) mass_units radius_units = inr (mSO, rSO) ->
  0 < qvalue rSO ->
  let i := np_argmax (lt_mask (density prof) ref) in
  exists m r,
    cumulative_mass prof !! i = Some m /\ ordered_radius prof !! i = Some r /\
    mSO = mk_quantity m mass_units /\ rSO = mk_quantity r radius_units.
Proof.
  unfold find_SO. intros H Hpos.
  apply bind_inr in H as (crossing & Hc & H).
  destruct crossing as [ref'|].
  - assert (ref' = ref) as ->.
    { case_bool_decide; simpl in Hc; [|discriminate].
      destruct (np_any _); by inversion Hc. }
    apply bind_inr in H as (m & Hm & H). apply bind_inr in H as (r & Hr & H).
    apply getitem_inr in Hm, Hr. injection H as <- <-. simpl. eauto 10.
  - injection H as <- <-. simpl in Hpos. lra.
Qed.

Lemma aggregate_inside_inr centre data p mSO rSO Tgas Xray_lum Xray_phlum compY a :
  aggregate_inside centre data p mSO rSO Tgas Xray_lum Xray_phlum compY = inr a ->
  let radius := value (p_radius p) in
  let all_selection := lt_mask radius (qvalue rSO) in
  let mass := select all_selection (value (p_mass p)) in
  let types := select all_selection (p_types p) in
  let gas_selection :=
    lt_mask (select (types_eq (p_types p) "PartType0") radius) (qvalue rSO) in
  let gas_masses := select (types_eq types "PartType0") mass in
  let gas_temperatures := select gas_selection (value Tgas) in
  let Tgas_selection := gt_mask gas_temperatures 100000 in
  length radius = length (value (p_mass p)) /\
  length radius = length (p_types p) /\
  length gas_selection = length (value Tgas) /\
  MgasSO a = mk_quantity (Qsum gas_masses) (units (p_mass p)) /\
  MdmSO a = mk_quantity (Qsum (select (types_eq types "PartType1") mass))
                        (units (p_mass p)) /\
  MstarSO a = mk_quantity (Qsum (select (types_eq types "PartType4") mass))
                          (units (p_mass p)) /\
  MBHdynSO a = mk_quantity (Qsum (select (types_eq types "PartType5") mass))
                           (units (p_mass p)) /\
  TgasSO a
  = mk_quantity
      (if np_any Tgas_selection
       then Qsum (zip_with Qmult (select Tgas_selection gas_temperatures)
                           (select Tgas_selection gas_masses))
            / Qsum (select Tgas_selection gas_masses)
       else 0)
      (units Tgas).
Proof.
  unfold aggregate_inside. intros H.
  apply bind_inr in H as (gas_radius & E & H).
  apply bool_index_inr in E as [Lgas ->].
  apply bind_inr in H as (star_radius & E & H). apply bool_index_inr in E as [_ ->].
  apply bind_inr in H as (bh_radius & E & H). apply bool_index_inr in E as [_ ->].
  apply bind_inr in H as (mass & E & H). apply bool_index_inr in E as [Lmass ->].
  apply bind_inr in H as (position & E & H). apply bool_index_inr in E as [_ ->].
  apply bind_inr in H as (velocity & E & H). apply bool_index_inr in E as [_ ->].
  apply bind_inr in H as (types & E & H). apply bool_index_inr in E as [Ltypes ->].
  apply bind_inr in H as (gas_masses & E & H). apply bool_index_inr in E as [_ ->].
  apply bind_inr in H as (dm_masses & E & H). apply bool_index_inr in E as [_ ->].
  apply bind_inr in H as (star_masses & E & H). apply bool_index_inr in E as [_ ->].
  apply bind_inr in H as (bh_masses & E & H). apply bool_index_inr in E as [_ ->].
  apply bind_inr in H as (gas_temperatures & E & H).
  apply bool_index_inr in E as [LT ->].
  apply bind_inr in H as (hot_masses & E & H). apply bool_index_inr in E as [_ ->].
  apply bind_inr in H as (T & ET & H).
  apply bind_inr in H as (xray & E & H). clear E.
  apply bind_inr in H as (xrayph & E & H). clear E.
  apply bind_inr in H as (compy & E & H). clear E.
  apply bind_inr in H as (stars & E & H). clear E.
  apply bind_inr in H as (initial_masses & E & H). clear E.
  apply bind_inr in H as (star_init & E & H). clear E.
  apply bind_inr in H as (bhs & E & H). clear E.
  apply bind_inr in H as (subgrid_masses & E & H). clear E.
  apply bind_inr in H as (bh_sub & E & H). clear E.
  injection H as <-. simpl.
  unfold lt_mask in Lmass, Ltypes. rewrite length_map in Lmass, Ltypes.
  repeat split; try done.
  f_equal. destruct (np_any _).
  - apply bind_inr in ET as (hot_temperatures & E & ET).
    apply bool_index_inr in E as [_ ->]. by injection ET.
  - by injection ET.
Qed.

Section Hot_gas.

Variable np_sqrt : Q -> Q.
Variable np_argsort : list Q -> list nat.

(** C8: with a positive SO radius, when no particle tagged as gas with a
    radius below the SO radius has a temperature above 1e5 K, the
    temperature stored by [calculate] is the literal zero in the units of
    the temperature array, whatever the gas mass inside the radius. *)
Theorem Tgas_zero_without_hot_gas self input_halo data halo_result halo_result'
        p prof ref name label rSO description gas Tgas :
  calculate np_sqrt np_argsort self input_halo data halo_result
    = (inr tt, halo_result') ->
  particle_profile np_sqrt np_argsort input_halo data = inr (p, prof) ->
  reference self = Some (ref, name, label) ->
  halo_result' !! ("r_" +:+ name) = Some (Scalar rSO, description) ->
  0 < qvalue rSO ->
  dict_get data "PartType0" = inr gas ->
  get_scalar gas "Temperatures" = inr Tgas ->
  (forall k r T,
      select (types_eq (p_types p) "PartType0") (value (p_radius p)) !! k = Some r ->
      value Tgas !! k = Some T ->
      r < qvalue rSO -> ~ 100000 < T) ->
  halo_result' !! ("Tgas_" +:+ name)
  = Some (Scalar (mk_quantity 0 (units Tgas)),
          "Mass-weighted average temperature of gas with T > 1e5 K within a sphere "
            +:+ label).
Proof.
  intros Hc Hpp Href Hr Hpos Hgas HT Hcold.
  destruct (calculate_inr_profile _ _ _ _ _ _ _ _ _ _ _ _ Hc Hpp Href)
    as (cofp & mSO & rSO' & gas' & Tgas' & Xl & Xp & cY & a & _ & _ & _ & HSO
        & Hgas' & HT' & Ha & Hitems).
  rewrite Hgas in Hgas'. injection Hgas' as <-.
  rewrite HT in HT'. injection HT' as <-.
  assert (rSO' = rSO) as ->.
  { assert (halo_result' !! ("r_" +:+ name)
            = Some (Scalar rSO', "Radius " +:+ label)) as Hr'.
    { eapply calculate_lookup; eauto. in_result_items. }
    rewrite Hr in Hr'. by injection Hr'. }
  rewrite (proj2 (Qgtb_gt _ _) Hpos) in Ha.
  apply aggregate_inside_inr in Ha as (_ & _ & Lgas & _ & _ & _ & _ & HTgas).
  rewrite np_any_false in HTgas.
  - eapply calculate_lookup; eauto. rewrite <- HTgas. in_result_items.
  - unfold gt_mask. apply Forall_fmap, Forall_forall. intros T HTin. simpl.
    apply select_lookup in HTin as (k & Hk & HTk).
    unfold lt_mask in Hk. rewrite list_lookup_fmap in Hk.
    destruct (select _ _ !! k) as [r|] eqn:Er; [|discriminate].
    injection Hk as Hk. apply Qltb_lt in Hk.
    apply not_true_is_false. rewrite Qgtb_gt. eauto.
Qed.

End Hot_gas.

(** ** Mass inside the SO radius and the SO mass *)

Lemma pair_sum_Permutation f l l' : l ≡ₚ l' -> pair_sum f l == pair_sum f l'.
Proof.
  unfold pair_sum.
  induction 1 as [|[r m] l l' _ IH|[r1 m1] [r2 m2] l|l1 l2 l3 _ IH1 _ IH2]; simpl.
  - reflexivity.
  - destruct (f r); simpl; [|done]. unfold Qsum in *. by rewrite IH.
  - destruct (f r1), (f r2); simpl; lra.
  - by rewrite IH1.
Qed.

Lemma select_pair_sum f (rs ms : list Q) :
  length rs = length ms ->
  Qsum (select (map f rs) ms) = pair_sum f (zip rs ms).
Proof.
  unfold pair_sum. revert ms.
  induction rs as [|r rs IH]; intros [|m ms] Hlen; simpl in *; try done.
  destruct (f r); simpl; rewrite IH by lia; done.
Qed.

Lemma select_app {A} (m1 m2 : list bool) (a1 a2 : list A) :
  length m1 = length a1 ->
  select (m1 ++ m2) (a1 ++ a2) = select m1 a1 ++ select m2 a2.
Proof.
  revert a1. induction m1 as [|b m1 IH]; intros [|x a1] Hlen; simpl in *; try done.
  destruct b; simpl; rewrite IH by lia; done.
Qed.

Lemma select_all_false {A} (mask : list bool) (a : list A) :
  Forall (fun b => b = false) mask -> select mask a = [].
Proof.
  intros H. revert a. induction H as [|b mask -> _ IH]; intros [|x a]; simpl; auto.
Qed.

Lemma Qsum_select_split (f : Q -> bool) (rs ms : list Q) :
  length rs = length ms ->
  Qsum ms == Qsum (select (map f rs) ms)
             + Qsum (select (map (fun v => negb (f v)) rs) ms).
Proof.
  revert ms. induction rs as [|r rs IH]; intros [|m ms] Hlen; simpl in *; try done.
  specialize (IH ms ltac:(lia)). unfold Qsum in *.
  destruct (f r); simpl; rewrite IH; lra.
Qed.

Lemma take_indices_nth (a : list Q) order l :
  Forall2 (fun i x => a !! i = Some x) order l ->
  l = map (fun i => nth i a 0) order.
Proof.
  induction 1 as [|i x order l Hix _ IH]; simpl; [done|].
  by rewrite (nth_lookup_Some _ _ _ _ Hix), IH.
Qed.

Lemma zip_map_seq (radius mass : list Q) :
  length radius = length mass ->
  map (fun i => (nth i radius 0, nth i mass 0)) (seq 0 (length radius))
  = zip radius mass.
Proof.
  intros Hlen. apply list_eq. intros k.
  rewrite list_lookup_fmap, lookup_zip_with.
  destruct (decide (k < length radius)%nat) as [Hk|Hk].
  - rewrite lookup_seq_lt by done. simpl.
    destruct (lookup_lt_is_Some_2 radius k Hk) as [r Hr].
    destruct (lookup_lt_is_Some_2 mass k ltac:(lia)) as [m Hm].
    rewrite Hr, Hm. simpl.
    by rewrite (nth_lookup_Some _ _ _ _ Hr), (nth_lookup_Some _ _ _ _ Hm).
  - rewrite lookup_seq_ge by lia. simpl.
    by rewrite (proj2 (lookup_ge_None radius k)) by lia.
Qed.

Lemma zip_map_map {A} (f g : A -> Q) (l : list A) :
  zip (map f l) (map g l) = map (fun i => (f i, g i)) l.
Proof. induction l; simpl; congruence. Qed.

Lemma StronglySorted_after (l : list Q) i r :
  StronglySorted Qle l -> l !! i = Some r ->
  Forall (fun y => r <= y) (drop (S i) l).
Proof.
  intros Hs. revert i. induction Hs as [|x l _ IH Hall]; intros i Hi; [done|].
  destruct i as [|i]; simpl in *.
  - injection Hi as <-. by rewrite drop_0.
  - by apply IH.
Qed.

Lemma species_partition (types : list string) (mass : list Q) :
  length types = length mass ->
  Forall (fun t => t ∈ species) types ->
  Qsum (select (types_eq types "PartType0") mass)
  + Qsum (select (types_eq types "PartType1") mass)
  + Qsum (select (types_eq types "PartType4") mass)
  + Qsum (select (types_eq types "PartType5") mass)
  == Qsum mass.
Proof.
  intros Hlen Hall. revert mass Hlen.
  induction Hall as [|t types Ht _ IH]; intros [|m mass] Hlen; simpl in *;
    try done.
  specialize (IH mass ltac:(lia)). unfold Qsum in *. rewrite <- IH.
  unfold species in Ht. simpl in Ht. rewrite !elem_of_cons, elem_of_nil in Ht.
  destruct Ht as [->|[->|[->|[->|[]]]]]; simpl; lra.
Qed.

Lemma select_length_le {A B} (mask : list bool) (a : list A) (b : list B) :
  length a = length b -> length (select mask a) = length (select mask b).
Proof.
  revert a b. induction mask as [|c mask IH]; intros [|x a] [|y b] Hlen;
    simpl in *; try done.
  destruct c; simpl; rewrite (IH a b) by lia; done.
Qed.

Lemma select_Forall {A} (P : A -> Prop) (mask : list bool) (a : list A) :
  Forall P a -> Forall P (select mask a).
Proof.
  intros H. revert mask. induction H as [|x a Hx _ IH]; intros [|b mask]; simpl;
    try constructor.
  destruct b; [constructor|]; auto.
Qed.

Lemma types_in_species np_sqrt centre data p :
  concatenate_particles np_sqrt centre data = inr p ->
  Forall (fun k => k ∈ species) (dict_keys data) ->
  Forall (fun t => t ∈ species) (p_types p).
Proof.
  intros H Hkeys.
  apply concatenate_particles_inr in H as (arrs & Harrs & _ & _ & _ & _ & ->).
  apply Forall_concat, Forall_fmap.
  induction Harrs as [|ptype sp keys arrs Hsp _ IH]; [constructor|].
  apply Forall_cons in Hkeys as [Hk Hkeys]. constructor; [|auto].
  apply species_arrays_radius in Hsp as (ds & coordinates & _ & _ & _ & Ht).
  simpl. rewrite Ht. apply Forall_replicate.
  unfold species in *. simpl in Hk. rewrite !elem_of_cons, elem_of_nil in Hk.
  destruct Hk as [->|[->|[->|[->|[]]]]]; simpl; rewrite !elem_of_cons; auto.
Qed.

Section Mass_inside.

Variable np_sqrt : Q -> Q.
Variable np_argsort : list Q -> list nat.
Hypothesis np_argsort_perm : forall a, np_argsort a ≡ₚ seq 0 (length a).
Hypothesis np_argsort_sorted : forall a, StronglySorted (key_le a) (np_argsort a).

(** The mass below a radius [r] is the same in the sorted arrays as in
    the arrays they were taken from. *)
Lemma inside_mass_sorted radius mass sorted_radius sorted_mass r :
  length radius = length mass ->
  take_indices radius (np_argsort radius) = inr sorted_radius ->
  take_indices mass (np_argsort radius) = inr sorted_mass ->
  Qsum (select (lt_mask radius r) mass)
  == Qsum (select (lt_mask sorted_radius r) sorted_mass).
Proof using np_argsort_perm.
  intros Hlen Hsr Hsm.
  apply take_indices_inr in Hsr, Hsm.
  pose proof (Forall2_length _ _ _ Hsr) as Lr.
  pose proof (Forall2_length _ _ _ Hsm) as Lm.
  apply take_indices_nth in Hsr, Hsm. unfold lt_mask.
  rewrite !select_pair_sum by lia.
  apply pair_sum_Permutation.
  rewrite Hsr, Hsm, zip_map_map, <- (zip_map_seq radius mass) by done.
  apply fmap_Permutation. symmetry. apply np_argsort_perm.
Qed.

(** X24: for a call that returns with a positive SO radius and particles
    of the four known species only, the per-species masses add up to the
    mass of the particles with radius strictly below the SO radius, while
    the SO mass is the cumulative mass through the crossing particle, the
    [n]-th of the sorted arrays, which sits at the SO radius: it exceeds
    the sum of the species masses by the mass of the sorted particles up
    to the crossing one whose radius is not below the SO radius. *)
Theorem species_masses_inside_SO_radius self input_halo data halo_result
        halo_result' p prof ref name label rSO description :
  calculate np_sqrt np_argsort self input_halo data halo_result
    = (inr tt, halo_result') ->
  particle_profile np_sqrt np_argsort input_halo data = inr (p, prof) ->
  reference self = Some (ref, name, label) ->
  Forall (fun k => k ∈ species) (dict_keys data) ->
  halo_result' !! ("r_" +:+ name) = Some (Scalar rSO, description) ->
  0 < qvalue rSO ->
  exists mSO Mgas Mdm Mstar MBHdyn,
    halo_result' !! ("m_" +:+ name)
      = Some (Scalar mSO, "Mass within a sphere " +:+ label) /\
    halo_result' !! ("Mgas_" +:+ name)
      = Some (Scalar Mgas, "Total gas mass within a sphere " +:+ label) /\
    halo_result' !! ("Mdm_" +:+ name)
      = Some (Scalar Mdm, "Total DM mass within a sphere " +:+ label) /\
    halo_result' !! ("Mstar_" +:+ name)
      = Some (Scalar Mstar, "Total stellar mass within a sphere " +:+ label) /\
    halo_result' !! ("MBHdyn_" +:+ name)
      = Some (Scalar MBHdyn, "Total dynamical BH mass within a sphere " +:+ label) /\
    let inside :=
      Qsum (select (lt_mask (value (p_radius p)) (qvalue rSO)) (value (p_mass p))) in
    qvalue Mgas + qvalue Mdm + qvalue Mstar + qvalue MBHdyn == inside /\
    exists sorted_radius sorted_mass n,
      take_indices (value (p_radius p)) (np_argsort (value (p_radius p)))
        = inr sorted_radius /\
      take_indices (value (p_mass p)) (np_argsort (value (p_radius p)))
        = inr sorted_mass /\
      sorted_radius !! n = Some (qvalue rSO) /\
      qvalue mSO == Qsum (take (S n) sorted_mass) /\
      qvalue mSO
      == inside
         + Qsum (select (ge_mask (take (S n) sorted_radius) (qvalue rSO))
                        (take (S n) sorted_mass)).
Proof using np_argsort_perm np_argsort_sorted.
  intros Hc Hpp Href Hkeys Hr Hpos.
  destruct (calculate_inr_profile _ _ _ _ _ _ _ _ _ _ _ _ Hc Hpp Href)
    as (cofp & mSO & rSO' & gas & Tgas & Xl & Xp & cY & a & _ & Hp & Hprof & HSO
        & _ & _ & Ha & Hitems).
  assert (Hlook : forall k v,
             (k, v) ∈ result_items name label rSO' mSO a ->
             halo_result' !! k = Some v).
  { intros k v Hin. eapply calculate_lookup; eauto. }
  assert (rSO' = rSO) as ->.
  { assert (halo_result' !! ("r_" +:+ name)
            = Some (Scalar rSO', "Radius " +:+ label)) as Hr'.
    { apply Hlook. in_result_items. }
    rewrite Hr in Hr'. by injection Hr'. }
  rewrite (proj2 (Qgtb_gt _ _) Hpos) in Ha.
  apply aggregate_inside_inr in Ha
    as (Lmass & Ltypes & _ & Hgas & Hdm & Hstar & Hbh & _).
  exists mSO, (MgasSO a), (MdmSO a), (MstarSO a), (MBHdynSO a).
  repeat (split; [apply Hlook; in_result_items|]).
  cbv zeta. split.
  - rewrite Hgas, Hdm, Hstar, Hbh. simpl. apply species_partition.
    + apply select_length_le. lia.
    + apply select_Forall. by eapply types_in_species.
  - destruct (find_SO_positive _ _ _ _ _ _ HSO Hpos) as (m & r & Hm & Hri & -> & ->).
    simpl in *.
    apply density_profile_inr in Hprof
      as (sorted_radius & sorted_mass & Hsr & Hsm & Hor & Hcm & _).
    set (i := np_argmax (lt_mask (density prof) ref)) in *.
    set (nskip := count_zero_prefix sorted_radius) in *.
    rewrite Hor, lookup_drop in Hri. rewrite Hcm, lookup_drop in Hm.
    apply cumsum_from_lookup in Hm. rewrite Qplus_0_l in Hm.
    exists sorted_radius, sorted_mass, (nskip + i)%nat.
    split; [done|]. split; [done|]. split; [done|]. split; [done|].
    rewrite Hm, (inside_mass_sorted _ _ _ _ r Lmass Hsr Hsm).
    pose proof (take_indices_inr _ _ _ Hsr) as Fr.
    pose proof (take_indices_inr _ _ _ Hsm) as Fm.
    assert (length sorted_radius = length sorted_mass) as Lsorted.
    { apply Forall2_length in Fr, Fm. lia. }
    assert (Hsorted : StronglySorted Qle sorted_radius).
    { eapply StronglySorted_take_indices; [exact Fr|]. apply np_argsort_sorted. }
    rewrite <- (take_drop (S (nskip + i)) sorted_radius) at 1.
    rewrite <- (take_drop (S (nskip + i)) sorted_mass) at 2.
    unfold lt_mask. rewrite map_app, select_app.
    2:{ rewrite length_map, !length_take. lia. }
    rewrite (select_all_false (map _ (drop _ _))), app_nil_r.
    2:{ apply Forall_fmap. eapply Forall_impl.
        - by apply (StronglySorted_after _ _ r Hsorted).
        - intros y Hy. simpl. by apply Qltb_ge. }
    unfold ge_mask. apply Qsum_select_split.
    rewrite !length_take. lia.
Qed.

End Mass_inside.

(** ** Well-formed particle data *)

Lemma mapM_fst_ok {A B C} (f : A -> result B) (P : A * C -> B -> Prop)
      (l : list (A * C)) :
  Forall (fun e => exists b, f e.1 = inr b /\ P e b) l ->
  exists bs, mapM f (map fst l) = inr bs /\ Forall2 P l bs.
Proof.
  induction 1 as [|e l (b & Hb & HP) _ (bs & Hbs & IH)]; simpl.
  - exists []. split; [reflexivity | constructor].
  - exists (b :: bs). rewrite Hb. simpl. rewrite Hbs. simpl.
    split; [reflexivity | by constructor].
Qed.

Lemma uconcatenate_ok {A} (arrs : list (unyt_array A)) u :
  arrs <> [] -> Forall (fun a => units a = u) arrs ->
  uconcatenate arrs = inr (mk_unyt (concat (map value arrs)) u).
Proof.
  intros Hne Hu. destruct arrs as [|a1 rest]; [done|].
  apply Forall_cons in Hu as [<- Hu]. unfold uconcatenate.
  assert (forallb (fun a => bool_decide (units a = units a1)) rest = true) as ->;
    [|reflexivity].
  apply forallb_forall. intros a Ha. apply bool_decide_eq_true.
  rewrite Forall_forall in Hu. apply Hu. by apply list_elem_of_In.
Qed.

Lemma take_indices_ok {A} (a : list A) order :
  Forall (fun i => (i < length a)%nat) order ->
  exists l, take_indices a order = inr l.
Proof.
  unfold take_indices. induction 1 as [|i order Hi _ (l & IH)]; simpl.
  - by exists [].
  - destruct (lookup_lt_is_Some_2 a i Hi) as [x Hx].
    exists (x :: l). rewrite Hx. simpl. rewrite IH. reflexivity.
Qed.

Lemma first_true_lt l i : first_true l = Some i -> (i < length l)%nat.
Proof.
  revert i. induction l as [|b l IH]; intros i; simpl; [discriminate|].
  destruct b; [intros [= <-]; lia|].
  destruct (first_true l) as [j|]; simpl; [|discriminate].
  intros [= <-]. specialize (IH j eq_refl). lia.
Qed.

Lemma np_argmax_lt l : l <> [] -> (np_argmax l < length l)%nat.
Proof.
  intros Hne. unfold np_argmax.
  destruct (first_true l) as [i|] eqn:E; simpl.
  - by apply first_true_lt.
  - destruct l; [done | simpl; lia].
Qed.

Lemma dict_get_elem_of {V} (d : dict V) k v :
  NoDup (dict_keys d) -> (k, v) ∈ d -> dict_get d k = inr v.
Proof.
  induction d as [|[k' v'] d IH]; simpl; intros Hnd Hin.
  - by apply elem_of_nil in Hin.
  - apply NoDup_cons in Hnd as [Hnin Hnd].
    apply elem_of_cons in Hin as [[= -> ->]|Hin].
    + by rewrite decide_True.
    + rewrite decide_False; [auto|]. intros ->. apply Hnin.
      unfold dict_keys. apply list_elem_of_fmap. by exists (k, v).
Qed.

Lemma dict_keys_elem_of {V} (d : dict V) k :
  k ∈ dict_keys d -> exists v, (k, v) ∈ d.
Proof.
  unfold dict_keys. intros ([k' v] & -> & Hin)%list_elem_of_fmap. by exists v.
Qed.

Lemma loaded_vector ds n k :
  k ∈ ["Coordinates"; "Velocities"] -> loaded ds n k ->
  exists a, vector_fields ds !! k = Some a /\ length (value a) = n.
Proof. unfold loaded. intros Hk. by rewrite decide_True. Qed.

Lemma loaded_scalar ds n k :
  k ∉ ["Coordinates"; "Velocities"] -> loaded ds n k ->
  exists a, scalar_fields ds !! k = Some a /\ length (value a) = n.
Proof. unfold loaded. intros Hk. by rewrite decide_False. Qed.

Lemma particle_properties_inr ptype names :
  dict_get particle_properties ptype = inr names ->
  ptype ∈ species /\ String.substring 0 9 ptype = ptype /\
  "Coordinates" ∈ names /\ "Velocities" ∈ names /\ mass_dataset ptype ∈ names.
Proof.
  unfold particle_properties, species. simpl.
  repeat case_decide; try discriminate; subst; intros [= <-];
    rewrite !elem_of_cons; auto 20.
Qed.

Lemma mass_dataset_scalar ptype : mass_dataset ptype ∉ ["Coordinates"; "Velocities"].
Proof.
  unfold mass_dataset. rewrite !elem_of_cons, elem_of_nil.
  case_decide; intros [E|[E|[]]]; discriminate E.
Qed.

Lemma species_arrays_ok np_sqrt centre data u_mass u_length u_velocity entry :
  NoDup (dict_keys data) -> entry ∈ data ->
  (exists names n,
      dict_get particle_properties entry.1 = inr names /\
      Forall (loaded entry.2 n) names) ->
  species_units u_mass u_length u_velocity entry.1 entry.2 ->
  exists sp,
    species_arrays np_sqrt centre data entry.1 = inr sp /\
    rows_of u_mass u_length u_velocity entry sp.
Proof.
  destruct entry as [ptype ds]. simpl.
  intros Hnd Hin (names & n & Hnames & Hloaded) (Hum & Hul & Huv).
  destruct (particle_properties_inr _ _ Hnames) as (_ & Hsub & Hc & Hv & Hm).
  rewrite Forall_forall in Hloaded.
  destruct (loaded_vector ds n "Coordinates") as (c & Ec & Lc);
    [rewrite !elem_of_cons; auto | auto |].
  destruct (loaded_vector ds n "Velocities") as (v & Ev & Lv);
    [rewrite !elem_of_cons; auto | auto |].
  destruct (loaded_scalar ds n (mass_dataset ptype)) as (m & Em & Lm);
    [apply mass_dataset_scalar | auto |].
  unfold species_arrays.
  rewrite (dict_get_elem_of _ _ _ Hnd Hin). simpl.
  unfold get_scalar, get_vector, map_get. rewrite Em, Ec, Ev. simpl.
  eexists. split; [reflexivity|].
  exists names, n. simpl. rewrite !length_map, Hsub, Lc.
  rewrite <- Forall_forall in Hloaded. auto 20.
Qed.

Lemma rows_of_lengths u_mass u_length u_velocity entries arrs :
  Forall2 (rows_of u_mass u_length u_velocity) entries arrs ->
  length (concat (map (fun sp => value (p_mass sp)) arrs))
    = length (concat (map p_types arrs)) /\
  length (concat (map (fun sp => value (p_radius sp)) arrs))
    = length (concat (map p_types arrs)) /\
  length (concat (map (fun sp => value (p_position sp)) arrs))
    = length (concat (map p_types arrs)) /\
  length (concat (map (fun sp => value (p_velocity sp)) arrs))
    = length (concat (map p_types arrs)).
Proof.
  induction 1 as [|entry sp entries arrs Hsp _ (IH1 & IH2 & IH3 & IH4)]; simpl;
    [done|].
  destruct Hsp as (names & n & _ & _ & Lm & Lr & Lp & Lv & Ht & _).
  rewrite !length_app, IH1, IH2, IH3, IH4, Lm, Lr, Lp, Lv, Ht, length_replicate.
  done.
Qed.

Lemma rows_of_units u_mass u_length u_velocity entries arrs :
  Forall2 (rows_of u_mass u_length u_velocity) entries arrs ->
  Forall (fun a => units a = u_mass) (map p_mass arrs) /\
  Forall (fun a => units a = u_length) (map p_radius arrs) /\
  Forall (fun a => units a = u_length) (map p_position arrs) /\
  Forall (fun a => units a = u_velocity) (map p_velocity arrs).
Proof.
  induction 1 as [|entry sp entries arrs Hsp _ (IH1 & IH2 & IH3 & IH4)]; simpl;
    [by repeat split|].
  destruct Hsp as (names & n & _ & _ & _ & _ & _ & _ & _ & Um & Ur & Up & Uv).
  repeat split; by constructor.
Qed.

Lemma types_eq_replicate n k t :
  types_eq (replicate n k) t = replicate n (bool_decide (k = t)).
Proof. unfold types_eq. induction n; simpl; congruence. Qed.

Lemma select_replicate_true {A} (a : list A) :
  select (replicate (length a) true) a = a.
Proof. induction a; simpl; congruence. Qed.

Lemma select_replicate_false {A} n (a : list A) : select (replicate n false) a = [].
Proof. apply select_all_false, Forall_replicate. reflexivity. Qed.

Lemma types_eq_app l1 l2 t : types_eq (l1 ++ l2) t = types_eq l1 t ++ types_eq l2 t.
Proof. unfold types_eq. apply map_app. Qed.

Lemma rows_of_other_species u_mass u_length u_velocity entries arrs t :
  Forall2 (rows_of u_mass u_length u_velocity) entries arrs ->
  t ∉ map fst entries ->
  select (types_eq (concat (map p_types arrs)) t)
         (concat (map (fun sp => value (p_radius sp)) arrs)) = [].
Proof.
  induction 1 as [|entry sp entries arrs Hsp _ IH]; simpl; [done|].
  rewrite not_elem_of_cons. intros [Hne Hnin].
  destruct Hsp as (names & n & _ & _ & _ & Lr & _ & _ & Ht & _).
  rewrite types_eq_app, select_app.
  2:{ unfold types_eq. by rewrite length_map, Ht, length_replicate, Lr. }
  rewrite IH, app_nil_r by done.
  rewrite Ht, types_eq_replicate, bool_decide_eq_false_2 by done.
  apply select_replicate_false.
Qed.

Lemma rows_of_species u_mass u_length u_velocity entries arrs t ds :
  Forall2 (rows_of u_mass u_length u_velocity) entries arrs ->
  NoDup (map fst entries) ->
  (t, ds) ∈ entries ->
  exists names,
    dict_get particle_properties t = inr names /\
    Forall (loaded ds (length (select (types_eq (concat (map p_types arrs)) t)
                                      (concat (map (fun sp => value (p_radius sp))
                                                   arrs)))))
           names.
Proof.
  induction 1 as [|entry sp entries arrs Hsp Hrest IH]; cbn [map concat];
    intros Hnd Hin.
  - by apply elem_of_nil in Hin.
  - apply NoDup_cons in Hnd as [Hnin Hnd].
    pose proof Hsp as (names & n & Hnames & Hloaded & _ & Lr & _ & _ & Ht & _).
    rewrite types_eq_app, select_app.
    2:{ unfold types_eq. by rewrite length_map, Ht, length_replicate, Lr. }
    rewrite Ht, types_eq_replicate, length_app.
    apply elem_of_cons in Hin as [<-|Hin].
    + cbn [fst snd] in *. rewrite bool_decide_eq_true_2 by done.
      replace (replicate n true)
        with (replicate (length (value (p_radius sp))) true) by (by rewrite Lr).
      rewrite select_replicate_true.
      rewrite (rows_of_other_species _ _ _ _ _ _ Hrest Hnin). cbn [length].
      rewrite Nat.add_0_r, Lr. eauto.
    + rewrite bool_decide_eq_false_2.
      2:{ intros Heq. apply Hnin. rewrite Heq. apply list_elem_of_fmap.
          by exists (t, ds). }
      rewrite select_replicate_false. cbn [length Nat.add]. by apply IH.
Qed.

Lemma concatenate_particles_ok np_sqrt centre data :
  well_formed data ->
  exists p,
    concatenate_particles np_sqrt centre data = inr p /\
    length (value (p_mass p)) = length (p_types p) /\
    length (value (p_radius p)) = length (p_types p) /\
    length (value (p_position p)) = length (p_types p) /\
    length (value (p_velocity p)) = length (p_types p) /\
    forall t ds,
      (t, ds) ∈ data ->
      exists names,
        dict_get particle_properties t = inr names /\
        Forall (loaded ds (length (select (types_eq (p_types p) t)
                                          (value (p_radius p))))) names.
Proof.
  intros [Hne Hnd Hloaded (u_mass & u_length & u_velocity & Hunits)].
  assert (Hall : Forall (fun e => exists sp,
                             species_arrays np_sqrt centre data e.1 = inr sp /\
                             rows_of u_mass u_length u_velocity e sp) data).
  { rewrite Forall_forall in Hloaded, Hunits |- *. intros e He.
    by apply species_arrays_ok; auto. }
  apply mapM_fst_ok in Hall as (arrs & Harrs & Hrows).
  assert (arrs <> []) as Harrs_ne.
  { intros ->. apply Forall2_nil_inv_r in Hrows. done. }
  destruct (rows_of_units _ _ _ _ _ Hrows) as (Um & Ur & Up & Uv).
  destruct (rows_of_lengths _ _ _ _ _ Hrows) as (Lm & Lr & Lp & Lv).
  assert (Hspecies : forall t ds,
             (t, ds) ∈ data ->
             exists names,
               dict_get particle_properties t = inr names /\
               Forall (loaded ds (length (select
                                            (types_eq (concat (map p_types arrs)) t)
                                            (concat (map (fun sp => value (p_radius sp))
                                                         arrs))))) names).
  { intros t ds Hin. by eapply rows_of_species. }
  assert (Htypes : np_concatenate (map p_types arrs) = inr (concat (map p_types arrs))).
  { by destruct arrs. }
  unfold concatenate_particles, dict_keys. rewrite Harrs. cbn [bind].
  rewrite (uconcatenate_ok _ u_mass), (uconcatenate_ok _ u_length),
    (uconcatenate_ok _ u_length), (uconcatenate_ok _ u_velocity), Htypes;
    try done; try (by destruct arrs).
  cbn [bind]. eexists. split; [reflexivity|].
  cbn [p_mass p_radius p_position p_velocity p_types value]. rewrite !map_map.
  auto 10.
Qed.

Lemma density_profile_ok np_argsort radius mass :
  (forall a, np_argsort a ≡ₚ seq 0 (length a)) ->
  length mass = length radius ->
  exists prof, density_profile np_argsort radius mass = inr prof.
Proof.
  intros Hperm Hlen. unfold density_profile.
  assert (Hin : Forall (fun i => (i < length radius)%nat) (np_argsort radius)).
  { rewrite Forall_forall. intros i Hi. rewrite (Hperm radius) in Hi.
    apply elem_of_seq in Hi. lia. }
  destruct (take_indices_ok radius _ Hin) as (sr & ->).
  rewrite <- Hlen in Hin. destruct (take_indices_ok mass _ Hin) as (sm & ->).
  simpl. eauto.
Qed.

Lemma find_SO_ok prof ref mass_units radius_units :
  length (cumulative_mass prof) = length (ordered_radius prof) ->
  length (density prof) = length (ordered_radius prof) ->
  exists mSO rSO, find_SO prof (Some ref) mass_units radius_units = inr (mSO, rSO).
Proof.
  intros Lc Ld. unfold find_SO. case_bool_decide as Hpos; simpl; [|eauto].
  destruct (np_any _); simpl; [|eauto].
  assert (np_argmax (lt_mask (density prof) ref) < length (ordered_radius prof))%nat
    as Hi.
  { rewrite <- Ld.
    replace (length (density prof)) with (length (lt_mask (density prof) ref))
      by (unfold lt_mask; by rewrite length_map).
    apply np_argmax_lt. unfold lt_mask. destruct (density prof); [|done].
    simpl in Ld. lia. }
  unfold getitem.
  destruct (lookup_lt_is_Some_2 (cumulative_mass prof) _ ltac:(rewrite Lc; exact Hi))
    as [m ->].
  destruct (lookup_lt_is_Some_2 (ordered_radius prof) _ Hi) as [r ->].
  simpl. eauto.
Qed.

(** The particles of one species below a radius, counted among the
    particles of the species, and counted among the particles below the
    radius. *)
Lemma count_inside_species (types : list string) (radius : list Q) t r :
  length types = length radius ->
  let inside_of_species := lt_mask (select (types_eq types t) radius) r in
  let species_of_inside := types_eq (select (lt_mask radius r) types) t in
  length (select inside_of_species inside_of_species)
  = length (select species_of_inside species_of_inside).
Proof.
  revert radius. induction types as [|ty types IH]; intros [|ra radius] Hlen;
    simpl in *; try done.
  specialize (IH radius ltac:(lia)). simpl in IH.
  destruct (bool_decide (ty = t)) eqn:Et, (Qltb ra r) eqn:Er; simpl;
    rewrite ?Et, ?Er; simpl; congruence.
Qed.

Lemma bool_index_ok {A} (a : list A) mask :
  length mask = length a -> bool_index a mask = inr (select mask a).
Proof. intros H. unfold bool_index. by rewrite decide_True. Qed.

Lemma length_types_eq types t : length (types_eq types t) = length types.
Proof. unfold types_eq. apply length_map. Qed.

Lemma length_lt_mask a x : length (lt_mask a x) = length a.
Proof. unfold lt_mask. apply length_map. Qed.

Lemma length_gt_mask a x : length (gt_mask a x) = length a.
Proof. unfold gt_mask. apply length_map. Qed.

Lemma aggregate_inside_ok centre data p mSO rSO Tgas Xray_lum Xray_phlum compY
      stars initial_masses bhs subgrid_masses :
  let radius := value (p_radius p) in
  let count t := length (select (types_eq (p_types p) t) radius) in
  length (value (p_mass p)) = length (p_types p) ->
  length radius = length (p_types p) ->
  length (value (p_position p)) = length (p_types p) ->
  length (value (p_velocity p)) = length (p_types p) ->
  length (value Tgas) = count "PartType0" ->
  length (value Xray_lum) = count "PartType0" ->
  length (value Xray_phlum) = count "PartType0" ->
  length (value compY) = count "PartType0" ->
  dict_get data "PartType4" = inr stars ->
  get_scalar stars "InitialMasses" = inr initial_masses ->
  length (value initial_masses) = count "PartType4" ->
  dict_get data "PartType5" = inr bhs ->
  get_scalar bhs "SubgridMasses" = inr subgrid_masses ->
  length (value subgrid_masses) = count "PartType5" ->
  exists a,
    aggregate_inside centre data p mSO rSO Tgas Xray_lum Xray_phlum compY = inr a.
Proof.
  intros radius count Lm Lr Lp Lv LT LX LXp LY Hstars Hinit Linit Hbhs Hsub Lsub.
  subst radius count. unfold aggregate_inside.
  rewrite !(bool_index_ok (value (p_radius p)))
    by (by rewrite length_types_eq).
  cbn [bind].
  rewrite (bool_index_ok (value (p_mass p))) by (rewrite length_lt_mask; lia).
  cbn [bind].
  rewrite (bool_index_ok (value (p_position p))) by (rewrite length_lt_mask; lia).
  cbn [bind].
  rewrite (bool_index_ok (value (p_velocity p))) by (rewrite length_lt_mask; lia).
  cbn [bind].
  rewrite (bool_index_ok (p_types p)) by (rewrite length_lt_mask; lia).
  cbn [bind].
  set (all_selection := lt_mask (value (p_radius p)) (qvalue rSO)).
  set (mass := select all_selection (value (p_mass p))).
  set (types := select all_selection (p_types p)).
  assert (Ltm : length types = length mass).
  { apply select_length_le. lia. }
  rewrite !(bool_index_ok mass) by (by rewrite length_types_eq).
  cbn [bind].
  set (gas_selection :=
         lt_mask (select (types_eq (p_types p) "PartType0") (value (p_radius p)))
                 (qvalue rSO)).
  assert (Lgas : length gas_selection
                 = length (select (types_eq (p_types p) "PartType0")
                                  (value (p_radius p)))).
  { apply length_lt_mask. }
  rewrite (bool_index_ok (value Tgas)) by lia. cbn [bind].
  set (gas_temperatures := select gas_selection (value Tgas)).
  set (gas_masses := select (types_eq types "PartType0") mass).
  assert (Lhot : length gas_temperatures = length gas_masses).
  { unfold gas_temperatures, gas_masses.
    rewrite (select_length_le gas_selection (value Tgas) gas_selection) by lia.
    rewrite (select_length_le (types_eq types "PartType0") mass
                              (types_eq types "PartType0"))
      by (by rewrite length_types_eq).
    apply count_inside_species. lia. }
  rewrite (bool_index_ok gas_masses) by (by rewrite length_gt_mask).
  cbn [bind].
  assert (HT : exists T,
             (if np_any (gt_mask gas_temperatures 100000)
              then bind (bool_index gas_temperatures (gt_mask gas_temperatures 100000))
                        (fun hot_temperatures =>
                           ret (Qsum (zip_with Qmult hot_temperatures
                                               (select (gt_mask gas_temperatures 100000)
                                                       gas_masses))
                                / Qsum (select (gt_mask gas_temperatures 100000)
                                               gas_masses)))
              else ret 0) = inr T).
  { destruct (np_any _); [|by eexists].
    rewrite bool_index_ok by apply length_gt_mask. by eexists. }
  destruct HT as (T & ->). cbn [bind].
  rewrite (bool_index_ok (value Xray_lum)) by lia. cbn [bind].
  rewrite (bool_index_ok (value Xray_phlum)) by lia. cbn [bind].
  rewrite (bool_index_ok (value compY)) by lia. cbn [bind].
  rewrite Hstars. cbn [bind]. rewrite Hinit. cbn [bind].
  rewrite (bool_index_ok (value initial_masses))
    by (rewrite length_lt_mask; lia).
  cbn [bind].
  rewrite Hbhs. cbn [bind]. rewrite Hsub. cbn [bind].
  rewrite (bool_index_ok (value subgrid_masses))
    by (rewrite length_lt_mask; lia).
  cbn [bind]. by eexists.
Qed.

Lemma loaded_get_scalar ds n names k :
  Forall (loaded ds n) names -> k ∈ names -> k ∉ ["Coordinates"; "Velocities"] ->
  exists a, get_scalar ds k = inr a /\ length (value a) = n.
Proof.
  intros Hall Hk Hscalar. rewrite Forall_forall in Hall.
  destruct (loaded_scalar ds n k Hscalar (Hall k Hk)) as (a & Ha & La).
  exists a. unfold get_scalar, map_get. by rewrite Ha.
Qed.

Section Calculate_returns.

Variable np_sqrt : Q -> Q.
Variable np_argsort : list Q -> list nat.
Hypothesis np_argsort_perm : forall a, np_argsort a ≡ₚ seq 0 (length a).

(** On well-formed data that has gas, stars and black holes, for a halo
    with its centre of potential and a calculator of type ["mean"] or
    ["crit"], [calculate] returns. *)
Lemma calculate_returns self input_halo data halo_result :
  well_formed data ->
  "PartType0" ∈ dict_keys data ->
  "PartType4" ∈ dict_keys data ->
  "PartType5" ∈ dict_keys data ->
  is_Some (input_halo !! "cofp") ->
  type self ∈ ["mean"; "crit"] ->
  exists halo_result',
    calculate np_sqrt np_argsort self input_halo data halo_result
    = (inr tt, halo_result').
Proof using np_argsort_perm.
  intros Hwf Hgas Hstars Hbhs [cofp Hcofp] Htype.
  destruct (concatenate_particles_ok np_sqrt (qvalue cofp) data Hwf)
    as (p & Hp & Lm & Lr & Lpos & Lv & Hspecies).
  destruct (density_profile_ok np_argsort (value (p_radius p)) (value (p_mass p))
              np_argsort_perm ltac:(lia)) as (prof & Hprof).
  destruct (density_profile_lengths _ _ _ _ Hprof) as [Lc Ld].
  assert (exists ref name label, reference self = Some (ref, name, label))
    as (ref & name & label & Href).
  { unfold reference. rewrite !elem_of_cons, elem_of_nil in Htype.
    destruct Htype as [->|[->|[]]]; simpl; eauto. }
  destruct (find_SO_ok prof ref (units (p_mass p)) (units (p_radius p)) Lc Ld)
    as (mSO & rSO & HSO).
  pose proof (wf_NoDup _ Hwf) as Hnd.
  destruct (dict_keys_elem_of _ _ Hgas) as (gas & Hgas_in).
  destruct (dict_keys_elem_of _ _ Hstars) as (stars & Hstars_in).
  destruct (dict_keys_elem_of _ _ Hbhs) as (bhs & Hbhs_in).
  destruct (Hspecies _ _ Hgas_in) as (gas_names & Egas & Lgas).
  destruct (Hspecies _ _ Hstars_in) as (star_names & Estars & Lstars).
  destruct (Hspecies _ _ Hbhs_in) as (bh_names & Ebhs & Lbhs).
  injection Egas as <-. injection Estars as <-. injection Ebhs as <-.
  destruct (loaded_get_scalar _ _ _ "Temperatures" Lgas) as (Tgas & HT & LT);
    [rewrite !elem_of_cons; auto 10
    | rewrite !elem_of_cons, elem_of_nil; intros [E|[E|[]]]; discriminate E |].
  destruct (loaded_get_scalar _ _ _ "XrayLuminosities" Lgas) as (Xl & HXl & LXl);
    [rewrite !elem_of_cons; auto 10
    | rewrite !elem_of_cons, elem_of_nil; intros [E|[E|[]]]; discriminate E |].
  destruct (loaded_get_scalar _ _ _ "XrayPhotonLuminosities" Lgas)
    as (Xp & HXp & LXp);
    [rewrite !elem_of_cons; auto 10
    | rewrite !elem_of_cons, elem_of_nil; intros [E|[E|[]]]; discriminate E |].
  destruct (loaded_get_scalar _ _ _ "ComptonYParameters" Lgas) as (cY & HcY & LcY);
    [rewrite !elem_of_cons; auto 10
    | rewrite !elem_of_cons, elem_of_nil; intros [E|[E|[]]]; discriminate E |].
  destruct (loaded_get_scalar _ _ _ "InitialMasses" Lstars) as (im & Him & Lim);
    [rewrite !elem_of_cons; auto 10
    | rewrite !elem_of_cons, elem_of_nil; intros [E|[E|[]]]; discriminate E |].
  destruct (loaded_get_scalar _ _ _ "SubgridMasses" Lbhs) as (sm & Hsm & Lsm);
    [rewrite !elem_of_cons; auto 10
    | rewrite !elem_of_cons, elem_of_nil; intros [E|[E|[]]]; discriminate E |].
  assert (exists a,
             (if Qgtb (qvalue rSO) 0
              then aggregate_inside (qvalue cofp) data p mSO rSO Tgas Xl Xp cY
              else ret (aggregate_zero p mSO Tgas Xl Xp cY)) = inr a) as (a & Ha).
  { destruct (Qgtb (qvalue rSO) 0); [|by eexists].
    eapply aggregate_inside_ok; eauto using dict_get_elem_of. }
  unfold calculate, SO_items, map_get.
  rewrite Hcofp. cbn [bind ret]. rewrite Hp. cbn [bind]. rewrite Hprof. cbn [bind].
  rewrite Href. cbn [fmap option_fmap option_map fst snd].
  rewrite HSO. cbn [bind fst snd].
  rewrite (dict_get_elem_of _ _ _ Hnd Hgas_in). cbn [bind].
  rewrite HT. cbn [bind]. rewrite HXl. cbn [bind]. rewrite HXp. cbn [bind].
  rewrite HcY. cbn [bind]. rewrite Ha. cbn [bind local ret].
  eexists. reflexivity.
Qed.

End Calculate_returns.

(** ** The executable instances satisfy the assumptions on numpy *)

Lemma Qsqrt_nonneg x : 0 <= Qsqrt x.
Proof.
  unfold Qsqrt, Qle. simpl. rewrite Z.mul_1_r. apply Z.sqrt_nonneg.
Qed.

Global Instance key_le_transitive a : Transitive (key_le a).
Proof. intros i j k. unfold key_le. apply Qle_trans. Qed.

Global Instance key_le_total a : Total (key_le a).
Proof.
  intros i j. unfold key_le.
  destruct (Qlt_le_dec (nth i a 0) (nth j a 0)); [left; by apply Qlt_le_weak | by right].
Qed.

Lemma argsort_perm a : argsort a ≡ₚ seq 0 (length a).
Proof. apply merge_sort_Permutation. Qed.

Lemma argsort_sorted a : StronglySorted (key_le a) (argsort a).
Proof. apply StronglySorted_merge_sort; apply _. Qed.

(** ** Concrete runs *)

(** Run the first stages of [calculate] on concrete inputs: [p] and [prof]
    name the arrays and the profile, [Hp] and [Hprof] give their values. *)
Ltac run_profile input_halo data p prof Hpp Hp Hprof :=
  destruct (particle_profile Qsqrt argsort input_halo data)
    as [?|[p prof]] eqn:Hpp; [vm_compute in Hpp; discriminate Hpp|];
  let Hlit := fresh "Hlit" in
  pose proof Hpp as Hlit; vm_compute in Hlit; injection Hlit as Hp Hprof.

Lemma calculate_returns_pair np_sqrt np_argsort self input_halo data halo_result :
  (calculate np_sqrt np_argsort self input_halo data halo_result).1 = inr tt ->
  calculate np_sqrt np_argsort self input_halo data halo_result
  = (inr tt, (calculate np_sqrt np_argsort self input_halo data halo_result).2).
Proof. intros H. rewrite <- H. apply surjective_pairing. Qed.

Lemma SO_zero_when_never_above_witness :
  let dense :=
    (calculate Qsqrt argsort SO_200_crit_dense halo_at_origin data_dm_halo ∅).2 in
  let empty :=
    (calculate Qsqrt argsort SO_200_crit halo_at_origin data_no_particles ∅).2 in
  (dense !! "r_200_crit"
     = Some (Scalar (mk_quantity 0 "Mpc"), "Radius " +:+ label_200_crit) /\
   dense !! "m_200_crit"
     = Some (Scalar (mk_quantity 0 "Msun"), "Mass within a sphere " +:+ label_200_crit))
  /\
  (empty !! "r_200_crit"
     = Some (Scalar (mk_quantity 0 "Mpc"), "Radius " +:+ label_200_crit) /\
   empty !! "m_200_crit"
     = Some (Scalar (mk_quantity 0 "Msun"), "Mass within a sphere " +:+ label_200_crit)).
Proof.
  intros dense empty. split.
  - run_profile halo_at_origin data_dm_halo p prof Hpp Hp Hprof.
    replace "Mpc" with (units (p_radius p)) by (by rewrite <- Hp).
    replace "Msun" with (units (p_mass p)) by (by rewrite <- Hp).
    apply (SO_zero_when_never_above Qsqrt argsort SO_200_crit_dense halo_at_origin
             data_dm_halo ∅ dense p prof 200 "200_crit" label_200_crit).
    + apply calculate_returns_pair. vm_compute. reflexivity.
    + exact Hpp.
    + vm_compute. reflexivity.
    + left. rewrite <- Hprof. repeat constructor; unfold Qlt; simpl; lia.
  - run_profile halo_at_origin data_no_particles p prof Hpp Hp Hprof.
    replace "Mpc" with (units (p_radius p)) by (by rewrite <- Hp).
    replace "Msun" with (units (p_mass p)) by (by rewrite <- Hp).
    apply (SO_zero_when_never_above Qsqrt argsort SO_200_crit halo_at_origin
             data_no_particles ∅ empty p prof (200 # 10000) "200_crit"
             label_200_crit).
    + apply calculate_returns_pair. vm_compute. reflexivity.
    + exact Hpp.
    + vm_compute. reflexivity.
    + right. by rewrite <- Hprof.
Defined.

Lemma SO_at_first_crossing_witness :
  let halo_result' :=
    (calculate Qsqrt argsort SO_200_crit halo_at_origin data_dm_halo ∅).2 in
  halo_result' !! "r_200_crit"
    = Some (Scalar (mk_quantity 4 "Mpc"), "Radius " +:+ label_200_crit) /\
  halo_result' !! "m_200_crit"
    = Some (Scalar (mk_quantity 4 "Msun"), "Mass within a sphere " +:+ label_200_crit).
Proof.
  intros halo_result'.
  run_profile halo_at_origin data_dm_halo p prof Hpp Hp Hprof.
  destruct (SO_at_first_crossing Qsqrt argsort SO_200_crit halo_at_origin
              data_dm_halo ∅ halo_result' p prof (200 # 10000) "200_crit" label_200_crit)
    as [Hfirst Hfourth].
  - apply calculate_returns_pair. vm_compute. reflexivity.
  - exact Hpp.
  - vm_compute. reflexivity.
  - rewrite <- Hprof. apply Exists_cons_hd. unfold Qlt. simpl. lia.
  - rewrite <- Hprof, <- Hp in Hfirst, Hfourth.
    destruct (Hfirst 3%nat) as (r & m & Hr & Hm & H1 & H2).
    + split.
      * eexists. split; [reflexivity|]. unfold Qlt. simpl. lia.
      * intros j d Hj. destruct j as [|[|[|j]]]; [| | |lia];
          intros [= <-]; unfold Qlt; simpl; lia.
    + simpl in Hr, Hm. injection Hr as <-. injection Hm as <-.
      destruct (Hfourth _ _ _ _ _ eq_refl) as (r4 & m4 & Hr4 & Hm4 & _);
        [unfold Qlt; simpl; lia..|].
      split; [exact H1 | exact H2].
Defined.

Lemma profile_skips_zero_radius_witness :
  exists p prof,
    particle_profile Qsqrt argsort halo_at_origin data_centred = inr (p, prof) /\
    ordered_radius prof = [1; 2] /\
    cumulative_mass prof = [8; 9] /\
    Forall (fun r => 0 < r) (ordered_radius prof).
Proof.
  destruct (particle_profile Qsqrt argsort halo_at_origin data_centred)
    as [e|[p prof]] eqn:Hpp; [vm_compute in Hpp; discriminate Hpp|].
  exists p, prof. split; [reflexivity|].
  pose proof Hpp as Hlit. vm_compute in Hlit. injection Hlit as Hp Hprof.
  split; [by rewrite <- Hprof|]. split; [by rewrite <- Hprof|].
  destruct (profile_skips_zero_radius Qsqrt argsort Qsqrt_nonneg argsort_sorted
              halo_at_origin data_centred p prof Hpp) as (Hpos & _).
  exact Hpos.
Defined.

Section Double_precision.

Import PrimFloat PrimInt63.

(** C7 as stated fails in double precision: of two particles of unit mass,
    one at the centre and one at 1e-109 Mpc from it (the double nearest
    to 1e-109), the first is dropped and the second is kept, its radius
    not being zero; the cube of that radius underflows to zero, the
    denominator of line 102 is zero and the density is infinite. *)
Lemma tiny_radius_divides_by_zero :
  let r := float64.radius (0x1.e0fb44f50586ep-363, 0, 0)%float in
  PrimFloat.eqb r 0 = false /\
  float64.density_profile [0%float; r] [1%float; 1%float]
  = ([r], [2%float], [PrimFloat.infinity]) /\
  PrimFloat.eqb (float64.denominator r) 0 = true.
Proof. vm_compute. repeat split; reflexivity. Qed.

(** The conversion of an integer to a double, which [.0f] makes before it
    prints, is exact up to 2^53 only: 2^53 + 1 becomes 2^53. *)
Lemma large_int_to_double_rounds :
  PrimFloat.of_uint63 9007199254740993%uint63
  = PrimFloat.of_uint63 9007199254740992%uint63.
Proof. vm_compute. reflexivity. Qed.

End Double_precision.

Lemma Tgas_zero_without_hot_gas_witness :
  let halo_result' :=
    (calculate Qsqrt argsort SO_200_crit halo_at_origin data_gas_halo ∅).2 in
  halo_result' !! "Mgas_200_crit"
    = Some (Scalar (mk_quantity 3 "Msun"),
            "Total gas mass within a sphere " +:+ label_200_crit) /\
  halo_result' !! "Tgas_200_crit"
    = Some (Scalar (mk_quantity 0 "K"),
            "Mass-weighted average temperature of gas with T > 1e5 K within a sphere "
              +:+ label_200_crit).
Proof.
  intros halo_result'. split; [vm_compute; reflexivity|].
  run_profile halo_at_origin data_gas_halo p prof Hpp Hp Hprof.
  apply (Tgas_zero_without_hot_gas Qsqrt argsort SO_200_crit halo_at_origin
           data_gas_halo ∅ halo_result' p prof (200 # 10000) "200_crit" label_200_crit
           (mk_quantity 4 "Mpc") ("Radius " +:+ label_200_crit) gas_two
           (mk_unyt [10000; 1000000] "K")).
  - apply calculate_returns_pair. vm_compute. reflexivity.
  - exact Hpp.
  - vm_compute. reflexivity.
  - vm_compute. reflexivity.
  - reflexivity.
  - vm_compute. reflexivity.
  - vm_compute. reflexivity.
  - rewrite <- Hp. intros k r T Hr HT Hlt.
    destruct k as [|[|k]]; simpl in Hr, HT; [| |discriminate Hr].
    + injection HT as <-. unfold Qlt. simpl. lia.
    + injection Hr as <-. simpl in Hlt. unfold Qlt in Hlt. simpl in Hlt. lia.
Defined.

Lemma species_masses_inside_SO_radius_witness :
  let halo_result' :=
    (calculate Qsqrt argsort SO_200_crit halo_at_origin data_dm_halo ∅).2 in
  exists mSO Mgas Mdm Mstar MBHdyn,
    halo_result' !! "m_200_crit"
      = Some (Scalar mSO, "Mass within a sphere " +:+ label_200_crit) /\
    halo_result' !! "Mgas_200_crit"
      = Some (Scalar Mgas, "Total gas mass within a sphere " +:+ label_200_crit) /\
    halo_result' !! "Mdm_200_crit"
      = Some (Scalar Mdm, "Total DM mass within a sphere " +:+ label_200_crit) /\
    halo_result' !! "Mstar_200_crit"
      = Some (Scalar Mstar, "Total stellar mass within a sphere " +:+ label_200_crit) /\
    halo_result' !! "MBHdyn_200_crit"
      = Some (Scalar MBHdyn,
              "Total dynamical BH mass within a sphere " +:+ label_200_crit) /\
    qvalue Mgas + qvalue Mdm + qvalue Mstar + qvalue MBHdyn == 3 /\
    qvalue mSO == 3 + 1.
Proof.
  intros halo_result'.
  run_profile halo_at_origin data_dm_halo p prof Hpp Hp Hprof.
  destruct (species_masses_inside_SO_radius Qsqrt argsort argsort_perm argsort_sorted
              SO_200_crit halo_at_origin data_dm_halo ∅ halo_result' p prof
              (200 # 10000) "200_crit" label_200_crit
              (mk_quantity 4 "Mpc") ("Radius " +:+ label_200_crit))
    as (mSO & Mgas & Mdm & Mstar & MBHdyn & Hm & Hg & Hd & Hs & Hb & Hsum
        & sorted_radius & sorted_mass & n & Hsr & Hsm & Hn & Hcum & Hsplit).
  - apply calculate_returns_pair. vm_compute. reflexivity.
  - exact Hpp.
  - vm_compute. reflexivity.
  - unfold species. simpl. repeat constructor; rewrite !elem_of_cons; auto.
  - vm_compute. reflexivity.
  - reflexivity.
  - exists mSO, Mgas, Mdm, Mstar, MBHdyn.
    repeat (split; [assumption|]).
    rewrite <- Hp in Hsum, Hsr, Hsm, Hsplit.
    vm_compute in Hsr, Hsm. injection Hsr as <-. injection Hsm as <-.
    split; [rewrite Hsum; reflexivity|].
    destruct n as [|[|[|[|[|n]]]]]; simpl in Hn; try discriminate Hn.
    rewrite Hsplit. reflexivity.
Defined.

(** C4: five dark-matter particles of unit mass at radii 1 to 5, the
    other species present and empty.  [calculate] stores an SO radius of
    4 and an SO mass of 4, the cumulative mass through the particle that
    sits at radius 4, while the species masses, summed over the radii
    strictly below 4, add up to 3.  The code itself takes the SO mass for
    the mass of the selected particles: it divides their mass-weighted
    position sum (1, 2, 3) by it and stores (1/4, 2/4, 3/4), which is not
    their centre of mass (1/3, 2/3, 1). *)
Theorem species_masses_differ_from_SO_mass :
  let halo_result' :=
    (calculate Qsqrt argsort SO_200_crit halo_at_origin data_dm_halo ∅).2 in
  exists rSO mSO Mgas Mdm Mstar MBHdyn com,
    fst <$> halo_result' !! "r_200_crit" = Some (Scalar rSO) /\
    qvalue rSO = 4 /\
    fst <$> halo_result' !! "m_200_crit" = Some (Scalar mSO) /\
    qvalue mSO = 4 /\
    fst <$> halo_result' !! "Mgas_200_crit" = Some (Scalar Mgas) /\
    fst <$> halo_result' !! "Mdm_200_crit" = Some (Scalar Mdm) /\
    qvalue Mdm = 3 /\
    fst <$> halo_result' !! "Mstar_200_crit" = Some (Scalar Mstar) /\
    fst <$> halo_result' !! "MBHdyn_200_crit" = Some (Scalar MBHdyn) /\
    fst <$> halo_result' !! "com_200_crit" = Some (Vector com) /\
    qvalue com = (1 # 4, 2 # 4, 3 # 4) /\
    ~ qvalue Mgas + qvalue Mdm + qvalue Mstar + qvalue MBHdyn == qvalue mSO.
Proof.
  intros halo_result'.
  exists (mk_quantity 4 "Mpc"), (mk_quantity 4 "Msun"), (mk_quantity 0 "Msun"),
    (mk_quantity 3 "Msun"), (mk_quantity 0 "Msun"), (mk_quantity 0 "Msun"),
    (mk_quantity (1 # 4, 2 # 4, 3 # 4) "Mpc").
  repeat (split; [vm_compute; reflexivity|]).
  simpl. unfold Qeq. simpl. lia.
Qed.

(** C3: a halo of five dark-matter particles of unit mass at radii 1 to 5
    in a snapshot that holds dark matter only.  Lines 114-118 find what
    the claim says: the density first drops below the reference at the
    fourth sorted particle, and the SO mass and radius are 4 Msun and
    4 Mpc.  The call then reads the gas datasets at line 126 and raises
    [KeyError]: nothing is returned and [halo_result] is left as it
    was. *)
Theorem single_species_crossing_not_returned halo_result :
  exists p prof,
    particle_profile Qsqrt argsort halo_at_origin data_dmo = inr (p, prof) /\
    reference SO_200_crit = Some (200 # 10000, "200_crit", label_200_crit) /\
    Exists (fun d => (200 # 10000) < d) (density prof) /\
    first_below (200 # 10000) (density prof) 3 /\
    find_SO prof (Some (200 # 10000)) (units (p_mass p)) (units (p_radius p))
      = inr (mk_quantity 4 "Msun", mk_quantity 4 "Mpc") /\
    calculate Qsqrt argsort SO_200_crit halo_at_origin data_dmo halo_result
      = (inl (KeyError "PartType0"), halo_result).
Proof.
  run_profile halo_at_origin data_dmo p prof Hpp Hp Hprof.
  exists p, prof. split; [reflexivity|].
  split; [vm_compute; reflexivity|].
  split; [rewrite <- Hprof; apply Exists_cons_hd; unfold Qlt; simpl; lia|].
  split.
  { rewrite <- Hprof. split.
    - eexists. split; [reflexivity|]. unfold Qlt. simpl. lia.
    - intros j d Hj. destruct j as [|[|[|j]]]; [| | |lia];
        intros [= <-]; unfold Qlt; simpl; lia. }
  split; [rewrite <- Hprof, <- Hp; vm_compute; reflexivity|].
  unfold calculate.
  replace (SO_items Qsqrt argsort SO_200_crit halo_at_origin data_dmo)
    with (@inl exn (list (string * (result_value * string))) (KeyError "PartType0"))
    by (vm_compute; reflexivity).
  reflexivity.
Qed.

Lemma catalogue_radii_ordered_witness :
  let cat := SOCatalogue.__init__ Qsqrt example_ranks 1 example_units example_siminfo 100 in
  exists sz s r,
    size_radius example_ranks 1 example_units example_siminfo !! 1%nat = Some sz /\
    sz == 6 /\
    value (search_radius cat) !! 1%nat = Some s /\
    value (read_radius cat) !! 1%nat = Some r /\
    r = (if Qltb s min_radius then min_radius else s) /\
    s <= r /\ 0 <= s /\ (101 # 100) * sz <= s.
Proof.
  intros cat.
  destruct (size_radius example_ranks 1 example_units example_siminfo !! 1%nat)
    as [sz|] eqn:Hsz; [|vm_compute in Hsz; discriminate Hsz].
  assert (Hval : sz == 6).
  { vm_compute in Hsz. injection Hsz as <-. reflexivity. }
  destruct (catalogue_radii_ordered Qsqrt Qsqrt_nonneg example_ranks 1 example_units
              example_siminfo 100 1%nat sz Hsz) as (s & r & Hs & Hr & Hfloor & Hle).
  - rewrite Hval. unfold Qle. simpl. lia.
  - exists sz, s, r. auto 10.
Defined.

Lemma periodic_distance_wraps_witness :
  (exists w,
      wrapped_dist 100 [(1 # 10, 20, 20)] [(100 - (1 # 10), 20, 23)] !! 0%nat = Some w /\
      component 0 w == 2 # 10 /\
      component 2 w == Qmin (Qabs (20 - 23)) (100 - Qabs (20 - 23))).
Proof.
  destruct (periodic_distance_wraps Qsqrt 100 [(1 # 10, 20, 20)]
              [(100 - (1 # 10), 20, 23)] 0%nat) as [Hmin Hedge].
  destruct (Hedge 20 20 20 23 eq_refl eq_refl) as (w & Hw & Hw0).
  - unfold Qle. simpl. lia.
  - destruct (Hmin _ _ eq_refl eq_refl) as (w' & Hw' & Hdim & _).
    rewrite Hw in Hw'. injection Hw' as <-.
    exists w. split; [exact Hw|]. split; [exact Hw0|]. exact (Hdim 2%nat).
Defined.

Lemma data_dm_halo_well_formed : well_formed data_dm_halo.
Proof.
  split.
  - discriminate.
  - unfold data_dm_halo. simpl.
    repeat (apply NoDup_cons; split;
            [rewrite ?elem_of_cons, elem_of_nil; intros H;
             repeat (destruct H as [H|H]; [discriminate H|]); exact H |]).
    apply NoDup_nil_2.
  - unfold data_dm_halo.
    repeat (apply Forall_cons; split;
            [eexists _, _; split; [reflexivity|];
             repeat (apply Forall_cons; split;
                     [unfold loaded; case_decide as Hk;
                      first
                        [ eexists; split; reflexivity
                        | exfalso;
                          first
                            [ apply Hk; rewrite !elem_of_cons; by auto
                            | rewrite !elem_of_cons, elem_of_nil in Hk;
                              destruct Hk as [E|[E|[]]]; discriminate E ] ]
                     |]);
             apply Forall_nil_2
            |]).
    apply Forall_nil_2.
  - exists "Msun", "Mpc", "km/s". unfold data_dm_halo.
    repeat (apply Forall_cons; split;
            [repeat split; intros a Ha; vm_compute in Ha; by injection Ha as <-|]).
    apply Forall_nil_2.
Qed.

Lemma calculate_returns_dm_halo halo_result :
  exists halo_result',
    calculate Qsqrt argsort SO_200_crit halo_at_origin data_dm_halo halo_result
    = (inr tt, halo_result').
Proof.
  apply calculate_returns.
  - apply argsort_perm.
  - apply data_dm_halo_well_formed.
  - simpl. rewrite !elem_of_cons. auto.
  - simpl. rewrite !elem_of_cons. auto.
  - simpl. rewrite !elem_of_cons. auto.
  - by eexists.
  - simpl. rewrite !elem_of_cons. auto.
Qed.

(** * Further properties of the code *)

(** ** The constructor and the names it gives *)

(** X1: an object built by the constructor always has its reference
    density, key suffix and label defined: for ["crit"] the density is the
    multiple times the critical density of the grid and the suffix ends in
    [_crit], for ["mean"] it is the multiple times the mean density and
    the suffix ends in [_mean]; no other type gets through. *)
Theorem constructed_reference cg SOval ty self :
  SOProperties.__init__ cg SOval ty = inr self ->
  (ty = "crit" /\
   reference self
   = Some (SOval * cg_critical_density cg, format_0f SOval +:+ "_crit",
           "within which the density is " +:+ format_0f SOval
             +:+ " times the critical value")) \/
  (ty = "mean" /\
   reference self
   = Some (SOval * cg_mean_density cg, format_0f SOval +:+ "_mean",
           "within which the density is " +:+ format_0f SOval
             +:+ " times the mean value")).
Proof.
  unfold SOProperties.__init__. case_bool_decide as Hty; simpl; [|discriminate].
  intros [= <-]. unfold reference. simpl.
  rewrite !elem_of_cons, elem_of_nil in Hty.
  destruct Hty as [->|[->|[]]]; simpl; auto.
Qed.

Lemma constructed_reference_witness :
  exists self,
    SOProperties.__init__ (mk_cellgrid (1 # 10000) (1 # 20000)) 200 "mean" = inr self /\
    reference self
    = Some (200 * (1 # 20000), "200_mean",
            "within which the density is 200 times the mean value").
Proof.
  destruct (SOProperties.__init__ (mk_cellgrid (1 # 10000) (1 # 20000)) 200 "mean")
    as [e|self] eqn:E; [vm_compute in E; discriminate E|].
  exists self. split; [reflexivity|].
  destruct (constructed_reference _ _ _ _ E) as [[Hty _]|[_ Href]];
    [discriminate Hty | exact Href].
Defined.

Lemma round_half_even_Z (n : Z) : round_half_even (inject_Z n) = n.
Proof.
  unfold round_half_even. rewrite Qfloor_Z.
  assert (Qltb (inject_Z n - inject_Z n) (1 # 2) = true) as ->; [|reflexivity].
  apply Qltb_lt. lra.
Qed.

Lemma format_Z (n : Z) : format_d (inject_Z n) = format_0f (inject_Z n).
Proof.
  unfold format_d, format_0f. rewrite Qfloor_Z, Qceiling_Z.
  change (Qabs (inject_Z n)) with (inject_Z (Z.abs n)).
  rewrite round_half_even_Z.
  destruct (Qltb (inject_Z n) 0) eqn:E.
  - apply Qltb_lt in E. unfold Qlt in E. simpl in E.
    destruct n as [|p|p]; try lia. reflexivity.
  - apply Qltb_ge in E. unfold Qle in E. simpl in E.
    destruct n as [|p|p]; try lia; reflexivity.
Qed.

(** X2: for an integer overdensity multiple of absolute value at most
    2^53, the name of the calculator is ["SO_"] followed by the suffix of
    its result keys: the [%d] of the constructor and the [.0f] of
    [calculate] print the same digits.  The bound is the range in which
    the conversion to a double that [.0f] makes is exact; beyond it the
    two can print different digits. *)
Theorem name_is_SO_suffix cg (n : Z) ty self :
  (Z.abs n <= 2 ^ 53)%Z ->
  SOProperties.__init__ cg (inject_Z n) ty = inr self ->
  exists ref suffix label,
    reference self = Some (ref, suffix, label) /\
    name self = "SO_" +:+ suffix.
Proof.
  intros _.
  unfold SOProperties.__init__. case_bool_decide as Hty; simpl; [|discriminate].
  intros [= <-]. unfold reference. simpl. rewrite format_Z.
  rewrite !elem_of_cons, elem_of_nil in Hty.
  destruct Hty as [->|[->|[]]]; simpl; eauto.
Qed.

Lemma name_is_SO_suffix_witness :
  exists self,
    SOProperties.__init__ (mk_cellgrid 1 1) (inject_Z 500) "crit" = inr self /\
    name self = "SO_500_crit" /\
    exists ref label, reference self = Some (ref, "500_crit", label).
Proof.
  destruct (SOProperties.__init__ (mk_cellgrid 1 1) (inject_Z 500) "crit")
    as [e|self] eqn:E; [vm_compute in E; discriminate E|].
  exists self. split; [reflexivity|].
  destruct (name_is_SO_suffix (mk_cellgrid 1 1) 500 "crit" self ltac:(vm_compute; discriminate) E)
    as (ref & suffix & label & Href & Hname).
  assert (suffix = "500_crit") as ->.
  { vm_compute in E. injection E as <-. vm_compute in Href. by injection Href. }
  split; [exact Hname | eauto].
Defined.

(** ** Calls that raise *)

Lemma mapM_inl {A B} (f : A -> result B) (e : exn) (l : list A) :
  Forall (fun a => f a = inl e \/ exists b, f a = inr b) l ->
  Exists (fun a => f a = inl e) l ->
  mapM f l = inl e.
Proof.
  induction 1 as [|a l Ha _ IH]; intros Hex; [by apply Exists_nil in Hex|].
  simpl. destruct Ha as [->|[b Hb]]; [reflexivity|].
  rewrite Hb. simpl.
  apply Exists_cons in Hex as [Hex|Hex]; [congruence|].
  by rewrite IH.
Qed.

Lemma uconcatenate_cons {A} (a1 : unyt_array A) rest :
  (Forall (fun a => units a = units a1) rest /\
   uconcatenate (a1 :: rest)
   = inr (mk_unyt (concat (map value (a1 :: rest))) (units a1))) \/
  (Exists (fun a => units a <> units a1) rest /\
   uconcatenate (a1 :: rest)
   = inl (RuntimeError "Your arrays must have identical units.")).
Proof.
  unfold uconcatenate.
  destruct (forallb _ rest) eqn:E.
  - left. split; [|reflexivity].
    apply Is_true_eq_left, forallb_True in E. eapply Forall_impl; [exact E|].
    intros a Ha. simpl in Ha. by apply bool_decide_unpack in Ha.
  - right. split; [|reflexivity].
    apply not_Forall_Exists; [intros a; apply _|].
    intros Hall. apply not_true_iff_false in E. apply E.
    apply Is_true_eq_true, forallb_True. eapply Forall_impl; [exact Hall|].
    intros a Ha. simpl. by apply bool_decide_pack.
Qed.

Section Raising_calls.

Variable np_sqrt : Q -> Q.
Variable np_argsort : list Q -> list nat.

(** X3: a halo context without ["cofp"] makes [calculate] raise
    [KeyError] on that key; with the centre present, a data dict without
    any species makes the concatenation raise [ValueError].  In both cases
    [halo_result] is left as it was. *)
Theorem calculate_without_centre_or_species self input_halo data halo_result :
  (input_halo !! "cofp" = None ->
   calculate np_sqrt np_argsort self input_halo data halo_result
   = (inl (KeyError "cofp"), halo_result)) /\
  (is_Some (input_halo !! "cofp") ->
   calculate np_sqrt np_argsort self input_halo [] halo_result
   = (inl (ValueError "need at least one array to concatenate"), halo_result)).
Proof.
  unfold calculate, SO_items, map_get. split.
  - intros ->. reflexivity.
  - intros [cofp ->]. reflexivity.
Qed.

(** X4: when the loop over the species succeeds but one species delivers
    its masses, coordinates or velocities in units that are not those of
    the first species, [calculate] raises the [RuntimeError] of
    [uconcatenate] and leaves [halo_result] as it was: units are never
    converted silently. *)
Theorem calculate_unit_mismatch self input_halo data halo_result cofp first rest :
  input_halo !! "cofp" = Some cofp ->
  mapM (species_arrays np_sqrt (qvalue cofp) data) (dict_keys data)
    = inr (first :: rest) ->
  Exists (fun sp => units (p_mass sp) <> units (p_mass first) \/
                    units (p_radius sp) <> units (p_radius first) \/
                    units (p_position sp) <> units (p_position first) \/
                    units (p_velocity sp) <> units (p_velocity first)) rest ->
  calculate np_sqrt np_argsort self input_halo data halo_result
  = (inl (RuntimeError "Your arrays must have identical units."), halo_result).
Proof.
  intros Hcofp Hloop Hex.
  unfold calculate, SO_items, map_get. rewrite Hcofp. cbn [bind ret].
  unfold concatenate_particles. rewrite Hloop. cbn [bind map].
  destruct (uconcatenate_cons (p_mass first) (map p_mass rest))
    as [[Um ->]|[_ ->]]; [|reflexivity].
  cbn [bind].
  destruct (uconcatenate_cons (p_radius first) (map p_radius rest))
    as [[Ur ->]|[_ ->]]; [|reflexivity].
  cbn [bind].
  destruct (uconcatenate_cons (p_position first) (map p_position rest))
    as [[Up ->]|[_ ->]]; [|reflexivity].
  cbn [bind].
  destruct (uconcatenate_cons (p_velocity first) (map p_velocity rest))
    as [[Uv ->]|[_ ->]]; [|reflexivity].
  exfalso. rewrite Forall_fmap in Um. rewrite Forall_fmap in Ur.
  rewrite Forall_fmap in Up. rewrite Forall_fmap in Uv.
  rewrite Exists_exists in Hex. destruct Hex as (sp & Hin & Hsp).
  rewrite Forall_forall in Um. rewrite Forall_forall in Ur.
  rewrite Forall_forall in Up. rewrite Forall_forall in Uv.
  specialize (Um sp Hin). specialize (Ur sp Hin).
  specialize (Up sp Hin). specialize (Uv sp Hin). simpl in *. tauto.
Qed.

End Raising_calls.

Lemma calculate_without_centre_or_species_witness :
  calculate Qsqrt argsort SO_200_crit ∅ data_dm_halo ∅
  = (inl (KeyError "cofp"), ∅) /\
  calculate Qsqrt argsort SO_200_crit halo_at_origin [] ∅
  = (inl (ValueError "need at least one array to concatenate"), ∅).
Proof.
  split.
  - apply (proj1 (calculate_without_centre_or_species Qsqrt argsort SO_200_crit ∅
                    data_dm_halo ∅)).
    vm_compute. reflexivity.
  - apply (proj2 (calculate_without_centre_or_species Qsqrt argsort SO_200_crit
                    halo_at_origin [] ∅)).
    eexists. vm_compute. reflexivity.
Defined.

Lemma calculate_unit_mismatch_witness :
  calculate Qsqrt argsort SO_200_crit halo_at_origin data_mixed_units ∅
  = (inl (RuntimeError "Your arrays must have identical units."), ∅).
Proof.
  destruct (mapM (species_arrays Qsqrt (0, 0, 0) data_mixed_units)
                 (dict_keys data_mixed_units)) as [e|arrs] eqn:Hloop;
    [vm_compute in Hloop; discriminate Hloop|].
  pose proof Hloop as Hlit. vm_compute in Hlit. injection Hlit as Harrs.
  destruct arrs as [|first [|second rest]]; try discriminate Harrs.
  injection Harrs as Hfirst Hsecond Hrest.
  apply (calculate_unit_mismatch Qsqrt argsort SO_200_crit halo_at_origin
           data_mixed_units ∅ (mk_quantity (0, 0, 0) "Mpc") first (second :: rest)).
  - vm_compute. reflexivity.
  - exact Hloop.
  - apply Exists_cons_hd. left. rewrite <- Hfirst, <- Hsecond. discriminate.
Defined.

Lemma take_indices_inl {A} (a : list A) order :
  Exists (fun i => (length a <= i)%nat) order ->
  take_indices a order = inl (IndexError "index out of bounds").
Proof.
  intros Hex. unfold take_indices. apply mapM_inl.
  - apply Forall_forall. intros i _. destruct (a !! i); eauto.
  - eapply Exists_impl; [exact Hex|]. intros i Hi. simpl.
    by rewrite (proj2 (lookup_ge_None a i)).
Qed.

Section Short_masses.

Variable np_sqrt : Q -> Q.
Variable np_argsort : list Q -> list nat.
Hypothesis np_argsort_perm : forall a, np_argsort a ≡ₚ seq 0 (length a).

(** X5: when the species deliver fewer masses than coordinates, sorting
    the masses by the radius order indexes past the end of the mass array:
    [calculate] raises [IndexError] and leaves [halo_result] as it was. *)
Theorem calculate_short_masses self input_halo data halo_result cofp p :
  input_halo !! "cofp" = Some cofp ->
  concatenate_particles np_sqrt (qvalue cofp) data = inr p ->
  (length (value (p_mass p)) < length (value (p_radius p)))%nat ->
  calculate np_sqrt np_argsort self input_halo data halo_result
  = (inl (IndexError "index out of bounds"), halo_result).
Proof using np_argsort_perm.
  intros Hcofp Hp Hshort.
  unfold calculate, SO_items, map_get. rewrite Hcofp. cbn [bind ret].
  rewrite Hp. cbn [bind]. unfold density_profile.
  destruct (take_indices_ok (value (p_radius p)) (np_argsort (value (p_radius p))))
    as (sorted_radius & ->).
  { apply Forall_forall. intros i Hi. rewrite np_argsort_perm in Hi.
    apply elem_of_seq in Hi. lia. }
  cbn [bind]. rewrite take_indices_inl; [reflexivity|].
  apply Exists_exists. exists (length (value (p_mass p))). split; [|lia].
  rewrite np_argsort_perm. apply elem_of_seq. lia.
Qed.

End Short_masses.

Lemma calculate_short_masses_witness :
  calculate Qsqrt argsort SO_200_crit halo_at_origin data_short_masses ∅
  = (inl (IndexError "index out of bounds"), ∅).
Proof.
  destruct (concatenate_particles Qsqrt (0, 0, 0) data_short_masses)
    as [e|p] eqn:Hp; [vm_compute in Hp; discriminate Hp|].
  pose proof Hp as Hlit. vm_compute in Hlit. injection Hlit as Hlit.
  apply (calculate_short_masses Qsqrt argsort argsort_perm SO_200_crit
           halo_at_origin data_short_masses ∅ (mk_quantity (0, 0, 0) "Mpc") p).
  - vm_compute. reflexivity.
  - exact Hp.
  - rewrite <- Hlit. simpl. lia.
Defined.

(** ** The keys of [halo_result] *)

Lemma dict_update_is_Some {V} (items : list (string * V)) (d : gmap string V) k :
  is_Some (dict_update d items !! k) <-> is_Some (d !! k) \/ k ∈ map fst items.
Proof.
  revert d. induction items as [|[k' v] items IH]; intros d.
  - simpl. rewrite elem_of_nil. tauto.
  - change (dict_update d ((k', v) :: items))
      with (dict_update (<[k':=v]> d) items).
    rewrite IH. simpl. rewrite elem_of_cons, lookup_insert_is_Some.
    destruct (decide (k' = k)) as [->|Hne]; [tauto|]. split.
    + intros [[?|[_ ?]]|?]; auto; congruence.
    + intros [?|[?|?]]; auto; congruence.
Qed.

Lemma dict_update_twice {V} (items : list (string * V)) (d : gmap string V) :
  NoDup (map fst items) ->
  dict_update (dict_update d items) items = dict_update d items.
Proof.
  intros Hnd. apply map_eq. intros k.
  destruct (decide (k ∈ map fst items)) as [Hin|Hnin].
  - apply list_elem_of_fmap in Hin as ([k' v] & -> & Hin). simpl.
    by rewrite !(dict_update_lookup items _ k' v).
  - by rewrite dict_update_lookup_ne.
Qed.

Lemma dict_update_commute {V} (items1 items2 : list (string * V))
      (d : gmap string V) :
  NoDup (map fst items1) -> NoDup (map fst items2) ->
  (forall k, k ∈ map fst items1 -> k ∉ map fst items2) ->
  dict_update (dict_update d items1) items2
  = dict_update (dict_update d items2) items1.
Proof.
  intros Hnd1 Hnd2 Hdisj. apply map_eq. intros k.
  destruct (decide (k ∈ map fst items1)) as [Hin1|Hnin1].
  - pose proof (Hdisj k Hin1) as Hnin2.
    apply list_elem_of_fmap in Hin1 as ([k' v] & -> & Hin1). simpl in *.
    rewrite dict_update_lookup_ne by done.
    by rewrite !(dict_update_lookup items1 _ k' v).
  - rewrite (dict_update_lookup_ne items1 (dict_update d items2)) by done.
    destruct (decide (k ∈ map fst items2)) as [Hin2|Hnin2].
    + apply list_elem_of_fmap in Hin2 as ([k' v] & -> & Hin2). simpl in *.
      by rewrite !(dict_update_lookup items2 _ k' v).
    + by rewrite !dict_update_lookup_ne.
Qed.

Lemma result_keys_disjoint name1 name2 key :
  name1 <> name2 -> key ∈ result_keys name1 -> key ∉ result_keys name2.
Proof.
  intros Hne H1 H2. unfold result_keys in H1, H2. simpl in H1, H2.
  rewrite !elem_of_cons, elem_of_nil in H1.
  rewrite !elem_of_cons, elem_of_nil in H2.
  repeat (destruct H1 as [H1|H1]; [|]); try done;
    subst key;
    repeat (destruct H2 as [H2|H2]; [|]); try done;
    simpl in H2; simplify_eq.
Qed.

Section Result_keys.

Variable np_sqrt : Q -> Q.
Variable np_argsort : list Q -> list nat.

(** X6: after a call that returns, the keys of [halo_result] are the keys
    it had before together with the fifteen result keys of the
    calculator: every result is stored, and no other key appears. *)
Theorem calculate_keys self input_halo data halo_result halo_result'
        ref name label :
  calculate np_sqrt np_argsort self input_halo data halo_result
    = (inr tt, halo_result') ->
  reference self = Some (ref, name, label) ->
  dom halo_result' = dom halo_result ∪ list_to_set (result_keys name).
Proof.
  intros Hc Href.
  apply calculate_inr in Hc as (items & Hitems & ->).
  apply SO_items_inr in Hitems
    as (?&?&?&ref'&name'&label'&mSO&rSO&?&?&?&?&?&a&_&_&_&Href'&_&_&_&_&_&_&_&->).
  rewrite Href in Href'. injection Href' as <- <- <-.
  apply set_eq. intros k.
  rewrite elem_of_union, !elem_of_dom, elem_of_list_to_set,
    dict_update_is_Some, result_items_keys.
  reflexivity.
Qed.

(** X7: calling [calculate] again with the same inputs on the dict that
    the first call left gives the outcome and the dict of the first call:
    the update overwrites its own keys with the same values. *)
Theorem calculate_twice self input_halo data halo_result :
  calculate np_sqrt np_argsort self input_halo data
            (calculate np_sqrt np_argsort self input_halo data halo_result).2
  = calculate np_sqrt np_argsort self input_halo data halo_result.
Proof.
  unfold calculate.
  destruct (SO_items _ _ _ _ _) as [e|items] eqn:E; simpl; [reflexivity|].
  f_equal. apply dict_update_twice.
  apply SO_items_inr in E
    as (?&?&?&?&?&?&?&?&?&?&?&?&?&?&_&_&_&_&_&_&_&_&_&_&_&->).
  rewrite result_items_keys. apply result_keys_NoDup.
Qed.

(** X8: two calculators whose key suffixes differ never touch each
    other's results: a call of the second leaves the fifteen keys of the
    first as they were, and the dict after both calls does not depend on
    the order of the calls. *)
Theorem calculators_do_not_interfere self1 self2 input_halo data halo_result
        ref1 name1 label1 ref2 name2 label2 :
  reference self1 = Some (ref1, name1, label1) ->
  reference self2 = Some (ref2, name2, label2) ->
  name1 <> name2 ->
  (forall key,
      key ∈ result_keys name1 ->
      (calculate np_sqrt np_argsort self2 input_halo data halo_result).2 !! key
      = halo_result !! key) /\
  (calculate np_sqrt np_argsort self2 input_halo data
             (calculate np_sqrt np_argsort self1 input_halo data halo_result).2).2
  = (calculate np_sqrt np_argsort self1 input_halo data
               (calculate np_sqrt np_argsort self2 input_halo data halo_result).2).2.
Proof.
  intros Href1 Href2 Hne.
  assert (Hitems : forall self ref name label,
             reference self = Some (ref, name, label) ->
             forall items,
               SO_items np_sqrt np_argsort self input_halo data = inr items ->
               map fst items = result_keys name).
  { intros self ref name label Href items E.
    apply SO_items_inr in E
      as (?&?&?&ref'&name'&label'&?&?&?&?&?&?&?&?&_&_&_&Href'&_&_&_&_&_&_&_&->).
    rewrite Href in Href'. injection Href' as <- <- <-.
    apply result_items_keys. }
  unfold calculate.
  destruct (SO_items np_sqrt np_argsort self1 input_halo data)
    as [e1|items1] eqn:E1;
    destruct (SO_items np_sqrt np_argsort self2 input_halo data)
      as [e2|items2] eqn:E2; simpl; try (split; reflexivity).
  - split; [|reflexivity]. intros key Hkey.
    apply dict_update_lookup_ne.
    rewrite (Hitems _ _ _ _ Href2 _ E2).
    by apply (result_keys_disjoint name1 name2).
  - pose proof (Hitems _ _ _ _ Href1 _ E1) as K1.
    pose proof (Hitems _ _ _ _ Href2 _ E2) as K2.
    split.
    + intros key Hkey. apply dict_update_lookup_ne. rewrite K2.
      by apply (result_keys_disjoint name1 name2).
    + apply dict_update_commute.
      * rewrite K1. apply result_keys_NoDup.
      * rewrite K2. apply result_keys_NoDup.
      * intros k. rewrite K1, K2. by apply result_keys_disjoint.
Qed.

End Result_keys.

Lemma calculate_keys_witness :
  dom (calculate Qsqrt argsort SO_200_crit halo_at_origin data_dm_halo ∅).2
  = dom (∅ : gmap string (result_value * string))
      ∪ list_to_set (result_keys "200_crit").
Proof.
  apply (calculate_keys Qsqrt argsort SO_200_crit halo_at_origin data_dm_halo ∅
           _ (200 * (1 # 10000)) "200_crit" label_200_crit).
  - apply calculate_returns_pair. vm_compute. reflexivity.
  - reflexivity.
Defined.

Lemma calculators_do_not_interfere_witness :
  (forall key,
      key ∈ result_keys "200_crit" ->
      (calculate Qsqrt argsort SO_200_mean halo_at_origin data_dm_halo
                 (calculate Qsqrt argsort SO_200_crit halo_at_origin
                            data_dm_halo ∅).2).2 !! key
      = (calculate Qsqrt argsort SO_200_crit halo_at_origin data_dm_halo ∅).2
          !! key) /\
  (calculate Qsqrt argsort SO_200_mean halo_at_origin data_dm_halo
             (calculate Qsqrt argsort SO_200_crit halo_at_origin
                        data_dm_halo ∅).2).2
  = (calculate Qsqrt argsort SO_200_crit halo_at_origin data_dm_halo
               (calculate Qsqrt argsort SO_200_mean halo_at_origin
                          data_dm_halo ∅).2).2.
Proof.
  split.
  - apply (proj1 (calculators_do_not_interfere Qsqrt argsort
                    SO_200_crit SO_200_mean halo_at_origin data_dm_halo
                    (calculate Qsqrt argsort SO_200_crit halo_at_origin
                               data_dm_halo ∅).2
                    _ "200_crit" _ _ "200_mean" _
                    eq_refl eq_refl ltac:(discriminate))).
  - apply (proj2 (calculators_do_not_interfere Qsqrt argsort
                    SO_200_crit SO_200_mean halo_at_origin data_dm_halo ∅
                    _ "200_crit" _ _ "200_mean" _
                    eq_refl eq_refl ltac:(discriminate))).
Defined.

(** ** A halo without SO radius *)

Section No_SO_radius.

Variable np_sqrt : Q -> Q.
Variable np_argsort : list Q -> list nat.

Lemma particle_profile_inv input_halo data p prof :
  particle_profile np_sqrt np_argsort input_halo data = inr (p, prof) ->
  exists cofp,
    input_halo !! "cofp" = Some cofp /\
    concatenate_particles np_sqrt (qvalue cofp) data = inr p /\
    density_profile np_argsort (value (p_radius p)) (value (p_mass p)) = inr prof.
Proof.
  unfold particle_profile. intros H.
  apply bind_inr in H as (cofp & Hcofp & H). apply map_get_inr in Hcofp.
  apply bind_inr in H as (p' & Hp & H).
  apply bind_inr in H as (prof' & Hprof & H).
  inversion H; subst. eauto.
Qed.

Lemma SO_items_never_above self input_halo data p prof ref name label
      gas Tgas Xray_lum Xray_phlum compY :
  particle_profile np_sqrt np_argsort input_halo data = inr (p, prof) ->
  reference self = Some (ref, name, label) ->
  dict_get data "PartType0" = inr gas ->
  get_scalar gas "Temperatures" = inr Tgas ->
  get_scalar gas "XrayLuminosities" = inr Xray_lum ->
  get_scalar gas "XrayPhotonLuminosities" = inr Xray_phlum ->
  get_scalar gas "ComptonYParameters" = inr compY ->
  Forall (fun d => ~ ref < d) (density prof) ->
  SO_items np_sqrt np_argsort self input_halo data
  = inr (result_items name label
           (mk_quantity 0 (units (p_radius p)))
           (mk_quantity 0 (units (p_mass p)))
           (aggregate_zero p (mk_quantity 0 (units (p_mass p)))
                           Tgas Xray_lum Xray_phlum compY)).
Proof.
  intros Hpp Href Hgas HT HX HXp HY Hnever.
  apply particle_profile_inv in Hpp as (cofp & Hcofp & Hp & Hprof).
  unfold SO_items, map_get. rewrite Hcofp. cbn [bind ret].
  rewrite Hp. cbn [bind ret]. rewrite Hprof. cbn [bind ret].
  rewrite Href. cbn [fmap option_fmap option_map fst snd].
  rewrite find_SO_never_above by done. cbn [bind ret fst snd].
  rewrite Hgas. cbn [bind ret]. rewrite HT, HX, HXp, HY. cbn [bind ret].
  reflexivity.
Qed.

(** X9: when no entry of the density profile exceeds the reference
    density, [calculate] returns without reading the star and black hole
    datasets, and it stores zero for every aggregate: the centre of mass
    is the zero vector in the units of the radii and not the halo centre,
    and the initial stellar mass and the sub-grid black hole mass carry
    the units of the particle masses. *)
Theorem calculate_without_SO_radius self input_halo data halo_result
        p prof ref name label gas Tgas Xray_lum Xray_phlum compY :
  particle_profile np_sqrt np_argsort input_halo data = inr (p, prof) ->
  reference self = Some (ref, name, label) ->
  dict_get data "PartType0" = inr gas ->
  get_scalar gas "Temperatures" = inr Tgas ->
  get_scalar gas "XrayLuminosities" = inr Xray_lum ->
  get_scalar gas "XrayPhotonLuminosities" = inr Xray_phlum ->
  get_scalar gas "ComptonYParameters" = inr compY ->
  Forall (fun d => ~ ref < d) (density prof) ->
  let out := calculate np_sqrt np_argsort self input_halo data halo_result in
  let zero_mass := Scalar (mk_quantity 0 (units (p_mass p))) in
  out.1 = inr tt /\
  Forall (fun kv => fst <$> out.2 !! (kv.1 +:+ name) = Some kv.2)
    [ ("com_", Vector (mk_quantity (0, 0, 0) (units (p_radius p))));
      ("vcom_", Vector (mk_quantity (0, 0, 0) (units (p_velocity p))));
      ("Mgas_", zero_mass);
      ("Mdm_", zero_mass);
      ("Mstar_", zero_mass);
      ("MBHdyn_", zero_mass);
      ("Mstarinit_", zero_mass);
      ("MBHsub_", zero_mass);
      ("Mhotgas_", zero_mass);
      ("Tgas_", Scalar (mk_quantity 0 (units Tgas)));
      ("Xraylum_", Scalar (mk_quantity 0 (units Xray_lum)));
      ("Xrayphlum_", Scalar (mk_quantity 0 (units Xray_phlum)));
      ("compY_", Scalar (mk_quantity 0 (units compY))) ].
Proof.
  intros Hpp Href Hgas HT HX HXp HY Hnever out zero_mass.
  pose proof (SO_items_never_above _ _ _ _ _ _ _ _ _ _ _ _ _
                Hpp Href Hgas HT HX HXp HY Hnever) as Hitems.
  assert (out = (inr tt, out.2)) as Hout.
  { subst out. unfold calculate. by rewrite Hitems. }
  split; [subst out; unfold calculate; by rewrite Hitems|].
  repeat apply Forall_cons_2; try apply Forall_nil_2; cbn [fst snd];
    (match goal with
     | |- fst <$> ?x = Some ?v =>
         enough (exists d, x = Some (v, d)) as [d ->] by reflexivity
     end;
     eexists;
     apply (calculate_lookup _ _ _ _ _ _ _ _ _ _ _ _ _ _ Hout Hitems);
     in_result_items).
Qed.

End No_SO_radius.

Lemma calculate_without_SO_radius_witness :
  let out :=
    calculate Qsqrt argsort SO_200_crit_dense halo_at_origin data_gas_only ∅ in
  let zero_mass := Scalar (mk_quantity 0 "Msun") in
  out.1 = inr tt /\
  Forall (fun kv => fst <$> out.2 !! (kv.1 +:+ "200_crit") = Some kv.2)
    [ ("com_", Vector (mk_quantity (0, 0, 0) "Mpc"));
      ("vcom_", Vector (mk_quantity (0, 0, 0) "km/s"));
      ("Mgas_", zero_mass);
      ("Mdm_", zero_mass);
      ("Mstar_", zero_mass);
      ("MBHdyn_", zero_mass);
      ("Mstarinit_", zero_mass);
      ("MBHsub_", zero_mass);
      ("Mhotgas_", zero_mass);
      ("Tgas_", Scalar (mk_quantity 0 "K"));
      ("Xraylum_", Scalar (mk_quantity 0 "erg/s"));
      ("Xrayphlum_", Scalar (mk_quantity 0 "1/s"));
      ("compY_", Scalar (mk_quantity 0 "Mpc**2")) ].
Proof.
  intros out zero_mass.
  run_profile halo_at_origin data_gas_only p prof Hpp Hp Hprof.
  subst zero_mass.
  replace "Mpc" with (units (p_radius p)) by (by rewrite <- Hp).
  replace "Msun" with (units (p_mass p)) by (by rewrite <- Hp).
  replace "km/s" with (units (p_velocity p)) by (by rewrite <- Hp).
  apply (calculate_without_SO_radius Qsqrt argsort SO_200_crit_dense
           halo_at_origin data_gas_only ∅ p prof 200 "200_crit" label_200_crit
           gas_two
           (mk_unyt [10000; 1000000] "K") (mk_unyt [1; 1] "erg/s")
           (mk_unyt [1; 1] "1/s") (mk_unyt [1; 1] "Mpc**2")
           Hpp eq_refl eq_refl eq_refl eq_refl eq_refl eq_refl).
  rewrite <- Hprof. repeat constructor; unfold Qlt; simpl; lia.
Defined.

(** ** Order and size of the profile *)

Lemma Qsum_Permutation (l l' : list Q) : l ≡ₚ l' -> Qsum l == Qsum l'.
Proof.
  unfold Qsum. induction 1 as [|x l l' _ IH|x y l|l1 l2 l3 _ IH1 _ IH2]; simpl.
  - reflexivity.
  - by rewrite IH.
  - lra.
  - by rewrite IH1.
Qed.

Lemma map_nth_seq (a : list Q) :
  map (fun i => nth i a 0) (seq 0 (length a)) = a.
Proof.
  apply list_eq. intros k. rewrite list_lookup_fmap.
  destruct (decide (k < length a)%nat) as [Hk|Hk].
  - rewrite lookup_seq_lt by done. simpl.
    destruct (lookup_lt_is_Some_2 a k Hk) as [x Hx].
    by rewrite Hx, (nth_lookup_Some _ _ _ _ Hx).
  - rewrite lookup_seq_ge by lia. simpl.
    by rewrite (proj2 (lookup_ge_None a k)) by lia.
Qed.

Lemma take_indices_Permutation (a : list Q) order l :
  Forall2 (fun i x => a !! i = Some x) order l ->
  order ≡ₚ seq 0 (length a) ->
  l ≡ₚ a.
Proof.
  intros H Hperm. rewrite (take_indices_nth _ _ _ H).
  transitivity (map (fun i => nth i a 0) (seq 0 (length a))).
  - by apply Permutation_map.
  - by rewrite map_nth_seq.
Qed.

Lemma cumsum_from_sorted acc (l : list Q) :
  Forall (fun m => 0 <= m) l ->
  Forall (fun c => acc <= c) (cumsum_from acc l) /\
  StronglySorted Qle (cumsum_from acc l).
Proof.
  intros H. revert acc. induction H as [|x l Hx _ IH]; intros acc; simpl.
  - split; constructor.
  - destruct (IH (acc + x)) as [Hall Hs]. split.
    + constructor; [lra|]. eapply Forall_impl; [exact Hall|].
      intros c Hc. simpl in Hc. lra.
    + by constructor.
Qed.

Lemma StronglySorted_drop {A} (R : A -> A -> Prop) n (l : list A) :
  StronglySorted R l -> StronglySorted R (drop n l).
Proof.
  intros H. revert n. induction H as [|x l Hs IH Hall]; intros [|n]; simpl;
    try constructor; auto.
Qed.

Lemma filter_nonzero_all_zero (l : list Q) :
  Forall (fun r => r == 0) l ->
  List.filter (fun r => negb (Qeq_bool r 0)) l = [].
Proof.
  induction 1 as [|r l Hr _ IH]; simpl; [done|].
  by rewrite (proj2 (Qeq_bool_iff r 0) Hr).
Qed.

Lemma filter_nonzero_all_positive (l : list Q) :
  Forall (fun r => 0 < r) l ->
  List.filter (fun r => negb (Qeq_bool r 0)) l = l.
Proof.
  induction 1 as [|r l Hr _ IH]; simpl; [done|].
  destruct (Qeq_bool r 0) eqn:E; simpl.
  - apply Qeq_bool_iff in E. lra.
  - by rewrite IH.
Qed.

Lemma filter_length_Permutation {A} (f : A -> bool) (l l' : list A) :
  l ≡ₚ l' -> length (List.filter f l) = length (List.filter f l').
Proof.
  induction 1 as [|x l l' _ IH|x y l|l1 l2 l3 _ IH1 _ IH2]; simpl.
  - reflexivity.
  - destruct (f x); simpl; by rewrite IH.
  - destruct (f x), (f y); reflexivity.
  - by rewrite IH1.
Qed.

Section Profile_order.

Variable np_sqrt : Q -> Q.
Variable np_argsort : list Q -> list nat.
Hypothesis np_sqrt_nonneg : forall x, 0 <= np_sqrt x.
Hypothesis np_argsort_perm : forall a, np_argsort a ≡ₚ seq 0 (length a).
Hypothesis np_argsort_sorted : forall a, StronglySorted (key_le a) (np_argsort a).

(** The sorted arrays behind a profile: sorted by radius, a permutation of
    the input, with the zero radii in front. *)
Lemma profile_sorted_arrays input_halo data p prof :
  particle_profile np_sqrt np_argsort input_halo data = inr (p, prof) ->
  exists sorted_radius sorted_mass,
    let nskip := count_zero_prefix sorted_radius in
    ordered_radius prof = drop nskip sorted_radius /\
    cumulative_mass prof = drop nskip (cumsum sorted_mass) /\
    density prof = zip_with (fun m r => m / (4 / 3 * np_pi * r ^ 3))
                            (cumulative_mass prof) (ordered_radius prof) /\
    length sorted_mass = length sorted_radius /\
    sorted_radius ≡ₚ value (p_radius p) /\
    (length (value (p_mass p)) = length (value (p_radius p)) ->
     sorted_mass ≡ₚ value (p_mass p)) /\
    (forall P, Forall P (value (p_mass p)) -> Forall P sorted_mass) /\
    StronglySorted Qle sorted_radius /\
    Forall (fun r => r == 0) (take nskip sorted_radius) /\
    Forall (fun r => 0 < r) (ordered_radius prof).
Proof using np_sqrt_nonneg np_argsort_perm np_argsort_sorted.
  intros Hpp.
  apply particle_profile_inv in Hpp as (cofp & _ & Hp & Hprof).
  apply density_profile_inr in Hprof
    as (sorted_radius & sorted_mass & Hsr & Hsm & Hor & Hcm & Hd).
  apply take_indices_inr in Hsr, Hsm.
  assert (Hsorted : StronglySorted Qle sorted_radius).
  { eapply StronglySorted_take_indices; [exact Hsr|]. apply np_argsort_sorted. }
  assert (Hnonneg : Forall (fun r => 0 <= r) sorted_radius).
  { eapply Forall_take_indices; [exact Hsr|]. by eapply radius_nonneg. }
  destruct (count_zero_prefix_spec _ Hnonneg Hsorted) as [Hzero Hpos].
  exists sorted_radius, sorted_mass. cbn zeta.
  split; [exact Hor|]. split; [exact Hcm|]. split; [exact Hd|].
  split; [by rewrite <- (Forall2_length _ _ _ Hsr), <- (Forall2_length _ _ _ Hsm)|].
  split; [eapply take_indices_Permutation; [exact Hsr|apply np_argsort_perm]|].
  split.
  { intros Hlen. eapply take_indices_Permutation; [exact Hsm|].
    rewrite Hlen. apply np_argsort_perm. }
  split; [intros P HP; by eapply Forall_take_indices|].
  split; [exact Hsorted|]. split; [exact Hzero|].
  cbn zeta in Hor. by rewrite Hor.
Qed.

(** X10: the radii of the profile increase, and the last cumulative mass
    is the mass of all the particles read in, those at zero radius
    included; when no particle mass is negative, the cumulative masses
    increase as well, and no density of the profile is negative. *)
Theorem profile_is_ordered input_halo data p prof :
  particle_profile np_sqrt np_argsort input_halo data = inr (p, prof) ->
  StronglySorted Qle (ordered_radius prof) /\
  (forall c,
      length (value (p_mass p)) = length (value (p_radius p)) ->
      last (cumulative_mass prof) = Some c -> c == Qsum (value (p_mass p))) /\
  (Forall (fun m => 0 <= m) (value (p_mass p)) ->
   StronglySorted Qle (cumulative_mass prof) /\
   Forall (fun d => 0 <= d) (density prof)).
Proof using np_sqrt_nonneg np_argsort_perm np_argsort_sorted.
  intros Hpp.
  destruct (profile_sorted_arrays _ _ _ _ Hpp)
    as (sr & sm & Hor & Hcm & Hd & Hlen & Hpr & Hpm & Hall & Hsorted & _ & Hpos).
  cbn zeta in *. split; [|split].
  - rewrite Hor. by apply StronglySorted_drop.
  - intros c Hlen' Hlast. rewrite last_lookup, Hcm, lookup_drop in Hlast.
    pose proof (lookup_lt_Some _ _ _ Hlast) as Hlt.
    unfold cumsum in Hlt. rewrite length_cumsum_from in Hlt.
    apply cumsum_from_lookup in Hlast.
    rewrite length_drop in Hlast, Hlt. unfold cumsum in Hlast, Hlt.
    rewrite length_cumsum_from in Hlast, Hlt.
    rewrite firstn_all2 in Hlast by lia.
    rewrite Hlast, (Qsum_Permutation _ _ (Hpm Hlen')). lra.
  - intros Hmass. pose proof (Hall _ Hmass) as Hsm.
    destruct (cumsum_from_sorted 0 sm Hsm) as [Hcnonneg Hcsorted].
    assert (Forall (fun c => 0 <= c) (cumulative_mass prof)) as Hcm0.
    { rewrite Hcm. by apply Forall_drop. }
    split; [rewrite Hcm; by apply StronglySorted_drop|].
    rewrite Hd. clear Hd Hor Hcm.
    revert Hpos. generalize (ordered_radius prof).
    induction Hcm0 as [|c cs Hc _ IH]; intros [|r rs] Hrs; simpl;
      try constructor.
    + apply Forall_cons in Hrs as [Hr _].
      assert (0 < np_pi) by reflexivity.
      assert (0 < r ^ 3) by (simpl; repeat apply Qmult_lt_0_compat; done).
      assert (0 < 4 / 3 * np_pi * r ^ 3).
      { apply Qmult_lt_0_compat; [|done].
        apply Qmult_lt_0_compat; [reflexivity|done]. }
      apply Qle_shift_div_l; [done|]. lra.
    + apply IH. by apply Forall_cons in Hrs as [_ Hrs].
Qed.

(** X11: the profile has one entry for each particle read in whose radius
    is not zero. *)
Theorem profile_length input_halo data p prof :
  particle_profile np_sqrt np_argsort input_halo data = inr (p, prof) ->
  length (ordered_radius prof)
  = length (List.filter (fun r => negb (Qeq_bool r 0)) (value (p_radius p))).
Proof using np_sqrt_nonneg np_argsort_perm np_argsort_sorted.
  intros Hpp.
  destruct (profile_sorted_arrays _ _ _ _ Hpp)
    as (sr & sm & Hor & _ & _ & _ & Hpr & _ & _ & _ & Hzero & Hpos).
  cbn zeta in *.
  rewrite <- (filter_length_Permutation _ _ _ Hpr).
  rewrite <- (take_drop (count_zero_prefix sr) sr) at 1.
  rewrite List.filter_app, filter_nonzero_all_zero by done.
  rewrite <- Hor, filter_nonzero_all_positive by done. reflexivity.
Qed.

End Profile_order.

Lemma profile_is_ordered_witness :
  exists p prof,
    particle_profile Qsqrt argsort halo_at_origin data_centred = inr (p, prof) /\
    value (p_mass p) = [1; 7; 1] /\
    cumulative_mass prof = [8; 9] /\
    StronglySorted Qle (ordered_radius prof) /\
    (forall c, last (cumulative_mass prof) = Some c -> c == Qsum (value (p_mass p))) /\
    StronglySorted Qle (cumulative_mass prof) /\
    Forall (fun d => 0 <= d) (density prof).
Proof.
  destruct (particle_profile Qsqrt argsort halo_at_origin data_centred)
    as [e|[p prof]] eqn:Hpp; [vm_compute in Hpp; discriminate Hpp|].
  exists p, prof. split; [reflexivity|].
  pose proof Hpp as Hlit. vm_compute in Hlit. injection Hlit as Hp Hprof.
  split; [by rewrite <- Hp|]. split; [by rewrite <- Hprof|].
  destruct (profile_is_ordered Qsqrt argsort Qsqrt_nonneg argsort_perm
              argsort_sorted halo_at_origin data_centred p prof Hpp)
    as (Hradii & Hlast & Hmass).
  assert (length (value (p_mass p)) = length (value (p_radius p))) as Hlen
    by (by rewrite <- Hp).
  assert (Forall (fun m => 0 <= m) (value (p_mass p))) as Hnonneg.
  { rewrite <- Hp. repeat constructor; unfold Qle; simpl; lia. }
  destruct (Hmass Hnonneg) as [Hcum Hdens].
  split; [exact Hradii|]. split; [intros c; exact (Hlast c Hlen)|].
  split; [exact Hcum | exact Hdens].
Defined.

Lemma profile_length_witness :
  exists p prof,
    particle_profile Qsqrt argsort halo_at_origin data_centred = inr (p, prof) /\
    value (p_radius p) = [1; 0; 2] /\
    length (ordered_radius prof) = 2%nat.
Proof.
  destruct (particle_profile Qsqrt argsort halo_at_origin data_centred)
    as [e|[p prof]] eqn:Hpp; [vm_compute in Hpp; discriminate Hpp|].
  exists p, prof. split; [reflexivity|].
  pose proof Hpp as Hlit. vm_compute in Hlit. injection Hlit as Hp Hprof.
  split; [by rewrite <- Hp|].
  rewrite (profile_length Qsqrt argsort Qsqrt_nonneg argsort_perm argsort_sorted
             halo_at_origin data_centred p prof Hpp).
  by rewrite <- Hp.
Defined.

(** ** The threshold search *)

Lemma find_SO_reached prof ref mass_units radius_units mSO rSO :
  find_SO prof (Some ref) mass_units radius_units = inr (mSO, rSO) ->
  length (density prof) = length (ordered_radius prof) ->
  Exists (fun d => ref < d) (density prof) ->
  let i := np_argmax (lt_mask (density prof) ref) in
  exists m r,
    cumulative_mass prof !! i = Some m /\ ordered_radius prof !! i = Some r /\
    mSO = mk_quantity m mass_units /\ rSO = mk_quantity r radius_units.
Proof.
  intros H Hlen Hex. unfold find_SO in H.
  rewrite bool_decide_eq_true_2 in H.
  2:{ rewrite <- Hlen. destruct Hex; simpl; lia. }
  simpl in H. rewrite np_any_true in H.
  2:{ unfold gt_mask. apply Exists_fmap. eapply Exists_impl; [exact Hex|].
      intros d Hd. simpl. by apply Qgtb_gt. }
  apply bind_inr in H as (m & Hm & H). apply bind_inr in H as (r & Hr & H).
  inversion H; subst. apply getitem_inr in Hm, Hr.
  intros i. exists m, r. auto.
Qed.

Lemma above_dec (ref d : Q) : {ref < d} + {~ ref < d}.
Proof. destruct (Qlt_le_dec ref d) as [H|H]; [by left | right; lra]. Qed.

Section Threshold.

Variable np_sqrt : Q -> Q.
Variable np_argsort : list Q -> list nat.

(** X12: when some density of the profile exceeds the reference density
    and none lies below it, [np.argmax] of the all-[False] array is 0, so
    that [calculate] stores the innermost radius of the profile and the
    cumulative mass at that radius. *)
Theorem SO_at_innermost_without_crossing self input_halo data halo_result
        halo_result' p prof ref name label :
  calculate np_sqrt np_argsort self input_halo data halo_result
    = (inr tt, halo_result') ->
  particle_profile np_sqrt np_argsort input_halo data = inr (p, prof) ->
  reference self = Some (ref, name, label) ->
  Exists (fun d => ref < d) (density prof) ->
  Forall (fun d => ~ d < ref) (density prof) ->
  exists r m,
    head (ordered_radius prof) = Some r /\
    head (cumulative_mass prof) = Some m /\
    halo_result' !! ("r_" +:+ name)
      = Some (Scalar (mk_quantity r (units (p_radius p))), "Radius " +:+ label) /\
    halo_result' !! ("m_" +:+ name)
      = Some (Scalar (mk_quantity m (units (p_mass p))),
              "Mass within a sphere " +:+ label).
Proof.
  intros Hc Hpp Href Hex Hnone.
  destruct (calculate_inr_profile _ _ _ _ _ _ _ _ _ _ _ _ Hc Hpp Href)
    as (cofp & mSO & rSO & gas & Tgas & Xl & Xp & cY & a & _ & _ & Hprof & HSO
        & _ & _ & _ & Hitems).
  destruct (density_profile_lengths _ _ _ _ Hprof) as [_ Hlen].
  destruct (find_SO_reached _ _ _ _ _ _ HSO Hlen Hex) as (m & r & Hm & Hr & -> & ->).
  rewrite np_argmax_none_below in Hm, Hr by done.
  exists r, m. rewrite !head_lookup.
  split; [exact Hr|]. split; [exact Hm|].
  split; eapply calculate_lookup; eauto; in_result_items.
Qed.

Hypothesis np_sqrt_nonneg : forall x, 0 <= np_sqrt x.
Hypothesis np_argsort_perm : forall a, np_argsort a ≡ₚ seq 0 (length a).
Hypothesis np_argsort_sorted : forall a, StronglySorted (key_le a) (np_argsort a).

(** X13: the SO radius stored by a call that returns is positive exactly
    when some density of the profile exceeds the reference density, and
    it is never negative; the aggregates are therefore computed from the
    particles exactly when the threshold is reached. *)
Theorem SO_radius_positive_iff_reached self input_halo data halo_result
        halo_result' p prof ref name label rSO description :
  calculate np_sqrt np_argsort self input_halo data halo_result
    = (inr tt, halo_result') ->
  particle_profile np_sqrt np_argsort input_halo data = inr (p, prof) ->
  reference self = Some (ref, name, label) ->
  halo_result' !! ("r_" +:+ name) = Some (Scalar rSO, description) ->
  0 <= qvalue rSO /\
  (0 < qvalue rSO <-> Exists (fun d => ref < d) (density prof)).
Proof using np_sqrt_nonneg np_argsort_perm np_argsort_sorted.
  intros Hc Hpp Href Hr.
  destruct (calculate_inr_profile _ _ _ _ _ _ _ _ _ _ _ _ Hc Hpp Href)
    as (cofp & mSO & rSO' & gas & Tgas & Xl & Xp & cY & a & _ & _ & Hprof & HSO
        & _ & _ & _ & Hitems).
  assert (rSO' = rSO) as ->.
  { assert (halo_result' !! ("r_" +:+ name)
            = Some (Scalar rSO', "Radius " +:+ label)) as Hr'.
    { eapply calculate_lookup; eauto. in_result_items. }
    rewrite Hr in Hr'. by injection Hr'. }
  destruct (density_profile_lengths _ _ _ _ Hprof) as [_ Hlen].
  destruct (profile_sorted_arrays np_sqrt np_argsort np_sqrt_nonneg
              np_argsort_perm np_argsort_sorted _ _ _ _ Hpp)
    as (sr & sm & _ & _ & _ & _ & _ & _ & _ & _ & _ & Hpos).
  assert (Exists (fun d => ref < d) (density prof) -> 0 < qvalue rSO) as Hreached.
  { intros Hex.
    destruct (find_SO_reached _ _ _ _ _ _ HSO Hlen Hex) as (m & r & _ & Hri & _ & ->).
    simpl. exact (Forall_lookup_1 _ _ _ _ Hpos Hri). }
  assert (~ Exists (fun d => ref < d) (density prof) -> qvalue rSO = 0) as Hnot.
  { intros Hnex. apply Forall_Exists_neg in Hnex.
    rewrite find_SO_never_above in HSO by done. by injection HSO as _ <-. }
  destruct (List.Exists_dec (fun d => ref < d) (density prof) (above_dec ref))
    as [Hex|Hnex].
  - pose proof (Hreached Hex). split; [lra|]. split; auto.
  - rewrite (Hnot Hnex). split; [lra|]. split; [|done].
    intros H0. by apply Qlt_irrefl in H0.
Qed.

End Threshold.

Lemma SO_at_innermost_without_crossing_witness :
  let halo_result' :=
    (calculate Qsqrt argsort SO_200_crit_sparse halo_at_origin data_dm_halo ∅).2 in
  halo_result' !! "r_200_crit"
    = Some (Scalar (mk_quantity 1 "Mpc"), "Radius " +:+ label_200_crit) /\
  halo_result' !! "m_200_crit"
    = Some (Scalar (mk_quantity 1 "Msun"), "Mass within a sphere " +:+ label_200_crit).
Proof.
  intros halo_result'.
  run_profile halo_at_origin data_dm_halo p prof Hpp Hp Hprof.
  destruct (SO_at_innermost_without_crossing Qsqrt argsort SO_200_crit_sparse
              halo_at_origin data_dm_halo ∅ halo_result' p prof
              (200 # 1000000000) "200_crit" label_200_crit)
    as (r & m & Hr & Hm & H1 & H2).
  - apply calculate_returns_pair. vm_compute. reflexivity.
  - exact Hpp.
  - vm_compute. reflexivity.
  - rewrite <- Hprof. apply Exists_cons_hd. unfold Qlt. simpl. lia.
  - rewrite <- Hprof. repeat constructor; unfold Qlt; simpl; lia.
  - rewrite <- Hprof in Hr, Hm. simpl in Hr, Hm.
    injection Hr as <-. injection Hm as <-.
    rewrite <- Hp in H1, H2. split; [exact H1 | exact H2].
Defined.

Lemma SO_radius_positive_iff_reached_witness :
  exists p prof,
    particle_profile Qsqrt argsort halo_at_origin data_dm_halo = inr (p, prof) /\
    0 <= 4 /\
    (0 < 4 <-> Exists (fun d => (200 # 10000) < d) (density prof)).
Proof.
  destruct (particle_profile Qsqrt argsort halo_at_origin data_dm_halo)
    as [e|[p prof]] eqn:Hpp; [vm_compute in Hpp; discriminate Hpp|].
  exists p, prof. split; [reflexivity|].
  apply (SO_radius_positive_iff_reached Qsqrt argsort Qsqrt_nonneg argsort_perm
           argsort_sorted SO_200_crit halo_at_origin data_dm_halo ∅
           (calculate Qsqrt argsort SO_200_crit halo_at_origin data_dm_halo ∅).2
           p prof (200 # 10000) "200_crit" label_200_crit
           (mk_quantity 4 "Mpc") ("Radius " +:+ label_200_crit)).
  - apply calculate_returns_pair. vm_compute. reflexivity.
  - exact Hpp.
  - vm_compute. reflexivity.
  - vm_compute. reflexivity.
Defined.

(** ** Hot gas and the gas sums *)

Lemma aggregate_inside_gas centre data p mSO rSO Tgas Xray_lum Xray_phlum compY a :
  aggregate_inside centre data p mSO rSO Tgas Xray_lum Xray_phlum compY = inr a ->
  let radius := value (p_radius p) in
  let all_selection := lt_mask radius (qvalue rSO) in
  let mass := select all_selection (value (p_mass p)) in
  let types := select all_selection (p_types p) in
  let gas_selection :=
    lt_mask (select (types_eq (p_types p) "PartType0") radius) (qvalue rSO) in
  let gas_masses := select (types_eq types "PartType0") mass in
  let gas_temperatures := select gas_selection (value Tgas) in
  let Tgas_selection := gt_mask gas_temperatures 100000 in
  length gas_temperatures = length gas_masses /\
  MhotgasSO a = mk_quantity (Qsum (select Tgas_selection gas_masses))
                            (units (p_mass p)) /\
  XraylumSO a = mk_quantity (Qsum (select gas_selection (value Xray_lum)))
                            (units Xray_lum) /\
  XrayphlumSO a = mk_quantity (Qsum (select gas_selection (value Xray_phlum)))
                              (units Xray_phlum) /\
  compYSO a = mk_quantity (Qsum (select gas_selection (value compY)))
                          (units compY).
Proof.
  unfold aggregate_inside. intros H.
  apply bind_inr in H as (gas_radius & E & H). apply bool_index_inr in E as [_ ->].
  apply bind_inr in H as (star_radius & E & H). apply bool_index_inr in E as [_ ->].
  apply bind_inr in H as (bh_radius & E & H). apply bool_index_inr in E as [_ ->].
  apply bind_inr in H as (mass & E & H). apply bool_index_inr in E as [_ ->].
  apply bind_inr in H as (position & E & H). apply bool_index_inr in E as [_ ->].
  apply bind_inr in H as (velocity & E & H). apply bool_index_inr in E as [_ ->].
  apply bind_inr in H as (types & E & H). apply bool_index_inr in E as [_ ->].
  apply bind_inr in H as (gas_masses & E & H). apply bool_index_inr in E as [_ ->].
  apply bind_inr in H as (dm_masses & E & H). clear E.
  apply bind_inr in H as (star_masses & E & H). clear E.
  apply bind_inr in H as (bh_masses & E & H). clear E.
  apply bind_inr in H as (gas_temperatures & E & H).
  apply bool_index_inr in E as [_ ->].
  apply bind_inr in H as (hot_masses & E & H). apply bool_index_inr in E as [LT ->].
  apply bind_inr in H as (T & ET & H).
  apply bind_inr in H as (xray & E & H). apply bool_index_inr in E as [_ ->].
  apply bind_inr in H as (xrayph & E & H). apply bool_index_inr in E as [_ ->].
  apply bind_inr in H as (compy & E & H). apply bool_index_inr in E as [_ ->].
  apply bind_inr in H as (stars & E & H). clear E.
  apply bind_inr in H as (initial_masses & E & H). clear E.
  apply bind_inr in H as (star_init & E & H). clear E.
  apply bind_inr in H as (bhs & E & H). clear E.
  apply bind_inr in H as (subgrid_masses & E & H). clear E.
  apply bind_inr in H as (bh_sub & E & H). clear E.
  injection H as <-. simpl.
  unfold gt_mask in LT. rewrite length_map in LT.
  repeat split; done.
Qed.

Lemma Qsum_nonneg (l : list Q) : Forall (fun m => 0 <= m) l -> 0 <= Qsum l.
Proof. unfold Qsum. induction 1 as [|m l Hm _ IH]; simpl; lra. Qed.

Lemma Qsum_select_le (mask : list bool) (l : list Q) :
  Forall (fun m => 0 <= m) l -> Qsum (select mask l) <= Qsum l.
Proof.
  intros H. revert mask.
  induction H as [|m l Hm Hl IH]; intros [|b mask]; simpl; try lra.
  - pose proof (Qsum_nonneg l Hl). unfold Qsum in *. lra.
  - specialize (IH mask). unfold Qsum in *. destruct b; simpl; lra.
Qed.

Lemma select_elem_of {A} (mask : list bool) (a : list A) k x :
  mask !! k = Some true -> a !! k = Some x -> x ∈ select mask a.
Proof.
  revert a k. induction mask as [|b mask IH]; intros [|y a] [|k] Hm Ha;
    simpl in *; try done.
  - injection Hm as ->. injection Ha as ->. apply list_elem_of_here.
  - destruct b; [apply list_elem_of_further|]; eauto.
Qed.

Lemma select_gt_mask (l : list Q) x :
  Forall (fun v => x < v) (select (gt_mask l x) l).
Proof.
  induction l as [|v l IH]; simpl; [constructor|].
  destruct (Qgtb v x) eqn:E; [|done]. constructor; [|done]. by apply Qgtb_gt.
Qed.

Lemma np_any_select {A} (mask : list bool) (a : list A) :
  length mask = length a -> np_any mask = true -> select mask a <> [].
Proof.
  revert a. induction mask as [|b mask IH]; intros [|x a] Hlen; simpl in *;
    try done.
  destruct b; simpl; [done|]. apply IH. lia.
Qed.

Lemma weighted_sum_above (c : Q) (Ts Ms : list Q) :
  length Ts = length Ms ->
  Forall (fun T => c < T) Ts -> Forall (fun m => 0 < m) Ms ->
  0 <= Qsum Ms /\ c * Qsum Ms <= Qsum (zip_with Qmult Ts Ms) /\
  (Ts <> [] -> 0 < Qsum Ms /\ c * Qsum Ms < Qsum (zip_with Qmult Ts Ms)).
Proof.
  intros Hlen HT. revert Ms Hlen.
  induction HT as [|T Ts HTc _ IH]; intros [|m Ms] Hlen HM; simpl in *; try done.
  - split; [lra|]. split; [lra | congruence].
  - apply Forall_cons in HM as [Hm HM].
    destruct (IH Ms ltac:(lia) HM) as (H0 & Hle & _).
    pose proof (Qmult_lt_compat_r c T m Hm HTc) as Hcm.
    unfold Qsum in *.
    assert (c * (m + foldr Qplus 0 Ms) == c * m + c * foldr Qplus 0 Ms) as Hd
      by ring.
    split; [lra|]. split; [rewrite Hd; lra|].
    intros _. split; [lra | rewrite Hd; lra].
Qed.

Section Gas_sums.

Variable np_sqrt : Q -> Q.
Variable np_argsort : list Q -> list nat.

(** X14: when no particle mass is negative, the hot gas mass stored by a
    call that returns lies between zero and the gas mass stored by the
    same call. *)
Theorem hot_gas_mass_bounds self input_halo data halo_result halo_result'
        p prof ref name label :
  calculate np_sqrt np_argsort self input_halo data halo_result
    = (inr tt, halo_result') ->
  particle_profile np_sqrt np_argsort input_halo data = inr (p, prof) ->
  reference self = Some (ref, name, label) ->
  Forall (fun m => 0 <= m) (value (p_mass p)) ->
  exists Mgas Mhotgas,
    halo_result' !! ("Mgas_" +:+ name)
      = Some (Scalar Mgas, "Total gas mass within a sphere " +:+ label) /\
    halo_result' !! ("Mhotgas_" +:+ name)
      = Some (Scalar Mhotgas,
              "Total mass of gas with T > 1e5 K within a sphere " +:+ label) /\
    qunits Mhotgas = qunits Mgas /\
    0 <= qvalue Mhotgas /\ qvalue Mhotgas <= qvalue Mgas.
Proof.
  intros Hc Hpp Href Hmass.
  destruct (calculate_inr_profile _ _ _ _ _ _ _ _ _ _ _ _ Hc Hpp Href)
    as (cofp & mSO & rSO & gas & Tgas & Xl & Xp & cY & a & _ & _ & _ & _
        & _ & _ & Ha & Hitems).
  exists (MgasSO a), (MhotgasSO a).
  split; [eapply calculate_lookup; eauto; in_result_items|].
  split; [eapply calculate_lookup; eauto; in_result_items|].
  destruct (Qgtb (qvalue rSO) 0).
  - pose proof (aggregate_inside_inr _ _ _ _ _ _ _ _ _ _ Ha)
      as (_ & _ & _ & -> & _).
    pose proof (aggregate_inside_gas _ _ _ _ _ _ _ _ _ _ Ha) as (_ & -> & _).
    simpl. split; [done|].
    assert (Forall (fun m => 0 <= m)
              (select (types_eq (select (lt_mask (value (p_radius p)) (qvalue rSO))
                                        (p_types p)) "PartType0")
                      (select (lt_mask (value (p_radius p)) (qvalue rSO))
                              (value (p_mass p))))) as Hgas
      by (by do 2 apply select_Forall).
    split; [by apply Qsum_nonneg, select_Forall | by apply Qsum_select_le].
  - subst a. simpl. repeat split; lra.
Qed.

(** X15: when every particle mass is positive, the temperature stored by
    a call that returns is either the literal zero or above 1e5 K, and it
    is above 1e5 K whenever a particle tagged as gas with a radius below
    the positive SO radius has a temperature above 1e5 K. *)
Theorem Tgas_zero_or_hot self input_halo data halo_result halo_result'
        p prof ref name label rSO description gas Tgas :
  calculate np_sqrt np_argsort self input_halo data halo_result
    = (inr tt, halo_result') ->
  particle_profile np_sqrt np_argsort input_halo data = inr (p, prof) ->
  reference self = Some (ref, name, label) ->
  halo_result' !! ("r_" +:+ name) = Some (Scalar rSO, description) ->
  dict_get data "PartType0" = inr gas ->
  get_scalar gas "Temperatures" = inr Tgas ->
  Forall (fun m => 0 < m) (value (p_mass p)) ->
  exists T,
    halo_result' !! ("Tgas_" +:+ name)
      = Some (Scalar (mk_quantity T (units Tgas)),
              "Mass-weighted average temperature of gas with T > 1e5 K within a sphere "
                +:+ label) /\
    (T = 0 \/ 100000 < T) /\
    (0 < qvalue rSO ->
     (exists k r Tk,
         select (types_eq (p_types p) "PartType0") (value (p_radius p)) !! k = Some r /\
         value Tgas !! k = Some Tk /\
         r < qvalue rSO /\ 100000 < Tk) ->
     100000 < T).
Proof.
  intros Hc Hpp Href Hr Hgas HT Hmass.
  destruct (calculate_inr_profile _ _ _ _ _ _ _ _ _ _ _ _ Hc Hpp Href)
    as (cofp & mSO & rSO' & gas' & Tgas' & Xl & Xp & cY & a & _ & _ & _ & HSO
        & Hgas' & HT' & Ha & Hitems).
  rewrite Hgas in Hgas'. injection Hgas' as <-.
  rewrite HT in HT'. injection HT' as <-.
  assert (rSO' = rSO) as ->.
  { assert (halo_result' !! ("r_" +:+ name)
            = Some (Scalar rSO', "Radius " +:+ label)) as Hr'.
    { eapply calculate_lookup; eauto. in_result_items. }
    rewrite Hr in Hr'. by injection Hr'. }
  destruct (Qgtb (qvalue rSO) 0) eqn:Epos.
  - pose proof (aggregate_inside_inr _ _ _ _ _ _ _ _ _ _ Ha)
      as (_ & _ & _ & _ & _ & _ & _ & HTgas).
    pose proof (aggregate_inside_gas _ _ _ _ _ _ _ _ _ _ Ha) as (Hlen & _).
    cbn zeta in HTgas, Hlen.
    set (gas_selection :=
           lt_mask (select (types_eq (p_types p) "PartType0") (value (p_radius p)))
                   (qvalue rSO)) in *.
    set (gas_temperatures := select gas_selection (value Tgas)) in *.
    set (gas_masses :=
           select (types_eq (select (lt_mask (value (p_radius p)) (qvalue rSO))
                                    (p_types p)) "PartType0")
                  (select (lt_mask (value (p_radius p)) (qvalue rSO))
                          (value (p_mass p)))) in *.
    set (Tgas_selection := gt_mask gas_temperatures 100000) in *.
    assert (np_any Tgas_selection = true ->
            100000 < Qsum (zip_with Qmult (select Tgas_selection gas_temperatures)
                                    (select Tgas_selection gas_masses))
                     / Qsum (select Tgas_selection gas_masses)) as Hhot.
    { intros Hany.
      destruct (weighted_sum_above 100000
                  (select Tgas_selection gas_temperatures)
                  (select Tgas_selection gas_masses))
        as (_ & _ & Hstrict).
      - by apply select_length_le.
      - apply select_gt_mask.
      - apply select_Forall. subst gas_masses. by do 2 apply select_Forall.
      - destruct Hstrict as [Hpos Hlt].
        + apply np_any_select; [|done].
          subst Tgas_selection. unfold gt_mask. by rewrite length_map.
        + apply Qlt_shift_div_l; [done|]. lra. }
    eexists. split; [|split].
    + eapply calculate_lookup; eauto. rewrite <- HTgas. in_result_items.
    + destruct (np_any Tgas_selection); [right; by apply Hhot | by left].
    + intros _ (k & r & Tk & Hk & HTk & Hlt & Hhotk).
      assert (np_any Tgas_selection = true) as Hany;
        [|rewrite Hany; by apply Hhot].
      apply np_any_true.
      subst Tgas_selection. unfold gt_mask. apply Exists_fmap, Exists_exists.
      exists Tk. split; [|simpl; by apply Qgtb_gt].
      apply (select_elem_of gas_selection (value Tgas) k); [|done].
      subst gas_selection. unfold lt_mask. rewrite list_lookup_fmap, Hk. simpl.
      f_equal. by apply Qltb_lt.
  - subst a. exists 0. split; [|split].
    + eapply calculate_lookup; eauto. in_result_items.
    + by left.
    + intros Hpos. apply Qgtb_gt in Hpos. congruence.
Qed.

End Gas_sums.

Lemma hot_gas_mass_bounds_witness :
  let halo_result' :=
    (calculate Qsqrt argsort SO_200_crit halo_at_origin data_hot_gas ∅).2 in
  exists Mgas Mhotgas,
    halo_result' !! "Mgas_200_crit"
      = Some (Scalar Mgas, "Total gas mass within a sphere " +:+ label_200_crit) /\
    halo_result' !! "Mhotgas_200_crit"
      = Some (Scalar Mhotgas,
              "Total mass of gas with T > 1e5 K within a sphere "
                +:+ label_200_crit) /\
    qunits Mhotgas = qunits Mgas /\
    0 <= qvalue Mhotgas /\ qvalue Mhotgas <= qvalue Mgas.
Proof.
  intros halo_result'.
  run_profile halo_at_origin data_hot_gas p prof Hpp Hp Hprof.
  apply (hot_gas_mass_bounds Qsqrt argsort SO_200_crit halo_at_origin
           data_hot_gas ∅ halo_result' p prof (200 # 10000) "200_crit"
           label_200_crit).
  - apply calculate_returns_pair. vm_compute. reflexivity.
  - exact Hpp.
  - vm_compute. reflexivity.
  - rewrite <- Hp. repeat constructor; unfold Qle; simpl; lia.
Defined.

Lemma Tgas_zero_or_hot_witness :
  let halo_result' :=
    (calculate Qsqrt argsort SO_200_crit halo_at_origin data_hot_gas ∅).2 in
  exists T,
    halo_result' !! "Tgas_200_crit"
      = Some (Scalar (mk_quantity T "K"),
              "Mass-weighted average temperature of gas with T > 1e5 K within a sphere "
                +:+ label_200_crit) /\
    100000 < T.
Proof.
  intros halo_result'.
  run_profile halo_at_origin data_hot_gas p prof Hpp Hp Hprof.
  destruct (Tgas_zero_or_hot Qsqrt argsort SO_200_crit halo_at_origin
              data_hot_gas ∅ halo_result' p prof (200 # 10000) "200_crit"
              label_200_crit (mk_quantity 6 "Mpc") ("Radius " +:+ label_200_crit)
              gas_hot (mk_unyt [1000000; 10000; 3000000; 10000] "K"))
    as (T & Hlookup & _ & Hhot).
  - apply calculate_returns_pair. vm_compute. reflexivity.
  - exact Hpp.
  - vm_compute. reflexivity.
  - vm_compute. reflexivity.
  - reflexivity.
  - vm_compute. reflexivity.
  - rewrite <- Hp. repeat constructor; unfold Qlt; simpl; lia.
  - exists T. split; [exact Hlookup|]. apply Hhot; [reflexivity|].
    exists 0%nat, 1, 1000000. rewrite <- Hp. simpl.
    repeat split; reflexivity.
Defined.

(** ** The type of the calculator *)

Section Calculator_type.

Variable np_sqrt : Q -> Q.
Variable np_argsort : list Q -> list nat.

(** X16: the [if]/[elif] on the type has no [else].  On an object whose
    type was set to something other than ["crit"] and ["mean"] after
    construction, [calculate] raises [UnboundLocalError] and writes
    nothing: for [reference_density] when the profile has a particle, and
    otherwise, [and] having skipped the comparison, for [name] at the
    dict literal, once the gas datasets have been read. *)
Theorem calculate_unknown_type self input_halo data halo_result p prof :
  type self <> "crit" -> type self <> "mean" ->
  particle_profile np_sqrt np_argsort input_halo data = inr (p, prof) ->
  (ordered_radius prof <> [] ->
   calculate np_sqrt np_argsort self input_halo data halo_result
   = (inl (UnboundLocalError "reference_density"), halo_result)) /\
  (ordered_radius prof = [] ->
   forall gas Tgas Xray_lum Xray_phlum compY,
     dict_get data "PartType0" = inr gas ->
     get_scalar gas "Temperatures" = inr Tgas ->
     get_scalar gas "XrayLuminosities" = inr Xray_lum ->
     get_scalar gas "XrayPhotonLuminosities" = inr Xray_phlum ->
     get_scalar gas "ComptonYParameters" = inr compY ->
     calculate np_sqrt np_argsort self input_halo data halo_result
     = (inl (UnboundLocalError "name"), halo_result)).
Proof.
  intros Hcrit Hmean Hpp.
  apply particle_profile_inv in Hpp as (cofp & Hcofp & Hp & Hprof).
  assert (reference self = None) as Href.
  { unfold reference. by rewrite !decide_False. }
  split.
  - intros Hne. unfold calculate, SO_items, map_get.
    rewrite Hcofp. cbn [bind ret]. rewrite Hp. cbn [bind ret].
    rewrite Hprof. cbn [bind ret]. rewrite Href.
    unfold find_SO. rewrite bool_decide_eq_true_2; [reflexivity|].
    destruct (ordered_radius prof); [done | simpl; lia].
  - intros Hnil gas Tgas Xl Xp cY Hgas HT HX HXp HY.
    unfold calculate, SO_items, map_get.
    rewrite Hcofp. cbn [bind ret]. rewrite Hp. cbn [bind ret].
    rewrite Hprof. cbn [bind ret]. rewrite Href.
    unfold find_SO. rewrite Hnil. cbn [length].
    rewrite bool_decide_eq_false_2 by lia. cbn [bind ret fst snd qvalue].
    rewrite Hgas. cbn [bind ret]. rewrite HT, HX, HXp, HY. reflexivity.
Qed.

Hypothesis np_argsort_perm : forall a, np_argsort a ≡ₚ seq 0 (length a).

(** X17: an object that the constructor has returned never meets that
    error: on well-formed data with gas, stars and black holes and a halo
    with its centre of potential, [calculate] returns and stores all
    fifteen results under the keys that end in the multiple, formatted by
    [%.0f], and the type given to the constructor. *)
Theorem constructed_calculator_returns cg SOval ty self input_halo data
        halo_result :
  SOProperties.__init__ cg SOval ty = inr self ->
  well_formed data ->
  "PartType0" ∈ dict_keys data ->
  "PartType4" ∈ dict_keys data ->
  "PartType5" ∈ dict_keys data ->
  is_Some (input_halo !! "cofp") ->
  exists halo_result',
    calculate np_sqrt np_argsort self input_halo data halo_result
      = (inr tt, halo_result') /\
    forall key,
      key ∈ result_keys (format_0f SOval +:+ "_" +:+ ty) ->
      is_Some (halo_result' !! key).
Proof using np_argsort_perm.
  intros Hinit Hwf Hgas Hstars Hbhs Hcofp.
  unfold SOProperties.__init__ in Hinit.
  case_bool_decide as Hty; simpl in Hinit; [|discriminate].
  injection Hinit as <-.
  set (self := {| critical_density := cg_critical_density cg;
                  mean_density := cg_mean_density cg;
                  type := ty;
                  mean_density_multiple := SOval;
                  critical_density_multiple := SOval;
                  name := "SO_" +:+ format_d SOval +:+ "_" +:+ ty |}).
  destruct (calculate_returns np_sqrt np_argsort np_argsort_perm self input_halo
              data halo_result Hwf Hgas Hstars Hbhs Hcofp Hty)
    as (halo_result' & Hc).
  exists halo_result'. split; [exact Hc|].
  intros key Hkey.
  apply calculate_inr in Hc as (items & Hitems & ->).
  apply SO_items_inr in Hitems
    as (?&?&?&ref&name&label&?&?&?&?&?&?&?&?&_&_&_&Href&_&_&_&_&_&_&_&->).
  apply dict_update_is_Some. right. rewrite result_items_keys.
  assert (name = format_0f SOval +:+ "_" +:+ ty) as ->; [|exact Hkey].
  unfold reference in Href. subst self. simpl in Href.
  rewrite !elem_of_cons, elem_of_nil in Hty.
  destruct Hty as [->|[->|[]]]; simpl in Href; by injection Href as _ <- _.
Qed.

End Calculator_type.

Lemma calculate_unknown_type_witness :
  calculate Qsqrt argsort SO_200_median halo_at_origin data_dm_halo ∅
    = (inl (UnboundLocalError "reference_density"), ∅) /\
  calculate Qsqrt argsort SO_200_median halo_at_origin data_no_particles ∅
    = (inl (UnboundLocalError "name"), ∅).
Proof.
  split.
  - run_profile halo_at_origin data_dm_halo p prof Hpp Hp Hprof.
    apply (proj1 (calculate_unknown_type Qsqrt argsort SO_200_median
                    halo_at_origin data_dm_halo ∅ p prof
                    ltac:(discriminate) ltac:(discriminate) Hpp)).
    rewrite <- Hprof. discriminate.
  - run_profile halo_at_origin data_no_particles p prof Hpp Hp Hprof.
    apply (proj2 (calculate_unknown_type Qsqrt argsort SO_200_median
                    halo_at_origin data_no_particles ∅ p prof
                    ltac:(discriminate) ltac:(discriminate) Hpp)
             ltac:(by rewrite <- Hprof) gas_none
             (mk_unyt [] "K") (mk_unyt [] "erg/s") (mk_unyt [] "1/s")
             (mk_unyt [] "Mpc**2")); reflexivity.
Defined.

Lemma constructed_calculator_returns_witness :
  exists self halo_result',
    SOProperties.__init__ (mk_cellgrid (1 # 10000) (1 # 20000)) 200 "crit"
      = inr self /\
    calculate Qsqrt argsort self halo_at_origin data_dm_halo ∅
      = (inr tt, halo_result') /\
    is_Some (halo_result' !! "r_200_crit").
Proof.
  destruct (SOProperties.__init__ (mk_cellgrid (1 # 10000) (1 # 20000)) 200 "crit")
    as [e|self] eqn:E; [vm_compute in E; discriminate E|].
  destruct (constructed_calculator_returns Qsqrt argsort argsort_perm
              (mk_cellgrid (1 # 10000) (1 # 20000)) 200 "crit" self
              halo_at_origin data_dm_halo ∅ E data_dm_halo_well_formed)
    as (halo_result' & Hc & Hkeys).
  - unfold data_dm_halo, dict_keys. simpl. set_solver.
  - unfold data_dm_halo, dict_keys. simpl. set_solver.
  - unfold data_dm_halo, dict_keys. simpl. set_solver.
  - eexists. reflexivity.
  - exists self, halo_result'. split; [reflexivity|]. split; [exact Hc|].
    apply Hkeys. unfold result_keys. simpl. apply list_elem_of_here.
Defined.

(** ** The catalogue as a whole *)

Lemma Qabs_minus_swap (x y : Q) : Qabs (x - y) = Qabs (y - x).
Proof.
  destruct x as [a b], y as [c d]. unfold Qminus, Qplus, Qopp, Qabs. simpl.
  f_equal; [lia | apply Pos.mul_comm].
Qed.

Lemma vabs_vsub_swap (p c : vec3) : vabs (vsub p c) = vabs (vsub c p).
Proof.
  destruct p as [[x y] z], c as [[x' y'] z']. unfold vsub, vabs.
  f_equal; [f_equal|]; apply Qabs_minus_swap.
Qed.

Lemma wrapped_dist_app boxsize (p1 p2 c1 c2 : list vec3) :
  length p1 = length c1 ->
  wrapped_dist boxsize (p1 ++ p2) (c1 ++ c2)
  = wrapped_dist boxsize p1 c1 ++ wrapped_dist boxsize p2 c2.
Proof.
  intros Hlen. unfold wrapped_dist. simpl. unfold wrap_dim.
  by rewrite zip_with_app, !map_app.
Qed.

Lemma wrap_axis_bounds boxsize d :
  0 <= d -> d <= boxsize ->
  0 <= wrap_axis boxsize d /\ wrap_axis boxsize d <= (1 # 2) * boxsize.
Proof.
  intros H0 HL. unfold wrap_axis.
  destruct (Qgtb d ((1 # 2) * boxsize)) eqn:E.
  - apply Qgtb_gt in E. split; lra.
  - apply Qgtb_le in E. split; lra.
Qed.

Section Catalogue.

Variable np_sqrt : Q -> Q.

Lemma local_search_radius_app boxsize conv (rows1 rows2 : list halo_row) :
  local_search_radius np_sqrt boxsize
    (local_cofp conv (rows1 ++ rows2)) (local_cofm conv (rows1 ++ rows2))
    (local_r_size conv (rows1 ++ rows2))
  = local_search_radius np_sqrt boxsize
      (local_cofp conv rows1) (local_cofm conv rows1) (local_r_size conv rows1)
    ++ local_search_radius np_sqrt boxsize
         (local_cofp conv rows2) (local_cofm conv rows2) (local_r_size conv rows2).
Proof.
  unfold local_search_radius, local_cofp, local_cofm, local_r_size.
  rewrite !map_app, wrapped_dist_app by (by rewrite !length_map).
  rewrite map_app, zip_with_app; [reflexivity|].
  by rewrite !length_map, length_wrapped_dist, length_zip_with, !length_map,
    Nat.min_id.
Qed.

Lemma local_search_radius_concat boxsize conv (ranks : list (list halo_row)) :
  local_search_radius np_sqrt boxsize
    (local_cofp conv (concat ranks)) (local_cofm conv (concat ranks))
    (local_r_size conv (concat ranks))
  = concat (map (fun rows =>
                   local_search_radius np_sqrt boxsize (local_cofp conv rows)
                     (local_cofm conv rows) (local_r_size conv rows)) ranks).
Proof.
  induction ranks as [|rows ranks IH]; [reflexivity|].
  simpl. by rewrite local_search_radius_app, IH.
Qed.

Lemma length_local_search_radius boxsize conv (rows : list halo_row) :
  length (local_search_radius np_sqrt boxsize (local_cofp conv rows)
            (local_cofm conv rows) (local_r_size conv rows))
  = length rows.
Proof.
  unfold local_search_radius, local_cofp, local_cofm, local_r_size.
  rewrite length_zip_with, !length_map, length_wrapped_dist, length_zip_with,
    !length_map.
  lia.
Qed.

(** The gathered arrays are those of one rank holding all rows. *)
Lemma gather_single_rank ranks a units siminfo boxsize :
  SOCatalogue.__init__ np_sqrt ranks a units siminfo boxsize
  = SOCatalogue.__init__ np_sqrt [concat ranks] a units siminfo boxsize.
Proof.
  unfold SOCatalogue.__init__. cbn [map concat]. rewrite !app_nil_r.
  rewrite !local_search_radius_concat.
  assert (concat (map (local_cofp (length_conversion a units siminfo)) ranks)
          = local_cofp (length_conversion a units siminfo) (concat ranks)) as ->.
  { symmetry. apply List.concat_map. }
  assert (forall (f : list halo_row -> list Q),
             concat (map (fun rows => local_read_radius (f rows)) ranks)
             = local_read_radius (concat (map f ranks))) as ->.
  { intros f. unfold local_read_radius.
    by rewrite List.concat_map, List.map_map. }
  reflexivity.
Qed.

(** X18: the catalogue that rank zero holds does not depend on how the
    rows of the halo catalogue were distributed over the ranks: two
    distributions of the same rows in the same order give the same
    catalogue. *)
Theorem catalogue_independent_of_ranks ranks ranks' a units siminfo boxsize :
  concat ranks = concat ranks' ->
  SOCatalogue.__init__ np_sqrt ranks a units siminfo boxsize
  = SOCatalogue.__init__ np_sqrt ranks' a units siminfo boxsize.
Proof.
  intros Hrows.
  rewrite (gather_single_rank ranks), (gather_single_rank ranks').
  by rewrite Hrows.
Qed.

(** X19: the arrays of the catalogue are aligned with the rows read: there
    are as many halos as rows, the three arrays have that length, [index]
    counts from zero to it, and the centre of halo [h] is the potential
    minimum of row [h] converted to comoving Mpc. *)
Theorem catalogue_arrays_aligned ranks a units siminfo boxsize :
  let cat := SOCatalogue.__init__ np_sqrt ranks a units siminfo boxsize in
  nr_halos cat = length (concat ranks) /\
  length (value (search_radius cat)) = nr_halos cat /\
  length (value (read_radius cat)) = nr_halos cat /\
  length (value (centre cat)) = nr_halos cat /\
  index cat = seq 0 (nr_halos cat) /\
  forall h, h ∈ index cat ->
    exists row,
      concat ranks !! h = Some row /\
      value (centre cat) !! h
      = Some (vscale (length_conversion a units siminfo)
                     (Xcminpot row, Ycminpot row, Zcminpot row)).
Proof.
  intros cat. subst cat. rewrite gather_single_rank.
  unfold SOCatalogue.__init__. cbn [map concat nr_halos search_radius read_radius
                                    centre index value].
  rewrite !app_nil_r. unfold local_read_radius at 1.
  rewrite length_map, !length_local_search_radius.
  split; [reflexivity|]. split; [reflexivity|]. split; [reflexivity|].
  split; [unfold local_cofp; by rewrite length_map|]. split; [reflexivity|].
  intros h Hh. apply elem_of_seq in Hh as [_ Hh]. simpl in Hh.
  destruct (lookup_lt_is_Some_2 (concat ranks) h Hh) as [row Hrow].
  exists row. split; [exact Hrow|].
  unfold local_cofp. by rewrite list_lookup_fmap, Hrow.
Qed.

(** X20: no read radius of the catalogue is below 5 Mpc, whatever the
    rows hold, and each one is the larger of the search radius of its
    halo and 5 Mpc. *)
Theorem read_radius_floor ranks a units siminfo boxsize :
  let cat := SOCatalogue.__init__ np_sqrt ranks a units siminfo boxsize in
  Forall (fun r => 5 <= r) (value (read_radius cat)) /\
  Forall2 (fun s r => r == Qmax s 5)
          (value (search_radius cat)) (value (read_radius cat)).
Proof.
  intros cat. subst cat. rewrite gather_single_rank.
  unfold SOCatalogue.__init__. cbn [map concat search_radius read_radius value].
  rewrite !app_nil_r. unfold local_read_radius, min_radius. split.
  - apply Forall_fmap, Forall_forall. intros s _. simpl.
    destruct (Qltb s 5) eqn:E; [lra|]. by apply Qltb_ge in E.
  - apply Forall2_fmap_r, Forall_Forall2_diag, Forall_forall. intros s _.
    unfold compose. cbv beta. destruct (Qltb s 5) eqn:E.
    + apply Qltb_lt in E. symmetry. apply Q.max_r. lra.
    + apply Qltb_ge in E. symmetry. apply Q.max_l. lra.
Qed.

(** X21: exchanging the centre of potential and the centre of mass leaves
    the wrapped distance, and with it the search radius, unchanged. *)
Theorem search_radius_symmetric boxsize (cofp cofm : list vec3) (r_size : list Q) :
  wrapped_dist boxsize cofp cofm = wrapped_dist boxsize cofm cofp /\
  local_search_radius np_sqrt boxsize cofp cofm r_size
  = local_search_radius np_sqrt boxsize cofm cofp r_size.
Proof.
  assert (wrapped_dist boxsize cofp cofm = wrapped_dist boxsize cofm cofp) as Hw.
  { unfold wrapped_dist. f_equal.
    revert cofm. induction cofp as [|p cofp IH]; intros [|c cofm]; simpl; try done.
    by rewrite vabs_vsub_swap, IH. }
  split; [exact Hw|]. unfold local_search_radius. by rewrite Hw.
Qed.

End Catalogue.

(** X22: when the two centres of a halo differ by at most the box size on
    every axis, as they do for positions inside the box, every wrapped
    component lies between zero and half the box size. *)
Theorem wrapped_components_bounded boxsize cofp cofm h p c :
  cofp !! h = Some p -> cofm !! h = Some c ->
  (forall dim, Qabs (component dim p - component dim c) <= boxsize) ->
  exists w,
    wrapped_dist boxsize cofp cofm !! h = Some w /\
    forall dim, 0 <= component dim w /\ component dim w <= (1 # 2) * boxsize.
Proof.
  intros Hp Hc Hbox. eexists. split; [by apply wrapped_dist_lookup|].
  intros dim.
  pose proof (Hbox 0%nat) as H0. pose proof (Hbox 1%nat) as H1.
  pose proof (Hbox 2%nat) as H2.
  rewrite <- component_vsub, <- component_vabs in H0, H1, H2.
  assert (forall dim, 0 <= component dim (vabs (vsub p c))) as Hnonneg.
  { intros d. rewrite component_vabs. apply Qabs_nonneg. }
  pose proof (Hnonneg 0%nat) as N0. pose proof (Hnonneg 1%nat) as N1.
  pose proof (Hnonneg 2%nat) as N2.
  destruct (vabs (vsub p c)) as [[x y] z]. simpl in *.
  destruct dim as [|[|]]; simpl; by apply wrap_axis_bounds.
Qed.

Lemma catalogue_arrays_aligned_witness :
  let cat :=
    SOCatalogue.__init__ Qsqrt example_ranks 1 example_units example_siminfo 100 in
  nr_halos cat = 3%nat /\
  index cat = [0; 1; 2]%nat /\
  value (centre cat) !! 2%nat
  = Some (vscale (length_conversion 1 example_units example_siminfo)
                 (100, 100, 100)).
Proof.
  intros cat.
  destruct (catalogue_arrays_aligned Qsqrt example_ranks 1 example_units
              example_siminfo 100) as (Hn & _ & _ & _ & Hidx & Hcentre).
  fold cat in Hn, Hidx, Hcentre.
  change (length (concat example_ranks)) with 3%nat in Hn.
  rewrite Hn in Hidx. split; [exact Hn|]. split; [exact Hidx|].
  destruct (Hcentre 2%nat) as (row & Hrow & Hc).
  - rewrite Hidx. apply elem_of_seq. lia.
  - change (concat example_ranks !! 2%nat)
      with (Some (mk_halo_row 100 100 100 100 103 104 (1 # 2))) in Hrow.
    injection Hrow as <-. exact Hc.
Defined.

Lemma wrapped_components_bounded_witness :
  exists w,
    wrapped_dist 10 [(1 # 10, 0, 0)] [(99 # 10, 0, 0)] !! 0%nat = Some w /\
    forall dim, 0 <= component dim w /\ component dim w <= (1 # 2) * 10.
Proof.
  apply (wrapped_components_bounded 10 [(1 # 10, 0, 0)] [(99 # 10, 0, 0)] 0%nat
           (1 # 10, 0, 0) (99 # 10, 0, 0) eq_refl eq_refl).
  intros [|[|dim]]; vm_compute; discriminate.
Defined.

Lemma catalogue_independent_of_ranks_witness :
  SOCatalogue.__init__ Qsqrt example_ranks 1 example_units example_siminfo 100
  = SOCatalogue.__init__ Qsqrt [concat example_ranks] 1 example_units
      example_siminfo 100.
Proof.
  apply (catalogue_independent_of_ranks Qsqrt example_ranks [concat example_ranks]).
  reflexivity.
Defined.
